(** * blender-xray: the OGF exporter, the object importer and the
      motion-container index, as a shallow embedding.

    The development follows the three source files:
    - [Skls] : [io_scene_xray/skls_browser.py]   (indexing of a motion container)
    - [Obj]  : [io_scene_xray/fmt_object_imp.py] (mesh, bone and texture import)
    - [Ogf]  : [io_scene_xray/fmt_ogf_exp.py]    (vertex deduplication, weight packing)
    after [Codec], the readers of [xray_io] that the first two are written with.

    Python exceptions are modelled by the [result] type below: a computation
    that raises returns [Raise] and what it had changed is lost, as it is for a
    caller that lets the exception pass.  Python dictionaries are [gmap]s, or
    association lists where the order of iteration is observable; they iterate
    in the order of insertion.  The host's floating point numbers and matrices
    are type class parameters, so that nothing is assumed about their
    arithmetic; objects of the host that the code only writes to are kept as a
    log of the assignments. *)

From Stdlib Require Import ZArith QArith Lia.
From Stdlib.Strings Require Import Byte Ascii String.
From stdpp Require Import gmap strings list fin_maps.

Close Scope Q_scope.
Open Scope nat_scope.

(** ** Exceptions *)

Inductive error : Type :=
  | IndexError
  | KeyError
  | ValueError
  | ZeroDivisionError
  | AttributeError
  | StopIteration
  | StructError
  | RuntimeError
  | UnboundLocalError
  | TruncatedData
  | MalformedChunk
  | Failure (msg : string)
  | UnsupportedVersion (format : string) (ver : N)
  | UnknownVmapType (typ : N).

Inductive result (A : Type) : Type :=
  | Ok (a : A)
  | Raise (e : error).
Arguments Ok {A} a.
Arguments Raise {A} e.

Definition rbind {A B : Type} (r : result A) (k : A -> result B) : result B :=
  match r with
  | Ok a => k a
  | Raise e => Raise e
  end.

Notation "'let*' x ':=' r 'in' k" := (rbind r (fun x => k))
  (at level 10, x pattern, r at level 100, k at level 200).

Definition of_option {A : Type} (e : error) (o : option A) : result A :=
  match o with
  | Some a => Ok a
  | None => Raise e
  end.

Lemma rbind_Ok {A B : Type} (r : result A) (k : A -> result B) (b : B) :
  rbind r k = Ok b -> exists a, r = Ok a /\ k a = Ok b.
Proof. destruct r as [a|e]; simpl; [eauto | discriminate]. Qed.

Lemma of_option_Ok {A : Type} (e : error) (o : option A) (a : A) :
  of_option e o = Ok a -> o = Some a.
Proof. destruct o; simpl; congruence. Qed.

(** ** The host's numbers *)

(** The host's floating point numbers, as far as the code uses them: it reads
    them from four bytes, compares them, hashes them inside a dictionary key,
    and combines them with the operations below.  Nothing is assumed about
    their arithmetic.  Equality on [F] stands for Python's [==], which is what
    a dictionary compares the parts of its keys with. *)
Class Float (F : Type) := {
  f_zero : F;
  f_one : F;
  f_minus_one : F;
  fadd : F -> F -> F;
  fsub : F -> F -> F;
  fdiv : F -> F -> option F;   (* [None]: ZeroDivisionError *)
  fgt : F -> F -> bool;        (* Python's [>] *)
  f_of_bits : N -> F;          (* [struct.unpack('f', ...)] of a 32-bit pattern *)
}.

(** To run the definitions on examples the numbers are instantiated with exact
    rationals, and with integers where no arithmetic is needed: the integer
    is then the bit pattern itself. *)
Definition Qgtb (a b : Q) : bool :=
  match Qcompare a b with Gt => true | _ => false end.

#[export] Instance Q_float : Float Q := {|
  f_zero := 0%Q; f_one := 1%Q; f_minus_one := (-1)%Q;
  fadd a b := Qred (a + b);
  fsub a b := Qred (a - b);
  fdiv a b := if Qeq_bool b 0 then None else Some (Qred (a / b));
  fgt := Qgtb;
  f_of_bits n := inject_Z (Z.of_N n);
|}.

#[export] Instance Z_float : Float Z := {|
  f_zero := 0%Z; f_one := 1%Z; f_minus_one := (-1)%Z;
  fadd := Z.add;
  fsub := Z.sub;
  fdiv a b := if Z.eqb b 0 then None else Some (Z.div a b);
  fgt := Z.gtb;
  f_of_bits := Z.of_N;
|}.

(** ** The primitive codec used by the readers *)

Module Codec.

(** Modelled from the spec: [xray_io.PackedReader] is not among the sources.
    Section 4.1 describes it: a byte buffer with a cursor; fixed-width
    little-endian reads that advance the cursor and fail with [TruncatedData]
    when fewer bytes remain than required; strings read up to and including a
    null terminator, which is excluded from the result, failing with
    [TruncatedData] when there is none; [skip], [offset] and [set_offset]
    manipulate the cursor directly.  [getv] is the view of the buffer from the
    cursor on, as [_index_animations] uses it. *)
Record PackedReader := { data : list byte; offs : nat }.

#[export] Instance byte_eq_decision : EqDecision byte := Byte.byte_eq_dec.

Definition remaining (pr : PackedReader) : list byte := drop (offs pr) (data pr).

Definition advance (pr : PackedReader) (n : nat) : PackedReader :=
  {| data := data pr; offs := offs pr + n |}.

Definition offset (pr : PackedReader) : nat := offs pr.
Definition set_offset (pr : PackedReader) (pos : nat) : PackedReader :=
  {| data := data pr; offs := pos |}.
Definition skip (pr : PackedReader) (n : nat) : PackedReader := advance pr n.
Definition getv (pr : PackedReader) : list byte := remaining pr.

Definition u8 (b : byte) : N := Byte.to_N b.
Definition u16 (b0 b1 : byte) : N := (u8 b0 + 256 * u8 b1)%N.
Definition u32 (b0 b1 b2 b3 : byte) : N :=
  (u8 b0 + 256 * u8 b1 + 65536 * u8 b2 + 16777216 * u8 b3)%N.

(** [getf('B')[0]], [getf('H')[0]] and [getf('I')[0]]. *)
Definition get_B (pr : PackedReader) : result (N * PackedReader) :=
  match remaining pr with
  | b0 :: _ => Ok (u8 b0, advance pr 1)
  | _ => Raise TruncatedData
  end.

Definition get_H (pr : PackedReader) : result (N * PackedReader) :=
  match remaining pr with
  | b0 :: b1 :: _ => Ok (u16 b0 b1, advance pr 2)
  | _ => Raise TruncatedData
  end.

Definition get_I (pr : PackedReader) : result (N * PackedReader) :=
  match remaining pr with
  | b0 :: b1 :: b2 :: b3 :: _ => Ok (u32 b0 b1 b2 b3, advance pr 4)
  | _ => Raise TruncatedData
  end.

(** [getf('II')]. *)
Definition get_II (pr : PackedReader) : result (N * N * PackedReader) :=
  let* (a, pr) := get_I pr in
  let* (b, pr) := get_I pr in
  Ok (a, b, pr).

(** The bytes before the first null byte. *)
Fixpoint until_null (bs : list byte) : option (list byte) :=
  match bs with
  | [] => None
  | b :: bs' =>
      if decide (b = x00) then Some []
      else match until_null bs' with
           | Some s => Some (b :: s)
           | None => None
           end
  end.

(** [gets()]: a string is identified with the bytes it is decoded from. *)
Definition gets (pr : PackedReader) : result (string * PackedReader) :=
  match until_null (remaining pr) with
  | Some s => Ok (string_of_list_byte s, advance pr (length s + 1))
  | None => Raise TruncatedData
  end.

(** [getf('f')[0]], [getf('ff')] and [getf('fff')]. *)
Definition get_f `{Float F} (pr : PackedReader) : result (F * PackedReader) :=
  let* (n, pr) := get_I pr in Ok (f_of_bits n, pr).

Definition get_ff `{Float F} (pr : PackedReader) : result (F * F * PackedReader) :=
  let* (x, pr) := get_f pr in
  let* (y, pr) := get_f pr in
  Ok (x, y, pr).

Definition get_fff `{Float F} (pr : PackedReader) : result (F * F * F * PackedReader) :=
  let* (x, pr) := get_f pr in
  let* (y, pr) := get_f pr in
  let* (z, pr) := get_f pr in
  Ok (x, y, z, pr).

(** [n] values in a row, as in [getf(str(n) + 'I')] or a comprehension of reads. *)
Fixpoint get_n {A : Type} (get : PackedReader -> result (A * PackedReader))
    (n : nat) (pr : PackedReader) : result (list A * PackedReader) :=
  match n with
  | 0 => Ok ([], pr)
  | S n' =>
      let* (x, pr) := get pr in
      let* (xs, pr) := get_n get n' pr in
      Ok (x :: xs, pr)
  end.

(** Modelled from the spec: [xray_io.ChunkedReader] is not among the sources.
    Sections 4.2 and 6: a buffer is a sequence of chunks
    [tag:u32 || length:u32 || payload], yielded in file order; a header that
    claims more bytes than remain is malformed.  The reader is represented by
    what it will yield, so that a malformed tail is met only when the
    iteration reaches it. *)
Inductive ChunkedReader : Type :=
  | cr_end
  | cr_chunk (cid : N) (payload : list byte) (rest : ChunkedReader)
  | cr_malformed.

Fixpoint chunks_fuel (fuel : nat) (bs : list byte) : ChunkedReader :=
  match fuel with
  | 0 => cr_end
  | S fuel' =>
      match bs with
      | [] => cr_end
      | b0 :: b1 :: b2 :: b3 :: s0 :: s1 :: s2 :: s3 :: rest =>
          let size := N.to_nat (u32 s0 s1 s2 s3) in
          if decide (size <= length rest)
          then cr_chunk (u32 b0 b1 b2 b3) (take size rest) (chunks_fuel fuel' (drop size rest))
          else cr_malformed
      | _ => cr_malformed
      end
  end.

Definition chunked_reader (bs : list byte) : ChunkedReader :=
  chunks_fuel (S (length bs)) bs.

(** [cr.next(expected_cid)]: the payload of the next chunk, which has to carry
    the expected tag. *)
Definition cr_next (cr : ChunkedReader) (expected_cid : N)
  : result (list byte * ChunkedReader) :=
  match cr with
  | cr_end => Raise StopIteration
  | cr_malformed => Raise MalformedChunk
  | cr_chunk cid payload rest =>
      if decide (cid = expected_cid) then Ok (payload, rest)
      else Raise (Failure "expected chunk")
  end.

(** [cr.nextf(expected_cid, 'H')[0]]: the payload is exactly one u16. *)
Definition cr_nextf_H (cr : ChunkedReader) (expected_cid : N)
  : result (N * ChunkedReader) :=
  let* (payload, rest) := cr_next cr expected_cid in
  match payload with
  | [b0; b1] => Ok (u16 b0 b1, rest)
  | _ => Raise StructError
  end.

(** The write side, used to lay out well-formed buffers. *)
Definition byte_of_N (n : N) : byte := default x00 (Byte.of_N (n mod 256)).

Definition put_u32 (n : N) : list byte :=
  [byte_of_N n; byte_of_N (n / 256); byte_of_N (n / 65536); byte_of_N (n / 16777216)].

Definition put_str (s : string) : list byte := list_byte_of_string s ++ [x00].

Definition put_u16 (n : N) : list byte := [byte_of_N n; byte_of_N (n / 256)].

Definition put_chunk (cid : N) (payload : list byte) : list byte :=
  put_u32 cid ++ put_u32 (N.of_nat (length payload)) ++ payload.

Lemma u8_byte_of_N (n : N) : u8 (byte_of_N n) = (n mod 256)%N.
Proof.
  unfold u8, byte_of_N. destruct (Byte.of_N (n mod 256)) as [b|] eqn:Hb; simpl.
  - by apply Byte.to_of_N.
  - apply Byte.of_N_None_iff in Hb. pose proof (N.mod_upper_bound n 256). lia.
Qed.

Lemma remaining_advance (pr : PackedReader) (bs rest : list byte) :
  remaining pr = bs ++ rest -> remaining (advance pr (length bs)) = rest.
Proof.
  unfold remaining, advance. simpl. intros Hr.
  by rewrite <- drop_drop, Hr, drop_app_length.
Qed.

Lemma get_I_put_u32 (pr : PackedReader) (n : N) (rest : list byte) :
  (n < 2 ^ 32)%N -> remaining pr = put_u32 n ++ rest ->
  get_I pr = Ok (n, advance pr 4) /\ remaining (advance pr 4) = rest.
Proof.
  intros Hn Hr. split; [|by apply (remaining_advance pr (put_u32 n))].
  unfold get_I. rewrite Hr. simpl. do 2 f_equal.
  unfold u32. rewrite !u8_byte_of_N.
  change (2 ^ 32)%N with 4294967296%N in Hn.
  pose proof (N.div_mod n 256). pose proof (N.mod_upper_bound n 256).
  pose proof (N.div_mod (n / 256) 256). pose proof (N.mod_upper_bound (n / 256) 256).
  pose proof (N.div_mod (n / 256 / 256) 256).
  pose proof (N.mod_upper_bound (n / 256 / 256) 256).
  replace (n / 65536)%N with (n / 256 / 256)%N by (by rewrite N.Div0.div_div).
  replace (n / 16777216)%N with (n / 256 / 256 / 256)%N
    by (by rewrite !N.Div0.div_div).
  assert (n / 256 / 256 / 256 < 256)%N.
  { apply N.Div0.div_lt_upper_bound. apply N.Div0.div_lt_upper_bound.
    apply N.Div0.div_lt_upper_bound. lia. }
  rewrite (N.mod_small (n / 256 / 256 / 256) 256) by done.
  pose proof (N.div_mod (n / 256 / 256) 256). lia.
Qed.

Lemma until_null_app (s rest : list byte) :
  x00 ∉ s -> until_null (s ++ x00 :: rest) = Some s.
Proof.
  induction s as [|b s IH]; simpl; intros Hs.
  - done.
  - rewrite decide_False by (intros ->; apply Hs; left).
    rewrite IH; [done|]. intros ?. apply Hs. by right.
Qed.

Lemma gets_put_str (pr : PackedReader) (s : string) (rest : list byte) :
  x00 ∉ list_byte_of_string s -> remaining pr = put_str s ++ rest ->
  gets pr = Ok (s, advance pr (length (put_str s))) /\
  remaining (advance pr (length (put_str s))) = rest.
Proof.
  intros Hs Hr. split; [|by apply (remaining_advance pr (put_str s))].
  unfold gets, put_str in *. rewrite Hr, <- app_assoc. simpl.
  rewrite until_null_app by done. rewrite string_of_list_byte_of_string.
  by rewrite length_app.
Qed.

Lemma length_remaining_advance (pr : PackedReader) (n : nat) :
  length (remaining (advance pr n)) = length (remaining pr) - n.
Proof. unfold remaining, advance. simpl. rewrite !length_drop. lia. Qed.

Lemma advance_add (pr : PackedReader) (a b : nat) :
  advance (advance pr a) b = advance pr (a + b).
Proof. unfold advance. simpl. by rewrite Nat.add_assoc. Qed.

Lemma get_I_enough (pr : PackedReader) :
  4 <= length (remaining pr) -> exists x, get_I pr = Ok (x, advance pr 4).
Proof.
  unfold get_I. destruct (remaining pr) as [|b0 [|b1 [|b2 [|b3 ?]]]]; simpl; try lia.
  eauto.
Qed.

Lemma get_f_enough `{Float F} (pr : PackedReader) :
  4 <= length (remaining pr) -> exists x, get_f pr = Ok (x, advance pr 4).
Proof.
  intros Hlen. unfold get_f. destruct (get_I_enough pr Hlen) as [x ->]. simpl. eauto.
Qed.

(** Reads of a fixed width succeed on a buffer that is long enough. *)
Lemma get_n_enough {A : Type} (get : PackedReader -> result (A * PackedReader)) (w : nat) :
  (forall pr, w <= length (remaining pr) -> exists x, get pr = Ok (x, advance pr w)) ->
  forall n pr, n * w <= length (remaining pr) ->
    exists xs, get_n get n pr = Ok (xs, advance pr (n * w)) /\ length xs = n.
Proof.
  intros Hget. induction n as [|n IH]; intros pr Hlen; simpl.
  - exists []. split; [|done]. unfold advance. rewrite Nat.add_0_r. by destruct pr.
  - simpl in Hlen. destruct (Hget pr) as [x ->]; [lia|]. simpl.
    destruct (IH (advance pr w)) as (xs & -> & Hxs).
    { rewrite length_remaining_advance. lia. }
    simpl. exists (x :: xs). rewrite advance_add. split; [done|]. simpl. by rewrite Hxs.
Qed.



End Codec.

(** ** The motion-container index: [skls_browser.py] *)

Module Skls.

Import Codec.

Section Index.

(** [xray_motions._skip_motion_rest(data, offs)] is not among the sources: the
    skip-length calculator is a parameter here.  It is given the view that
    starts right after the clip's name and the offset 0. *)
Variable _skip_motion_rest : list byte -> nat -> result nat.

(** [self.animations]: name -> (file_offset, frames_count). *)
Definition animations : Type := gmap string (nat * Z).

(** The body of [for _ in range(animations_count)], lines 71-81. *)
Fixpoint index_loop (count : nat) (pr : PackedReader) (anims : animations)
  : result (PackedReader * animations) :=
  match count with
  | 0 => Ok (pr, anims)
  | S count' =>
      let offset_ := offset pr in
      let* (name, pr) := gets pr in
      let offset2 := offset pr in
      let* (start_frame, end_frame, pr) := get_II pr in
      let anims := <[name := (offset_, (Z.of_N end_frame - Z.of_N start_frame)%Z)]> anims in
      let pr := set_offset pr offset2 in
      let* n := _skip_motion_rest (getv pr) 0 in
      let pr := skip pr n in
      index_loop count' pr anims
  end.

Definition _index_animations (pr : PackedReader) (anims : animations)
  : result (PackedReader * animations) :=
  let* (animations_count, pr) := get_I pr in
  index_loop (N.to_nat animations_count) pr anims.

(** [SklsFile.__init__] on the bytes of the file. *)
Definition SklsFile (blob : list byte) : result (PackedReader * animations) :=
  _index_animations {| data := blob; offs := 0 |} ∅.

(** *** Well-formed containers *)

(** A clip as it lies in the file: its name, the frame range of its header
    and the bytes that follow the frame range. *)
Record clip := { c_name : string; c_start : N; c_end : N; c_rest : list byte }.

(** What follows the name: the part the skip-length calculator measures. *)
Definition clip_tail (c : clip) : list byte :=
  put_u32 (c_start c) ++ put_u32 (c_end c) ++ c_rest c.

Definition clip_bytes (c : clip) : list byte := put_str (c_name c) ++ clip_tail c.

Definition clips_bytes (cs : list clip) : list byte := cs ≫= clip_bytes.

Definition container (cs : list clip) : list byte :=
  put_u32 (N.of_nat (length cs)) ++ clips_bytes cs.

(** The offset of the first byte of the name of the [i]-th clip. *)
Definition clip_offset (cs : list clip) (i : nat) : nat :=
  4 + length (clips_bytes (take i cs)).

Definition clip_ok (c : clip) : Prop :=
(x00 ∉ list_byte_of_string (c_name c)) /\
  (c_start c < 2 ^ 32)%N /\ (c_end c < 2 ^ 32)%N /\
  forall rest, _skip_motion_rest (clip_tail c ++ rest) 0 = Ok (length (clip_tail c)).

Definition well_formed (cs : list clip) : Prop :=
  (N.of_nat (length cs) < 2 ^ 32)%N /\ Forall clip_ok cs.

(** The index the loop builds, read off the list of clips. *)
Fixpoint index_of (off : nat) (cs : list clip) (anims : animations) : animations :=
  match cs with
  | [] => anims
  | c :: cs' =>
      index_of (off + length (clip_bytes c)) cs'
        (<[c_name c := (off, (Z.of_N (c_end c) - Z.of_N (c_start c))%Z)]> anims)
  end.

Lemma index_loop_clips (cs : list clip) : forall pr anims rest,
  Forall clip_ok cs ->
  remaining pr = clips_bytes cs ++ rest ->
  index_loop (length cs) pr anims
  = Ok (advance pr (length (clips_bytes cs)), index_of (offs pr) cs anims).
Proof.
  induction cs as [|c cs IH]; intros pr anims rest Hok Hr; simpl.
  - unfold advance. rewrite Nat.add_0_r. by destruct pr.
  - apply Forall_cons in Hok as [(Hname & Hs & He & Hskip) Hok].
    unfold clips_bytes in Hr. rewrite bind_cons in Hr.
    unfold clip_bytes at 1, clip_tail in Hr. rewrite <- !app_assoc in Hr.
    destruct (gets_put_str pr (c_name c) _ Hname Hr) as [-> Hr1]. cbn [rbind].
    set (pr1 := advance pr (length (put_str (c_name c)))) in *.
    destruct (get_I_put_u32 pr1 (c_start c) _ Hs Hr1) as [Hg1 Hr2].
    destruct (get_I_put_u32 (advance pr1 4) (c_end c) _ He Hr2) as [Hg2 Hr3].
    unfold get_II. rewrite Hg1. cbn [rbind]. rewrite Hg2. cbn [rbind].
    replace (set_offset (advance (advance pr1 4) 4) (offset pr1)) with pr1
      by (by unfold set_offset, advance, offset).
    unfold getv. rewrite Hr1.
    assert (put_u32 (c_start c) ++ put_u32 (c_end c) ++ c_rest c ++ (cs ≫= clip_bytes) ++ rest
            = clip_tail c ++ ((cs ≫= clip_bytes) ++ rest)) as ->.
    { unfold clip_tail. by rewrite <- !app_assoc. }
    rewrite Hskip. cbn [rbind]. unfold skip.
    assert (remaining (advance pr1 (length (clip_tail c))) = clips_bytes cs ++ rest) as Hr4.
    { apply (remaining_advance pr1 (clip_tail c)). rewrite Hr1. unfold clip_tail.
      by rewrite <- !app_assoc. }
    rewrite (IH _ _ rest Hok Hr4). unfold pr1. rewrite !advance_add.
    do 2 f_equal.
    + f_equal. unfold clip_bytes. by rewrite !length_app, Nat.add_assoc.
    + simpl. unfold clip_bytes. by rewrite length_app.
Qed.

Lemma index_of_other (cs : list clip) : forall off anims n,
  (forall c, c ∈ cs -> c_name c <> n) -> index_of off cs anims !! n = anims !! n.
Proof.
  induction cs as [|c cs IH]; intros off anims n Hn; simpl; [done|].
  rewrite IH by (intros c' Hc'; apply Hn; by right).
  unfold animations. rewrite lookup_insert_ne; [done|]. apply Hn. left.
Qed.

Lemma index_of_lookup (cs : list clip) : forall off anims i c,
  cs !! i = Some c ->
  (forall j c', i < j -> cs !! j = Some c' -> c_name c' <> c_name c) ->
  index_of off cs anims !! c_name c
  = Some (off + length (clips_bytes (take i cs)),
          (Z.of_N (c_end c) - Z.of_N (c_start c))%Z).
Proof.
  induction cs as [|c0 cs IH]; intros off anims i c Hi Hlast; [by rewrite lookup_nil in Hi|].
  destruct i as [|i]; simpl in Hi.
  - injection Hi as ->. simpl. rewrite index_of_other.
    + unfold animations. rewrite lookup_insert_eq. by rewrite Nat.add_0_r.
    + intros c' Hc'. apply list_elem_of_lookup in Hc' as [j Hj].
      apply (Hlast (S j)); [lia|done].
  - simpl. rewrite (IH _ _ i c Hi).
    + by rewrite length_app, Nat.add_assoc.
    + intros j c' Hj Hc'. apply (Hlast (S j)); [lia|done].
Qed.

Lemma index_of_dom (cs : list clip) : forall off anims n,
  is_Some (index_of off cs anims !! n) <->
  is_Some (anims !! n) \/ exists c, c ∈ cs /\ c_name c = n.
Proof.
  induction cs as [|c cs IH]; intros off anims n; simpl.
  - split; [by left|]. intros [?|(c & Hc & _)]; [done|]. by apply elem_of_nil in Hc.
  - rewrite IH. unfold animations. rewrite lookup_insert_is_Some. split.
    + intros [[Hn|[_ ?]]|(c' & Hc' & Hn)].
      * right. exists c. split; [left|done].
      * by left.
      * right. exists c'. split; [by right|done].
    + intros [?|(c' & Hc' & Hn)].
      * left. destruct (decide (c_name c = n)); [by left|by right].
      * apply elem_of_cons in Hc' as [->|Hc']; [by left; left|].
        right. by exists c'.
Qed.

(** C5.  Indexing a well-formed container (the count, then for every clip its
    null-terminated name, its frame range and the bytes the skip-length
    calculator measures exactly) succeeds and leaves the cursor at the end of
    the buffer; the index holds, under the name of every clip that no later
    clip shares its name with, the offset of the first byte of that name and
    [end_frame - start_frame] as recorded in the clip's header; and it has an
    entry for the names of the clips only.  The bytes after the frame range
    matter through their length alone. *)
Theorem index_holds_frame_counts (cs : list clip) :
  well_formed cs ->
  exists pr idx,
    SklsFile (container cs) = Ok (pr, idx) /\
    data pr = container cs /\ offs pr = length (container cs) /\
    (forall i c, cs !! i = Some c ->
       (forall j c', i < j -> cs !! j = Some c' -> c_name c' <> c_name c) ->
       idx !! c_name c
       = Some (clip_offset cs i, (Z.of_N (c_end c) - Z.of_N (c_start c))%Z)) /\
    (forall n, is_Some (idx !! n) <-> exists c, c ∈ cs /\ c_name c = n).
Proof.
  intros [Hlen Hok].
  set (pr0 := {| data := container cs; offs := 0 |}).
  assert (remaining pr0 = put_u32 (N.of_nat (length cs)) ++ clips_bytes cs) as Hr0 by done.
  destruct (get_I_put_u32 pr0 _ _ Hlen Hr0) as [Hcount Hr1].
  exists (advance (advance pr0 4) (length (clips_bytes cs))), (index_of 4 cs ∅).
  split_and!.
  - unfold SklsFile, _index_animations. fold pr0. rewrite Hcount. cbn [rbind].
    rewrite Nat2N.id. apply (index_loop_clips cs (advance pr0 4) ∅ []); [done|].
    by rewrite app_nil_r.
  - done.
  - reflexivity.
  - intros i c Hi Hlast. by apply index_of_lookup.
  - intros n. rewrite index_of_dom. unfold animations. rewrite lookup_empty.
    split; [intros [[? [=]]|?]; done | by right].
Qed.

(** *** The index on any buffer *)

(** A successful read moves the cursor forward inside the same buffer. *)
Lemma gets_Ok_inv (pr pr' : PackedReader) (s : string) :
  gets pr = Ok (s, pr') ->
  data pr' = data pr /\ offs pr < offs pr' /\ offs pr < length (data pr).
Proof.
  unfold gets. destruct (until_null (remaining pr)) as [bs|] eqn:Hu; [|done].
  intros [= <- <-]. cbn [advance data offs]. split_and!; [done|lia|].
  unfold remaining in Hu. destruct (decide (offs pr < length (data pr))) as [?|Hge]; [done|].
  rewrite drop_ge in Hu by lia. done.
Qed.

Lemma get_I_Ok_inv (pr pr' : PackedReader) (n : N) :
  get_I pr = Ok (n, pr') -> data pr' = data pr /\ offs pr' = offs pr + 4.
Proof.
  unfold get_I. destruct (remaining pr) as [|b0 [|b1 [|b2 [|b3 ?]]]]; try done.
  by intros [= <- <-].
Qed.

Lemma get_II_Ok_inv (pr pr' : PackedReader) (a b : N) :
  get_II pr = Ok (a, b, pr') -> data pr' = data pr /\ offs pr' = offs pr + 8.
Proof.
  unfold get_II. intros Hg. apply rbind_Ok in Hg as ([a' pr1] & Ha & Hg).
  apply rbind_Ok in Hg as ([b' pr2] & Hb & Hg). injection Hg as <- <- <-.
  apply get_I_Ok_inv in Ha as [Hd1 Ho1]. apply get_I_Ok_inv in Hb as [Hd2 Ho2].
  split; [congruence|lia].
Qed.

(** The entry [(off, fc)] of the name [n] describes a clip of the buffer
    [blob]: at [off] lies the name [n], followed by a frame range of length
    [fc]. *)
Definition points_at_clip (blob : list byte) (n : string) (off : nat) (fc : Z) : Prop :=
  off < length blob /\
  exists pr1 s e pr2,
    gets {| data := blob; offs := off |} = Ok (n, pr1) /\
    get_II pr1 = Ok (s, e, pr2) /\ fc = (Z.of_N e - Z.of_N s)%Z.

Lemma index_loop_points (count : nat) : forall pr anims pr' idx,
  index_loop count pr anims = Ok (pr', idx) ->
  data pr' = data pr /\
  size idx <= size anims + count /\
  forall n off fc, idx !! n = Some (off, fc) ->
    anims !! n = Some (off, fc) \/
    (offs pr <= off /\ points_at_clip (data pr) n off fc).
Proof.
  induction count as [|count IH]; intros pr anims pr' idx; cbn [index_loop].
  - intros [= <- <-]. split_and!; [done|lia|auto].
  - intros Hrun. apply rbind_Ok in Hrun as ([name pr1] & Hname & Hrun).
    apply rbind_Ok in Hrun as ([[s e] pr2] & Hrange & Hrun).
    apply rbind_Ok in Hrun as (k & _ & Hrun).
    apply IH in Hrun as (Hdata & Hsize & Hent).
    pose proof (gets_Ok_inv _ _ _ Hname) as (Hd1 & Ho1 & Hin).
    pose proof (get_II_Ok_inv _ _ _ _ Hrange) as (Hd2 & Ho2).
    unfold skip, set_offset, offset, advance in *. cbn [data offs] in *.
    split_and!.
    + congruence.
    + unfold animations in *.
      pose proof (map_size_insert name (offs pr, (Z.of_N e - Z.of_N s)%Z) anims) as Hins.
      destruct (anims !! name); unfold id in Hins; lia.
    + intros n off fc Hn. destruct (Hent n off fc Hn) as [Hold|[Hoff Hclip]].
      * unfold animations in *. apply lookup_insert_Some in Hold as [[<- [= <- <-]]|[_ ?]];
          [right|by left].
        split; [done|]. split; [done|]. exists pr1, s, e, pr2. by destruct pr.
      * right. split; [lia|]. by rewrite <- Hd1, <- Hd2.
Qed.

(** X1.  [_index_animations] (lines 68-81) on the bytes of any file and
    with any skip-length calculator: when it returns, the index has at most as
    many entries as the count at the head of the file declares, and every
    entry [name: (offset, frames)] points at a clip of the file: the offset
    lies inside the file, after the count; setting the reader to it, as the
    browser does before it imports the motion, and reading a string gives
    back [name], and the two words that follow are a frame range with
    [end - start = frames]. *)
Theorem index_entries_point_at_clips (blob : list byte) (pr : PackedReader)
    (idx : animations) :
  SklsFile blob = Ok (pr, idx) ->
  data pr = blob /\
  (exists count pr0,
     get_I {| data := blob; offs := 0 |} = Ok (count, pr0) /\ size idx <= N.to_nat count) /\
  forall n off fc, idx !! n = Some (off, fc) ->
    4 <= off < length blob /\
    exists pr1 s e pr2,
      gets (set_offset pr off) = Ok (n, pr1) /\ get_II pr1 = Ok (s, e, pr2) /\
      fc = (Z.of_N e - Z.of_N s)%Z.
Proof.
  unfold SklsFile, _index_animations. intros Hrun.
  apply rbind_Ok in Hrun as ([count pr0] & Hcount & Hrun).
  pose proof (get_I_Ok_inv _ _ _ Hcount) as [Hd0 Ho0]. cbn [data offs] in Hd0, Ho0.
  apply index_loop_points in Hrun as (Hdata & Hsize & Hent).
  split_and!.
  - congruence.
  - exists count, pr0. split; [done|]. unfold animations in *.
    rewrite map_size_empty in Hsize. lia.
  - intros n off fc Hn. destruct (Hent n off fc Hn) as [Hold|[Hoff [Hlt Hclip]]].
    { unfold animations in *. by rewrite lookup_empty in Hold. }
    rewrite Hd0 in Hlt, Hclip. split; [lia|].
    unfold set_offset. by rewrite Hdata, Hd0.
Qed.

(** *** The declared count *)

Lemma index_loop_add (a b : nat) : forall pr anims,
  index_loop (a + b) pr anims
  = let* (pr', anims') := index_loop a pr anims in index_loop b pr' anims'.
Proof.
  induction a as [|a IH]; intros pr anims; [done|]. cbn [Nat.add index_loop].
  destruct (gets pr) as [[name pr1]|?]; cbn [rbind]; [|done].
  destruct (get_II pr1) as [[[s e] pr2]|?]; cbn [rbind]; [|done].
  destruct (_skip_motion_rest _ _) as [k|?]; cbn [rbind]; [|done]. apply IH.
Qed.

(** At the end of the buffer there is no name to read. *)
Lemma index_loop_at_end (k : nat) (pr : PackedReader) (anims : animations) :
  remaining pr = [] -> index_loop (S k) pr anims = Raise TruncatedData.
Proof. intros Hr. cbn [index_loop]. unfold gets. by rewrite Hr. Qed.

(** X2.  [_index_animations] (lines 68-81) trusts the count at the head of
    the file.  Bytes that follow the declared clips are never looked at: the
    index is the one of the container without them, and the cursor stops
    where the declared clips end.  A count greater than the number of clips
    the file holds makes the indexing fail with the reader's error for a
    missing string terminator, so no index is kept. *)
Theorem declared_count_decides (cs : list clip) :
  well_formed cs ->
  (forall junk, exists pr pr' idx,
     SklsFile (container cs) = Ok (pr, idx) /\
     SklsFile (container cs ++ junk) = Ok (pr', idx) /\
     offs pr' = length (container cs)) /\
  (forall k, 0 < k -> (N.of_nat (length cs + k) < 2 ^ 32)%N ->
     SklsFile (put_u32 (N.of_nat (length cs + k)) ++ clips_bytes cs)
     = Raise TruncatedData).
Proof.
  intros [Hlen Hok]. split.
  - intros junk.
    set (pr0 := {| data := container cs; offs := 0 |}).
    set (pr0' := {| data := container cs ++ junk; offs := 0 |}).
    assert (remaining pr0 = put_u32 (N.of_nat (length cs)) ++ clips_bytes cs ++ [])
      as Hr0 by (by rewrite app_nil_r).
    assert (remaining pr0' = put_u32 (N.of_nat (length cs)) ++ clips_bytes cs ++ junk)
      as Hr0'.
    { change (remaining pr0') with ((put_u32 (N.of_nat (length cs)) ++ clips_bytes cs) ++ junk).
      by rewrite <- app_assoc. }
    destruct (get_I_put_u32 pr0 _ _ Hlen Hr0) as [Hcount Hr1].
    destruct (get_I_put_u32 pr0' _ _ Hlen Hr0') as [Hcount' Hr1'].
    exists (advance (advance pr0 4) (length (clips_bytes cs))),
           (advance (advance pr0' 4) (length (clips_bytes cs))), (index_of 4 cs ∅).
    unfold SklsFile, _index_animations. fold pr0 pr0'. rewrite Hcount, Hcount'.
    cbn [rbind]. rewrite Nat2N.id. split_and!.
    + by apply (index_loop_clips cs (advance pr0 4) ∅ []).
    + by apply (index_loop_clips cs (advance pr0' 4) ∅ junk).
    + cbn [advance offs pr0']. unfold container. by rewrite length_app.
  - intros k Hk Hbound.
    set (pr0 := {| data := put_u32 (N.of_nat (length cs + k)) ++ clips_bytes cs; offs := 0 |}).
    assert (remaining pr0 = put_u32 (N.of_nat (length cs + k)) ++ clips_bytes cs ++ [])
      as Hr0 by (by rewrite app_nil_r).
    destruct (get_I_put_u32 pr0 _ _ Hbound Hr0) as [Hcount Hr1].
    unfold SklsFile, _index_animations. fold pr0. rewrite Hcount. cbn [rbind].
    rewrite Nat2N.id, index_loop_add.
    rewrite (index_loop_clips cs (advance pr0 4) ∅ [] Hok Hr1). cbn [rbind].
    destruct k as [|k]; [lia|]. apply index_loop_at_end.
    apply (remaining_advance (advance pr0 4) (clips_bytes cs) []). exact Hr1.
Qed.

(** *** The browser: [OpBrowseSklsFile.execute] (lines 93-106) *)

(** [d[k] = v] on a dictionary with the order of its keys: a Python
    dictionary iterates in the order in which its keys were first inserted,
    and an assignment to a key it holds keeps the place of the key. *)
Fixpoint dict_set {V : Type} (k : string) (v : V) (d : list (string * V))
  : list (string * V) :=
  match d with
  | [] => [(k, v)]
  | (k', v') :: d' =>
      if decide (k' = k) then (k, v) :: d' else (k', v') :: dict_set k v d'
  end.

(** [_index_animations] once more, on [self.animations] with the order of its
    keys, which [execute] iterates over. *)
Fixpoint index_loop_items (count : nat) (pr : PackedReader) (anims : list (string * (nat * Z)))
  : result (PackedReader * list (string * (nat * Z))) :=
  match count with
  | 0 => Ok (pr, anims)
  | S count' =>
      let offset_ := offset pr in
      let* (name, pr) := gets pr in
      let offset2 := offset pr in
      let* (start_frame, end_frame, pr) := get_II pr in
      let anims :=
        dict_set name (offset_, (Z.of_N end_frame - Z.of_N start_frame)%Z) anims in
      let pr := set_offset pr offset2 in
      let* n := _skip_motion_rest (getv pr) 0 in
      let pr := skip pr n in
      index_loop_items count' pr anims
  end.

Definition SklsFile_items (blob : list byte)
  : result (PackedReader * list (string * (nat * Z))) :=
  let* (animations_count, pr) := get_I {| data := blob; offs := 0 |} in
  index_loop_items (N.to_nat animations_count) pr [].

(** What [self.report] is given. *)
Inductive report : Type :=
  | Loading (filepath : string)
  | Done (count : nat).

(** [newitem.frames = v] (line 104): [frames] is an [IntProperty] of the host
    (line 201), which holds a C integer.  What the host does with a value is
    a parameter: the value the property holds after the assignment, or the
    exception the assignment raises; [default_frames] is what the property of
    a new item holds before. *)
Variable set_frames : Z -> result Z.
Variable default_frames : Z.

(** Lines 101-104: one item per entry of the index, in the order of its keys.
    When the assignment of [frames] raises, the item was added and named. *)
Fixpoint fill_items (entries : list (string * (nat * Z))) (items : list (string * Z))
  : list (string * Z) * result unit :=
  match entries with
  | [] => (items, Ok tt)
  | (name, offset_frames) :: entries' =>
      match set_frames offset_frames.2 with
      | Ok frames => fill_items entries' (items ++ [(name, frames)])
      | Raise e => (items ++ [(name, default_frames)], Raise e)
      end
  end.

(** What [execute] reads and writes: the items of
    [context.object.xray.skls_browser.animations] with their [name] and
    [frames], the class attribute [OpBrowseSklsFile.skls_file], the reports
    and the cursor of the window. *)
Record browser := {
  sk_animations : list (string * Z);
  skls_file : option (PackedReader * list (string * (nat * Z)));
  reports : list report;
  cursor : string }.

(** [execute], on the bytes [blob] of the file at [filepath]; the state is
    returned also when the indexing or an assignment raises, as the operator
    leaves it. *)
Definition execute (filepath : string) (blob : list byte) (b : browser)
  : browser * result unit :=
  let reports1 := reports b ++ [Loading filepath] in
  match SklsFile_items blob with
  | Raise e =>
      ({| sk_animations := []; skls_file := skls_file b; reports := reports1;
          cursor := "WAIT" |}, Raise e)
  | Ok (pr, anims) =>
      let filled := fill_items anims [] in
      ({| sk_animations := filled.1;
          skls_file := Some (pr, anims);
          reports := reports1 ++ [Done (length anims)];
          cursor := match filled.2 with Ok _ => "DEFAULT" | Raise _ => "WAIT" end |},
       filled.2)
  end.

Lemma list_to_map_dict_set {V : Type} (k : string) (v : V) (d : list (string * V)) :
  list_to_map (dict_set k v d) =@{gmap string V} <[k := v]> (list_to_map d).
Proof.
  induction d as [|[k' v'] d IH]; [done|]. cbn [dict_set]. case_decide as Hk.
  - subst k'. rewrite !list_to_map_cons. by rewrite insert_insert_eq.
  - rewrite !list_to_map_cons, IH. by apply insert_insert_ne.
Qed.

Lemma elem_of_dict_set_keys {V : Type} (k n : string) (v : V) (d : list (string * V)) :
  n ∈ (dict_set k v d).*1 <-> n = k \/ n ∈ d.*1.
Proof.
  induction d as [|[k' v'] d IH]; cbn [dict_set].
  - rewrite fmap_cons, elem_of_cons. cbn [fst]. rewrite fmap_nil. done.
  - case_decide as Hk.
    + subst k'. rewrite !fmap_cons, !elem_of_cons. cbn [fst]. tauto.
    + rewrite !fmap_cons, !elem_of_cons, IH. cbn [fst]. tauto.
Qed.

Lemma NoDup_dict_set {V : Type} (k : string) (v : V) (d : list (string * V)) :
  NoDup d.*1 -> NoDup (dict_set k v d).*1.
Proof.
  induction d as [|[k' v'] d IH]; cbn [dict_set].
  - intros _. apply NoDup_singleton.
  - rewrite fmap_cons, NoDup_cons. cbn [fst]. intros [Hk' Hd]. case_decide as Hk.
    + subst k'. rewrite fmap_cons, NoDup_cons. done.
    + rewrite fmap_cons, NoDup_cons. cbn [fst]. split; [|auto].
      rewrite elem_of_dict_set_keys. intros [?|?]; congruence.
Qed.

(** The two embeddings of the loop agree. *)
Lemma index_loop_items_spec (count : nat) : forall pr its,
  NoDup its.*1 ->
  match index_loop_items count pr its with
  | Ok (pr', its') =>
      index_loop count pr (list_to_map its) = Ok (pr', list_to_map its') /\ NoDup its'.*1
  | Raise e => index_loop count pr (list_to_map its) = Raise e
  end.
Proof.
  induction count as [|count IH]; intros pr its Hnd; cbn [index_loop_items index_loop];
    [done|].
  destruct (gets pr) as [[name pr1]|?]; cbn [rbind]; [|done].
  destruct (get_II pr1) as [[[s e] pr2]|?]; cbn [rbind]; [|done].
  destruct (_skip_motion_rest _ _) as [k|?]; cbn [rbind]; [|done].
  unfold animations. rewrite <- list_to_map_dict_set. apply IH. by apply NoDup_dict_set.
Qed.

Lemma fill_items_Ok (entries : list (string * (nat * Z))) : forall items,
  Forall (fun entry => set_frames entry.2.2 = Ok entry.2.2) entries ->
  fill_items entries items
  = (items ++ ((fun entry : string * (nat * Z) => (entry.1, entry.2.2)) <$> entries), Ok tt).
Proof.
  induction entries as [|[name [off fr]] entries IH]; intros items Hall; cbn [fill_items].
  - by rewrite app_nil_r.
  - apply Forall_cons in Hall as [Hfr Hall]. cbn [fst snd] in Hfr |- *. rewrite Hfr.
    rewrite IH by done. by rewrite <- app_assoc.
Qed.

Lemma fill_items_Raise (entries : list (string * (nat * Z))) : forall items,
  Exists (fun entry => exists e, set_frames entry.2.2 = Raise e) entries ->
  exists e, (fill_items entries items).2 = Raise e.
Proof.
  induction entries as [|[name [off fr]] entries IH]; intros items Hex; cbn [fill_items].
  - by apply Exists_nil in Hex.
  - cbn [fst snd]. destruct (set_frames fr) as [v|e] eqn:Hfr; [|by exists e].
    apply Exists_cons in Hex as [[e He]|Hex]; [cbn [snd] in He; congruence|]. by apply IH.
Qed.

(** The index of a well-formed container, and where its frame counts come
    from. *)
Lemma SklsFile_container (cs : list clip) :
  well_formed cs ->
  SklsFile (container cs)
  = Ok (advance (advance {| data := container cs; offs := 0 |} 4) (length (clips_bytes cs)),
        index_of 4 cs ∅).
Proof.
  intros [Hlen Hok].
  set (pr0 := {| data := container cs; offs := 0 |}).
  assert (remaining pr0 = put_u32 (N.of_nat (length cs)) ++ clips_bytes cs) as Hr0 by done.
  destruct (get_I_put_u32 pr0 _ _ Hlen Hr0) as [Hcount Hr1].
  unfold SklsFile, _index_animations. fold pr0. rewrite Hcount. cbn [rbind].
  rewrite Nat2N.id. apply (index_loop_clips cs (advance pr0 4) ∅ []); [done|].
  by rewrite app_nil_r.
Qed.

Lemma index_of_frames (cs : list clip) : forall off anims n o fr,
  index_of off cs anims !! n = Some (o, fr) ->
  anims !! n = Some (o, fr) \/
  exists c, c ∈ cs /\ fr = (Z.of_N (c_end c) - Z.of_N (c_start c))%Z.
Proof.
  induction cs as [|c cs IH]; intros off anims n o fr; cbn [index_of]; [by left|].
  intros Hn. apply IH in Hn as [Hn|(c' & Hc' & ->)].
  - unfold animations in Hn. apply lookup_insert_Some in Hn as [[_ [= _ <-]]|[_ Hn]].
    + right. exists c. split; [left|done].
    + by left.
  - right. exists c'. split; [by right|done].
Qed.

(** X3.  [OpBrowseSklsFile.execute] (lines 93-106) on the bytes of the
    chosen file.  When the indexing returns and the host's [frames] property
    takes every frame count of the index as it is (it holds a C integer), the
    operator finishes; the animation list is replaced by one item per name of
    the index, no name twice, each with the frame count the index holds for
    it; the new file is the current one; the reports end with the number of
    entries of the index and the cursor is back to its default.  When the
    indexing returns and the property raises on a frame count of the index,
    the operator raises and the cursor is still the waiting one.  When the
    indexing raises, the exception leaves the operator after the list was
    emptied: the list is empty, the cursor is still the waiting one, and the
    file opened before, if any, is still the current one. *)
Theorem browser_lists_index (filepath : string) (blob : list byte) (b : browser) :
  (forall pr idx, SklsFile blob = Ok (pr, idx) ->
     (forall n off fr, idx !! n = Some (off, fr) -> set_frames fr = Ok fr) ->
     let b' := (execute filepath blob b).1 in
     (execute filepath blob b).2 = Ok tt /\
     NoDup (sk_animations b').*1 /\
     (forall n fr, (n, fr) ∈ sk_animations b' <-> exists off, idx !! n = Some (off, fr)) /\
     length (sk_animations b') = size idx /\
     reports b' = reports b ++ [Loading filepath; Done (size idx)] /\
     cursor b' = "DEFAULT" /\
     exists its, skls_file b' = Some (pr, its) /\ list_to_map its = idx) /\
  (forall pr idx n off fr e, SklsFile blob = Ok (pr, idx) ->
     idx !! n = Some (off, fr) -> set_frames fr = Raise e ->
     (exists e', (execute filepath blob b).2 = Raise e') /\
     cursor (execute filepath blob b).1 = "WAIT") /\
  (forall e, SklsFile blob = Raise e ->
     execute filepath blob b
     = ({| sk_animations := []; skls_file := skls_file b;
           reports := reports b ++ [Loading filepath]; cursor := "WAIT" |}, Raise e)).
Proof.
  assert (Hagree : match SklsFile_items blob with
                   | Ok (pr', its') =>
                       SklsFile blob = Ok (pr', list_to_map its') /\ NoDup its'.*1
                   | Raise e => SklsFile blob = Raise e
                   end).
  { unfold SklsFile_items, SklsFile, _index_animations.
    destruct (get_I _) as [[count pr0]|?]; cbn [rbind]; [|done].
    apply (index_loop_items_spec (N.to_nat count) pr0 []). constructor. }
  unfold execute. destruct (SklsFile_items blob) as [[pr' its]|e'].
  - destruct Hagree as [Hrun Hnd]. split_and!; [| |intros e He; congruence].
    + intros pr idx Hidx Hholds. rewrite Hrun in Hidx. injection Hidx as <- <-.
      rewrite fill_items_Ok.
      2:{ apply Forall_forall. intros [n [off fr]] Hin. cbn [fst snd].
          apply (Hholds n off). by apply elem_of_list_to_map. }
      cbn [fst snd sk_animations skls_file reports cursor]. rewrite app_nil_l.
      assert (Hkeys : ((fun entry : string * (nat * Z) => (entry.1, entry.2.2)) <$> its).*1
                      = its.*1).
      { rewrite <- list_fmap_compose. by apply list_fmap_ext. }
      split_and!.
      * done.
      * by rewrite Hkeys.
      * intros n fr. rewrite list_elem_of_fmap. split.
        -- intros ([n' [off fr']] & [= -> ->] & Hin). exists off.
           by apply elem_of_list_to_map.
        -- intros [off Hn]. apply elem_of_list_to_map in Hn; [|done].
           by exists (n, (off, fr)).
      * rewrite length_fmap. unfold animations. by rewrite map_size_list_to_map.
      * unfold animations. rewrite map_size_list_to_map by done.
        by rewrite <- app_assoc.
      * done.
      * by exists its.
    + intros pr idx n off fr e Hidx Hn Hfr. rewrite Hrun in Hidx. injection Hidx as <- <-.
      destruct (fill_items_Raise its []) as [e1 He1].
      { apply Exists_exists. exists (n, (off, fr)). split; [|by exists e].
        by apply elem_of_list_to_map. }
      cbn [fst snd cursor]. rewrite He1. split; [by exists e1|done].
  - split_and!; [intros pr idx Hidx; congruence|intros pr idx n off fr e Hidx; congruence|].
    intros e He. congruence.
Qed.

End Index.

(** *** A container with the clips "walk", "run" and "idle" *)

(** A stand-in calculator for a payload that announces its own length in the
    byte after the frame range. *)
Definition length_prefixed_skip (data : list byte) (offs : nat) : result nat :=
  match drop (offs + 8) data with
  | b :: _ => Ok (9 + N.to_nat (Byte.to_N b))
  | [] => Raise TruncatedData
  end.

Definition walk_run_idle : list clip :=
  [ {| c_name := "walk"; c_start := 0; c_end := 30; c_rest := [x02; x11; x22] |};
    {| c_name := "run"; c_start := 10; c_end := 25; c_rest := [x00] |};
    {| c_name := "idle"; c_start := 0; c_end := 100; c_rest := [x01; xff] |} ].

Example run_frame_count :
  (fun r => (r.2 !! "walk", r.2 !! "run", r.2 !! "idle", r.2 !! "jump")) <$>
    (match SklsFile length_prefixed_skip (container walk_run_idle) with
     | Ok r => Some r | Raise _ => None end)
  = Some (Some (4, 30%Z), Some (20, 15%Z), Some (33, 100%Z), None).
Proof. vm_compute. reflexivity. Qed.

Lemma index_holds_frame_counts_witness :
  exists pr idx,
    SklsFile length_prefixed_skip (container walk_run_idle) = Ok (pr, idx) /\
    idx !! "run" = Some (clip_offset walk_run_idle 1, 15%Z).
Proof.
  destruct (index_holds_frame_counts length_prefixed_skip walk_run_idle)
    as (pr & idx & Hrun & _ & _ & Hidx & _).
  - split; [reflexivity|].
    repeat (apply Forall_cons; split;
            [split_and!; [apply (bool_decide_unpack _); vm_compute; exact I
                         | reflexivity | reflexivity | intros rest; reflexivity]|]).
    apply Forall_nil_2.
  - exists pr, idx. split; [exact Hrun|].
    apply (Hidx 1 {| c_name := "run"; c_start := 10; c_end := 25; c_rest := [x00] |});
      [reflexivity|].
    intros [|[|[|j]]] c' Hj Hc'; try lia; simpl in Hc'; [|discriminate].
    injection Hc' as <-. discriminate.
Defined.

(** *** The index and the browser on the sample container *)

Lemma walk_run_idle_well_formed : well_formed length_prefixed_skip walk_run_idle.
Proof.
  split; [reflexivity|].
  repeat (apply Forall_cons; split;
          [split_and!; [apply (bool_decide_unpack _); vm_compute; exact I
                       | reflexivity | reflexivity | intros rest; reflexivity]|]).
  apply Forall_nil_2.
Qed.

Lemma walk_run_idle_index :
  exists pr idx,
    SklsFile length_prefixed_skip (container walk_run_idle) = Ok (pr, idx) /\
    idx !! "run" = Some (20, 15%Z).
Proof. vm_compute. eexists _, _. split; reflexivity. Qed.

Lemma index_entries_point_at_clips_witness :
  exists pr idx,
    SklsFile length_prefixed_skip (container walk_run_idle) = Ok (pr, idx) /\
    4 <= 20 < length (container walk_run_idle).
Proof.
  destruct walk_run_idle_index as (pr & idx & Hrun & Hidx).
  destruct (index_entries_point_at_clips length_prefixed_skip _ pr idx Hrun)
    as (_ & _ & Hent).
  destruct (Hent "run" 20 15%Z Hidx) as [Hin _].
  exists pr, idx. split; [exact Hrun | exact Hin].
Defined.

Lemma declared_count_decides_witness :
  SklsFile length_prefixed_skip
    (put_u32 (N.of_nat (length walk_run_idle + 1)) ++ clips_bytes walk_run_idle)
  = Raise TruncatedData.
Proof.
  apply (proj2 (declared_count_decides length_prefixed_skip walk_run_idle
                  walk_run_idle_well_formed)).
  - lia.
  - reflexivity.
Defined.

(** A host whose [frames] property takes the integers of 32 bits and raises
    on the others. *)
Definition int_property (v : Z) : result Z :=
  if ((- 2 ^ 31 <=? v) && (v <? 2 ^ 31))%Z then Ok v else Raise ValueError.

(** A browser that shows the clips of a file opened before. *)
Definition used_browser : browser :=
  {| sk_animations := [("jump", 7%Z)]; skls_file := None;
     reports := []; cursor := "DEFAULT" |}.

Example browser_after_open :
  (execute length_prefixed_skip int_property 0 "a.skls" (container walk_run_idle)
     used_browser).1.(sk_animations)
  = [("walk", 30%Z); ("run", 15%Z); ("idle", 100%Z)].
Proof. vm_compute. reflexivity. Qed.

Example browser_after_failure :
  (fun r => (sk_animations r.1, cursor r.1, r.2))
    (execute length_prefixed_skip int_property 0 "b.skls" [x03; x00; x00; x00; "w"%byte]
       used_browser)
  = ([], "WAIT", Raise TruncatedData).
Proof. vm_compute. reflexivity. Qed.

(** A clip whose frame range ends at 0xFFFFFFFF: the index holds a frame count
    that is no integer of 32 bits. *)
Definition long_clip : list clip :=
  [ {| c_name := "walk"; c_start := 0; c_end := 30; c_rest := [x00] |};
    {| c_name := "fall"; c_start := 0; c_end := 0xFFFFFFFF; c_rest := [x00] |} ].

Example browser_after_overflow :
  (fun r => (sk_animations r.1, cursor r.1, r.2))
    (execute length_prefixed_skip int_property 0 "c.skls" (container long_clip) used_browser)
  = ([("walk", 30%Z); ("fall", 0%Z)], "WAIT", Raise ValueError).
Proof. vm_compute. reflexivity. Qed.

Lemma browser_lists_index_witness :
  (execute length_prefixed_skip int_property 0 "a.skls" (container walk_run_idle)
     used_browser).2 = Ok tt /\
  cursor (execute length_prefixed_skip int_property 0 "a.skls" (container walk_run_idle)
            used_browser).1 = "DEFAULT".
Proof.
  pose proof (SklsFile_container length_prefixed_skip _ walk_run_idle_well_formed) as Hrun.
  destruct (proj1 (browser_lists_index length_prefixed_skip int_property 0 "a.skls"
                     (container walk_run_idle) used_browser) _ _ Hrun)
    as (Hok & _ & _ & _ & _ & Hcursor & _).
  - intros n off fr Hn.
    apply index_of_frames in Hn as [Hn|(c & Hc & ->)];
      [unfold animations in Hn; by rewrite lookup_empty in Hn|].
    repeat (apply elem_of_cons in Hc as [->|Hc]; [reflexivity|]).
    by apply elem_of_nil in Hc.
  - split; [exact Hok|exact Hcursor].
Defined.

End Skls.

(** ** The object importer: [fmt_object_imp.py] *)

Module Obj.

Import Codec.

(** The chunk tags of [fmt_object.Chunks], which is not among the sources: the
    tables are parameters of the development. *)
Record MeshChunks := {
  Mesh_VERSION : N; Mesh_VERTS : N; Mesh_FACES : N; Mesh_MESHNAME : N; Mesh_SG : N;
  Mesh_SFACE : N; Mesh_VMREFS : N; Mesh_VMAPS2 : N; Mesh_FLAGS : N; Mesh_BBOX : N;
  Mesh_OPTIONS : N }.

Record BoneChunks := {
  Bone_VERSION : N; Bone_DEF : N; Bone_BIND_POSE : N; Bone_MATERIAL : N; Bone_SHAPE : N;
  Bone_IK_JOINT : N; Bone_MASS_PARAMS : N; Bone_IK_FLAGS : N; Bone_BREAK_PARAMS : N;
  Bone_FRICTION : N }.

Record ObjectChunks := {
  Object_MAIN : N; Object_VERSION : N; Object_MESHES : N; Object_SURFACES2 : N;
  Object_BONES1 : N; Object_TRANSFORM : N; Object_FLAGS : N; Object_USERDATA : N;
  Object_LOD_REF : N; Object_REVISION : N; Object_PARTITIONS1 : N;
  Object_MOTION_REFS : N }.

(** What [warn_imknown_chunk] prints. *)
Inductive message : Type :=
  | unknown_chunk (cid : N) (location : string).

(** [ImportContext]: [bpy] is the host module or [None], [__images] the
    cache of the images loaded through this context; an image is identified by
    its place in the host's collection of images. *)
Record ImportContext := {
  file_path : string;
  object_name : string;
  gamedata_folder : string;
  has_bpy : bool;
  images : gmap string nat }.

(** [mathutils] matrices, as far as the importer uses them. *)
Class Matrix (F M : Type) := {
  mat_identity : M;                       (* Matrix.Identity(4) *)
  mat_mul : M -> M -> M;                  (* a * b *)
  mat_translation : F * F * F -> M;       (* Matrix.Translation(v) *)
  mat_euler_zxy : F * F * F -> M;         (* Euler(v, 'ZXY').to_matrix().to_4x4() *)
  mat_origin : M -> F * F * F;            (* m * Vector() *)
}.

Section Decoder.

Context {F : Type} `{Float F}.
Context {M : Type} `{Matrix F M}.
Variable Mesh : MeshChunks.
Variable Bone : BoneChunks.
Variable Object : ObjectChunks.

(** [bm.faces.new] raises ValueError for some vertex lists (a vertex used
    twice, a face that exists already); which ones is the host's business.
    It is given the faces made so far and the vertex indices. *)
Variable face_rejected : list (list nat) -> list nat -> bool.

(** An edge of the mesh under construction: the host keeps one edge per pair
    of vertices, so an edge is the pair of its ends, smaller index first. *)
Definition BMEdge : Type := nat * nat.

Definition edge_of (a b : nat) : BMEdge := (a `min` b, a `max` b).

(** A face of the mesh under construction: its vertices in loop order, the
    two attributes the importer sets, and the UV of its loops by layer name
    and corner. *)
Record BMFace := {
  f_verts : list nat;
  f_smooth : bool;
  f_material_index : nat;
  f_uv : gmap (string * nat) (F * F) }.

(** [bmf.edges]: edge [i] joins vertex [i] and the next one around the face. *)
Definition edges (f : BMFace) : list BMEdge :=
  zip_with edge_of (f_verts f) (rotate 1 (f_verts f)).

(** An assignment to an attribute of a host object that the importer never
    reads back. *)
Inductive value : Type :=
  | v_int (n : N)
  | v_ints (ns : list N)
  | v_str (s : string)
  | v_float (x : F)
  | v_floats (xs : list F).

(** What the importer touches of the host's data: the console, the names in
    [bpy.data.materials] and [bpy.data.textures], the file paths of the images
    in [bpy.data.images], and the other calls and assignments, in order. *)
Record host := {
  console : list message;
  data_materials : list string;
  data_textures : list string;
  data_images : list string;
  events : list (string * value) }.

Definition new_host : host :=
  {| console := []; data_materials := []; data_textures := []; data_images := [];
     events := [] |}.

Definition warn_imknown_chunk (cid : N) (location : string) (h : host) : host :=
  {| console := console h ++ [unknown_chunk cid location];
     data_materials := data_materials h; data_textures := data_textures h;
     data_images := data_images h; events := events h |}.
Definition with_data_materials (x : list string) (h : host) : host :=
  {| console := console h; data_materials := x; data_textures := data_textures h;
     data_images := data_images h; events := events h |}.
Definition with_data_textures (x : list string) (h : host) : host :=
  {| console := console h; data_materials := data_materials h; data_textures := x;
     data_images := data_images h; events := events h |}.
Definition with_data_images (x : list string) (h : host) : host :=
  {| console := console h; data_materials := data_materials h;
     data_textures := data_textures h; data_images := x; events := events h |}.
Definition host_event (a : string) (v : value) (h : host) : host :=
  {| console := console h; data_materials := data_materials h;
     data_textures := data_textures h; data_images := data_images h;
     events := events h ++ [(a, v)] |}.

(** A loop whose body may raise. *)
Fixpoint rfold {A S : Type} (f : S -> A -> result S) (st : S) (l : list A) : result S :=
  match l with
  | [] => Ok st
  | x :: l' => let* st := f st x in rfold f st l'
  end.

(** The state of [_import_mesh]: [bm], [bmfaces], [bo_mesh] and [bm_data].
    The faces of [bm] are the entries of [bmfaces] that are not [None]: both
    are filled together, and [bmfaces] holds references to the faces of [bm]. *)
Record mesh := {
  verts : list (F * F * F);           (* bm.verts *)
  bmfaces : list (option BMFace);
  seam : gset BMEdge;                 (* the edges with seam = True *)
  sharp : gset BMEdge;                (* the edges with smooth = False *)
  uv_layers : list string;            (* bm.loops.layers.uv *)
  vertex_groups : list string;        (* bo_mesh.vertex_groups *)
  deform : gmap (nat * nat) F;        (* bm.verts[vi][bml][vgi] *)
  materials : list string;            (* bm_data.materials *)
  attrs : list (string * value) }.    (* other assignments, in order *)

Definition new_mesh : mesh :=
  {| verts := []; bmfaces := []; seam := ∅; sharp := ∅; uv_layers := [];
     vertex_groups := []; deform := ∅; materials := []; attrs := [] |}.

Definition with_verts (x : list (F * F * F)) (m : mesh) : mesh :=
  {| verts := x; bmfaces := bmfaces m; seam := seam m; sharp := sharp m;
     uv_layers := uv_layers m; vertex_groups := vertex_groups m; deform := deform m;
     materials := materials m; attrs := attrs m |}.
Definition with_bmfaces (x : list (option BMFace)) (m : mesh) : mesh :=
  {| verts := verts m; bmfaces := x; seam := seam m; sharp := sharp m;
     uv_layers := uv_layers m; vertex_groups := vertex_groups m; deform := deform m;
     materials := materials m; attrs := attrs m |}.
Definition with_seam (x y : gset BMEdge) (m : mesh) : mesh :=
  {| verts := verts m; bmfaces := bmfaces m; seam := x; sharp := y;
     uv_layers := uv_layers m; vertex_groups := vertex_groups m; deform := deform m;
     materials := materials m; attrs := attrs m |}.
Definition with_uv_layers (x : list string) (m : mesh) : mesh :=
  {| verts := verts m; bmfaces := bmfaces m; seam := seam m; sharp := sharp m;
     uv_layers := x; vertex_groups := vertex_groups m; deform := deform m;
     materials := materials m; attrs := attrs m |}.
Definition with_vertex_groups (x : list string) (m : mesh) : mesh :=
  {| verts := verts m; bmfaces := bmfaces m; seam := seam m; sharp := sharp m;
     uv_layers := uv_layers m; vertex_groups := x; deform := deform m;
     materials := materials m; attrs := attrs m |}.
Definition with_deform (x : gmap (nat * nat) F) (m : mesh) : mesh :=
  {| verts := verts m; bmfaces := bmfaces m; seam := seam m; sharp := sharp m;
     uv_layers := uv_layers m; vertex_groups := vertex_groups m; deform := x;
     materials := materials m; attrs := attrs m |}.
Definition with_materials (x : list string) (m : mesh) : mesh :=
  {| verts := verts m; bmfaces := bmfaces m; seam := seam m; sharp := sharp m;
     uv_layers := uv_layers m; vertex_groups := vertex_groups m; deform := deform m;
     materials := x; attrs := attrs m |}.
Definition set_attr (a : string) (v : value) (m : mesh) : mesh :=
  {| verts := verts m; bmfaces := bmfaces m; seam := seam m; sharp := sharp m;
     uv_layers := uv_layers m; vertex_groups := vertex_groups m; deform := deform m;
     materials := materials m; attrs := attrs m ++ [(a, v)] |}.

(** [bm.faces]: the faces made so far, by their vertices. *)
Definition bm_faces (m : mesh) : list (list nat) :=
  omap (fun o => f_verts <$> o) (bmfaces m).

(** *** VERTS and FACES (lines 47-59) *)

Definition import_verts (data : list byte) (m : mesh) : result mesh :=
  let pr := {| data := data; offs := 0 |} in
  let* (n, pr) := get_I pr in
  let* (vs, pr) := get_n get_fff (N.to_nat n) pr in
  Ok (with_verts (verts m ++ vs) m).

(** Lines 54-58: one face record. *)
Definition import_face (pr : PackedReader) (m : mesh) : result (PackedReader * mesh) :=
  let* (fr, pr) := get_n get_I 6 pr in
  let vis := N.to_nat <$> omap (fun i => fr !! i) [0; 2; 4] in
  if bool_decide (Forall (fun vi => vi < length (verts m)) vis) then
    if face_rejected (bm_faces m) vis
    then Ok (pr, with_bmfaces (bmfaces m ++ [None]) m)
    else
      let f := {| f_verts := vis; f_smooth := false; f_material_index := 0; f_uv := ∅ |} in
      Ok (pr, with_bmfaces (bmfaces m ++ [Some f]) m)
  else Raise IndexError.

Fixpoint import_face_loop (n : nat) (pr : PackedReader) (m : mesh) : result mesh :=
  match n with
  | 0 => Ok m
  | S n' => let* (pr, m) := import_face pr m in import_face_loop n' pr m
  end.

Definition import_faces (data : list byte) (m : mesh) : result mesh :=
  let pr := {| data := data; offs := 0 |} in
  let* (n, pr) := get_I pr in
  import_face_loop (N.to_nat n) pr m.

(** *** MESHNAME (lines 60-62) *)

Definition import_meshname (data : list byte) (m : mesh) : result mesh :=
  let* (name, _) := gets {| data := data; offs := 0 |} in
  Ok (set_attr "bm_data.name" (v_str (name ++ ".mesh"))
        (set_attr "bo_mesh.name" (v_str name) m)).

(** *** SG: smoothing groups (lines 63-82) *)

Definition set_smooth (bmf : BMFace) : BMFace :=
  {| f_verts := f_verts bmf; f_smooth := true;
     f_material_index := f_material_index bmf; f_uv := f_uv bmf |}.

(** Lines 76-82: one edge of a face of group [sg]; the state is [edict] and
    the edges marked as seam and as not smooth. *)
Definition sg_edge (sg : N) (st : gmap BMEdge N * gset BMEdge * gset BMEdge)
    (bme : BMEdge) : gmap BMEdge N * gset BMEdge * gset BMEdge :=
  match st.1.1 !! bme with
  | None => (<[bme := sg]> st.1.1, st.1.2, st.2)
  | Some x =>
      if decide (x = sg) then st
      else (<[bme := sg]> st.1.1, {[bme]} ∪ st.1.2, {[bme]} ∪ st.2)
  end.

(** Lines 70-82: the face of slot [fi] and its group. *)
Definition sg_face (fi : nat) (sg : N) (m : mesh) (edict : gmap BMEdge N)
  : result (mesh * gmap BMEdge N) :=
  match bmfaces m !! fi with
  | None => Raise IndexError
  | Some None => Ok (m, edict)
  | Some (Some bmf) =>
      let m := with_bmfaces (<[fi := Some (set_smooth bmf)]> (bmfaces m)) m in
      let st := foldl (sg_edge sg) (edict, seam m, sharp m) (edges bmf) in
      Ok (with_seam st.1.2 st.2 m, st.1.1)
  end.

(** [for fi, sg in enumerate(...)]. *)
Fixpoint sg_loop (fi : nat) (sgs : list N) (m : mesh) (edict : gmap BMEdge N)
  : result mesh :=
  match sgs with
  | [] => Ok m
  | sg :: sgs' =>
      let* (m, edict) := sg_face fi sg m edict in
      sg_loop (S fi) sgs' m edict
  end.

Definition import_sg (data : list byte) (m : mesh) : result mesh :=
  let pr := {| data := data; offs := 0 |} in
  let m := set_attr "bo_mesh.modifiers.new" (v_str "XRay: do smoothing groups") m in
  let* (sgs, _) := get_n get_I (length data / 4) pr in
  sg_loop 0 sgs m ∅.

(** *** SFACE: surfaces (lines 83-97) *)

Definition set_material_index (midx : nat) (bmf : BMFace) : BMFace :=
  {| f_verts := f_verts bmf; f_smooth := f_smooth bmf;
     f_material_index := midx; f_uv := f_uv bmf |}.

(** Lines 93-97. *)
Definition sface_face (midx : nat) (m : mesh) (fi : nat) : result mesh :=
  match bmfaces m !! fi with
  | None => Raise IndexError
  | Some None => Ok m
  | Some (Some bmf) =>
      Ok (with_bmfaces (<[fi := Some (set_material_index midx bmf)]> (bmfaces m)) m)
  end.

(** Lines 86-97: one surface.  [cx.bpy] is needed for the materials. *)
Definition sface_surface (cx : ImportContext) (st : PackedReader * host * mesh)
  : result (PackedReader * host * mesh) :=
  let '(pr, h, m) := st in
  let* (n, pr) := gets pr in
  if has_bpy cx then
    let h := if bool_decide (n ∈ data_materials h) then h
             else with_data_materials (data_materials h ++ [n]) h in
    let midx := length (materials m) in
    let m := with_materials (materials m ++ [n]) m in
    let* (cnt, pr) := get_I pr in
    let* (fis, pr) := get_n get_I (N.to_nat cnt) pr in
    let* m := rfold (sface_face midx) m (N.to_nat <$> fis) in
    Ok (pr, h, m)
  else Raise AttributeError.

Fixpoint sface_loop (cx : ImportContext) (n : nat) (st : PackedReader * host * mesh)
  : result (PackedReader * host * mesh) :=
  match n with
  | 0 => Ok st
  | S n' => let* st := sface_surface cx st in sface_loop cx n' st
  end.

Definition import_sface (cx : ImportContext) (data : list byte) (h : host) (m : mesh)
  : result (host * mesh) :=
  let pr := {| data := data; offs := 0 |} in
  let* (n, pr) := get_H pr in
  let* (_, h, m) := sface_loop cx (N.to_nat n) (pr, h, m) in
  Ok (h, m).

(** *** VMAPS2: vertex maps (lines 100-141) *)

Definition flip_v (uv : F * F) : F * F := (uv.1, fsub f_one uv.2).

Definition set_uv (n : string) (c : nat) (uv : F * F) (bmf : BMFace) : BMFace :=
  {| f_verts := f_verts bmf; f_smooth := f_smooth bmf;
     f_material_index := f_material_index bmf; f_uv := <[(n, c) := uv]> (f_uv bmf) |}.

(** Lines 117-124: a disconnected UV goes to the first loop of the face whose
    vertex is [vi]. *)
Definition uv_discon (n : string) (m : mesh) (x : F * F * N * N) : result mesh :=
  let '(uv, vi, fi) := x in
  match bmfaces m !! N.to_nat fi with
  | None => Raise IndexError
  | Some None => Ok m
  | Some (Some bmf) =>
      match list_find (fun v => v = N.to_nat vi) (f_verts bmf) with
      | Some (c, _) =>
          Ok (with_bmfaces (<[N.to_nat fi := Some (set_uv n c (flip_v uv) bmf)]> (bmfaces m)) m)
      | None => Ok m
      end
  end.

(** [for l in bm.verts[vi].link_loops: l[bml].uv = uv], on one face. *)
Definition set_uv_of_vert (n : string) (vi : nat) (uv : F * F) (bmf : BMFace) : BMFace :=
  {| f_verts := f_verts bmf; f_smooth := f_smooth bmf;
     f_material_index := f_material_index bmf;
     f_uv := foldl (fun acc cv => if decide (cv.2 = vi) then <[(n, cv.1) := uv]> acc else acc)
                   (f_uv bmf) (imap pair (f_verts bmf)) |}.

(** Lines 126-128: a connected UV goes to every loop of the vertex. *)
Definition uv_con (n : string) (m : mesh) (x : F * F * N) : result mesh :=
  let '(uv, vi) := x in
  if decide (N.to_nat vi < length (verts m)) then
    Ok (with_bmfaces
          ((fun o : option BMFace => set_uv_of_vert n (N.to_nat vi) (flip_v uv) <$> o)
             <$> bmfaces m) m)
  else Raise IndexError.

(** Lines 138-139. *)
Definition weight_con (vgi : nat) (m : mesh) (x : F * N) : result mesh :=
  let '(vw, vi) := x in
  if decide (N.to_nat vi < length (verts m)) then
    Ok (with_deform (<[(N.to_nat vi, vgi) := vw]> (deform m)) m)
  else Raise IndexError.

(** Lines 109-128: a UV map of [sz] entries. *)
Definition vmap_uvs (n : string) (discon : bool) (sz : nat) (pr : PackedReader) (m : mesh)
  : result (PackedReader * mesh) :=
  let m := if bool_decide (n ∈ uv_layers m) then m
           else with_uv_layers (uv_layers m ++ [n]) m in
  let* (uvs, pr) := get_n get_ff sz pr in
  let* (vtx, pr) := get_n get_I sz pr in
  if discon then
    let* (fcs, pr) := get_n get_I sz pr in
    let* m := rfold (uv_discon n) m (zip (zip uvs vtx) fcs) in
    Ok (pr, m)
  else
    let* m := rfold (uv_con n) m (zip uvs vtx) in
    Ok (pr, m).

(** Lines 130-139: a weight map of [sz] entries. *)
Definition vmap_weights (n : string) (discon : bool) (sz : nat) (pr : PackedReader)
    (m : mesh) : result (PackedReader * mesh) :=
  let vgi := length (vertex_groups m) in
  let m := with_vertex_groups (vertex_groups m ++ [n]) m in
  let* (wgs, pr) := get_n get_f sz pr in
  let* (vtx, pr) := get_n get_I sz pr in
  if discon then
    let* (fcs, pr) := get_n get_I sz pr in
    Ok (pr, m)
  else
    let* m := rfold (weight_con vgi) m (zip wgs vtx) in
    Ok (pr, m).

(** Lines 103-141: one vertex map. *)
Definition import_vmap (st : PackedReader * mesh) : result (PackedReader * mesh) :=
  let '(pr, m) := st in
  let* (n, pr) := gets pr in
  let* (dim, pr) := get_B pr in
  let* (discon_byte, pr) := get_B pr in
  let discon := negb (discon_byte =? 0)%N in
  let* (typ_byte, pr) := get_B pr in
  let typ := N.land typ_byte 3 in
  let* (sz, pr) := get_I pr in
  if (typ =? 0)%N then vmap_uvs n discon (N.to_nat sz) pr m
  else if (typ =? 1)%N then vmap_weights n discon (N.to_nat sz) pr m
  else Raise (UnknownVmapType typ).

Fixpoint vmap_loop (n : nat) (st : PackedReader * mesh) : result (PackedReader * mesh) :=
  match n with
  | 0 => Ok st
  | S n' => let* st := import_vmap st in vmap_loop n' st
  end.

Definition import_vmaps2 (data : list byte) (m : mesh) : result mesh :=
  let pr := {| data := data; offs := 0 |} in
  let* (n, pr) := get_I pr in
  let* (_, m) := vmap_loop (N.to_nat n) (pr, m) in
  Ok m.

(** *** FLAGS and OPTIONS (lines 142-147) *)

Definition import_flags (data : list byte) (m : mesh) : result mesh :=
  let* (flags, _) := get_B {| data := data; offs := 0 |} in
  Ok (set_attr "bo_mesh.data.xray.flags" (v_int flags) m).

Definition import_options (data : list byte) (m : mesh) : result mesh :=
  let* (a, b, _) := get_II {| data := data; offs := 0 |} in
  Ok (set_attr "bo_mesh.data.xray.options" (v_ints [a; b]) m).

(** *** [_import_mesh] (lines 36-151) *)

(** The body of [for (cid, data) in cr], lines 47-149. *)
Definition mesh_chunk (cx : ImportContext) (cid : N) (data : list byte)
    (h : host) (m : mesh) : result (host * mesh) :=
  if decide (cid = Mesh_VERTS Mesh) then
    let* m := import_verts data m in Ok (h, m)
  else if decide (cid = Mesh_FACES Mesh) then
    let* m := import_faces data m in Ok (h, m)
  else if decide (cid = Mesh_MESHNAME Mesh) then
    let* m := import_meshname data m in Ok (h, m)
  else if decide (cid = Mesh_SG Mesh) then
    let* m := import_sg data m in Ok (h, m)
  else if decide (cid = Mesh_SFACE Mesh) then
    import_sface cx data h m
  else if decide (cid = Mesh_VMREFS Mesh) then
    Ok (h, m)
  else if decide (cid = Mesh_VMAPS2 Mesh) then
    let* m := import_vmaps2 data m in Ok (h, m)
  else if decide (cid = Mesh_FLAGS Mesh) then
    let* m := import_flags data m in Ok (h, m)
  else if decide (cid = Mesh_BBOX Mesh) then
    Ok (h, m)
  else if decide (cid = Mesh_OPTIONS Mesh) then
    let* m := import_options data m in Ok (h, m)
  else
    Ok (warn_imknown_chunk cid "mesh" h, m).

Fixpoint mesh_chunks (cx : ImportContext) (cr : ChunkedReader) (h : host) (m : mesh)
  : result (host * mesh) :=
  match cr with
  | cr_end => Ok (h, m)
  | cr_malformed => Raise MalformedChunk
  | cr_chunk cid data rest =>
      let* (h, m) := mesh_chunk cx cid data h m in
      mesh_chunks cx rest h m
  end.

Definition _import_mesh (cx : ImportContext) (cr : ChunkedReader) (parent : string)
    (h : host) : result (host * mesh) :=
  let* (ver, cr) := cr_nextf_H cr (Mesh_VERSION Mesh) in
  if negb (ver =? 0x11)%N then Raise (UnsupportedVersion "MESH" ver)
  else if has_bpy cx then
    let h := host_event "scene.objects.link" (v_str "tmp") h in
    let m := set_attr "bo_mesh.parent" (v_str parent) new_mesh in
    let* (h, m) := mesh_chunks cx cr h m in
    Ok (host_event "bm.to_mesh" (v_str "tmp.mesh") h, m)
  else Raise AttributeError.

(** *** Smoothing groups as a sequence of visits *)

(** A visit: the slot of the face, the edge and the group of the face. *)
Definition visit : Type := nat * BMEdge * N.

Definition face_visits (m : mesh) (fi : nat) (sg : N) : list visit :=
  match bmfaces m !! fi with
  | Some (Some bmf) => (fun e => (fi, e, sg)) <$> edges bmf
  | _ => []
  end.

(** The visits of the loop over the groups, in order. *)
Fixpoint visits (m : mesh) (fi : nat) (sgs : list N) : list visit :=
  match sgs with
  | [] => []
  | sg :: sgs' => face_visits m fi sg ++ visits m (S fi) sgs'
  end.

Definition visit_step (st : gmap BMEdge N * gset BMEdge * gset BMEdge) (v : visit)
  : gmap BMEdge N * gset BMEdge * gset BMEdge :=
  sg_edge v.2 st v.1.2.




Lemma sg_edge_seam (sg : N) st (bme e : BMEdge) :
  e ∈ (sg_edge sg st bme).1.2 <->
  e ∈ st.1.2 \/ (bme = e /\ exists x, st.1.1 !! bme = Some x /\ x <> sg).
Proof.
  unfold sg_edge. destruct (st.1.1 !! bme) as [x|] eqn:Hx; simpl.
  - destruct (decide (x = sg)) as [->|Hne]; simpl.
    + split; [by left|]. intros [?|[_ (x & [= <-] & ?)]]; done.
    + rewrite elem_of_union, elem_of_singleton. split.
      * intros [->|?]; [right|by left]. split; [done|]. by exists x.
      * intros [?|[-> _]]; [by right|by left].
  - split; [by left|]. intros [?|[_ (x & [=] & _)]]. done.
Qed.

Lemma sg_edge_sharp (sg : N) st (bme e : BMEdge) :
  e ∈ (sg_edge sg st bme).2 <->
  e ∈ st.2 \/ (bme = e /\ exists x, st.1.1 !! bme = Some x /\ x <> sg).
Proof.
  unfold sg_edge. destruct (st.1.1 !! bme) as [x|] eqn:Hx; simpl.
  - destruct (decide (x = sg)) as [->|Hne]; simpl.
    + split; [by left|]. intros [?|[_ (x & [= <-] & ?)]]; done.
    + rewrite elem_of_union, elem_of_singleton. split.
      * intros [->|?]; [right|by left]. split; [done|]. by exists x.
      * intros [?|[-> _]]; [by right|by left].
  - split; [by left|]. intros [?|[_ (x & [=] & _)]]. done.
Qed.


(** Where a run of visits finds, for edge [e], a group recorded that differs
    from the group of the visiting face. *)
Definition finds_other_group (st : gmap BMEdge N * gset BMEdge * gset BMEdge)
    (vs : list visit) (e : BMEdge) : Prop :=
  exists pre v post x,
    vs = pre ++ v :: post /\ v.1.2 = e /\
    (foldl visit_step st pre).1.1 !! e = Some x /\ x <> v.2.

Lemma finds_other_group_nil st e : ~ finds_other_group st [] e.
Proof. intros (pre & v & post & x & Hvs & _). by destruct pre. Qed.

Lemma finds_other_group_snoc st vs v e :
  finds_other_group st (vs ++ [v]) e <->
  finds_other_group st vs e \/
  (v.1.2 = e /\ exists x, (foldl visit_step st vs).1.1 !! v.1.2 = Some x /\ x <> v.2).
Proof.
  split.
  - intros (pre & v0 & post & x & Hvs & He & Hx & Hne).
    destruct post as [|p post _] using rev_ind.
    + apply app_inj_tail in Hvs as [-> ->]. right. split; [done|]. exists x.
      by rewrite He.
    + rewrite app_comm_cons, app_assoc in Hvs. apply app_inj_tail in Hvs as [-> _].
      left. by exists pre, v0, post, x.
  - intros [(pre & v0 & post & x & -> & He & Hx & Hne)|[He (x & Hx & Hne)]].
    + exists pre, v0, (post ++ [v]), x. by rewrite <- app_assoc.
    + exists vs, v, [], x. by rewrite <- He.
Qed.

(** An edge is marked as a seam exactly when some visit finds a different
    group recorded for it, and as not smooth likewise. *)
Lemma run_seam (vs : list visit) st (e : BMEdge) :
  e ∈ (foldl visit_step st vs).1.2 <-> e ∈ st.1.2 \/ finds_other_group st vs e.
Proof.
  induction vs as [|v vs IH] using rev_ind; simpl.
  - split; [by left|]. intros [?|Hf]; [done|]. by apply finds_other_group_nil in Hf.
  - rewrite foldl_snoc. unfold visit_step at 1.
    rewrite sg_edge_seam, IH, finds_other_group_snoc. tauto.
Qed.

Lemma run_sharp (vs : list visit) st (e : BMEdge) :
  e ∈ (foldl visit_step st vs).2 <-> e ∈ st.2 \/ finds_other_group st vs e.
Proof.
  induction vs as [|v vs IH] using rev_ind; simpl.
  - split; [by left|]. intros [?|Hf]; [done|]. by apply finds_other_group_nil in Hf.
  - rewrite foldl_snoc. unfold visit_step at 1.
    rewrite sg_edge_sharp, IH, finds_other_group_snoc. tauto.
Qed.






Lemma visits_ext (m1 m : mesh) (sgs : list N) : forall fi,
  (forall j, fi <= j -> bmfaces m1 !! j = bmfaces m !! j) ->
  visits m1 fi sgs = visits m fi sgs.
Proof.
  induction sgs as [|sg sgs IH]; intros fi Hsame; simpl; [done|].
  unfold face_visits. rewrite Hsame by done. f_equal. apply IH.
  intros j Hj. apply Hsame. lia.
Qed.

(** What the loop over the groups does, in terms of the visits. *)
Lemma sg_loop_spec (sgs : list N) : forall fi m edict,
  fi + length sgs <= length (bmfaces m) ->
  exists m', sg_loop fi sgs m edict = Ok m' /\
    seam m' = (foldl visit_step (edict, seam m, sharp m) (visits m fi sgs)).1.2 /\
    sharp m' = (foldl visit_step (edict, seam m, sharp m) (visits m fi sgs)).2 /\
    (forall j, bmfaces m' !! j
               = if decide (fi <= j < fi + length sgs)
                 then (fun o : option BMFace => set_smooth <$> o) <$> bmfaces m !! j
                 else bmfaces m !! j) /\
    verts m' = verts m /\ deform m' = deform m /\ materials m' = materials m /\
    vertex_groups m' = vertex_groups m /\ uv_layers m' = uv_layers m.
Proof.
  induction sgs as [|sg sgs IH]; intros fi m edict Hlen; simpl.
  - exists m. split_and!; try done. intros j. case_decide; [lia|done].
  - simpl in Hlen. destruct (lookup_lt_is_Some_2 (bmfaces m) fi) as [o Ho]; [lia|].
    unfold sg_face, face_visits. rewrite Ho. rewrite foldl_app.
    destruct o as [bmf|].
    + cbn [rbind seam sharp with_bmfaces]. rewrite foldl_fmap.
      change (fun (a : gmap BMEdge N * gset BMEdge * gset BMEdge) (a0 : BMEdge) =>
                visit_step a (fi, a0, sg)) with (sg_edge sg).
      set (st := foldl _ (edict, seam m, sharp m) (edges bmf)).
      set (m1 := with_seam _ _ _).
      destruct (IH (S fi) m1 st.1.1) as (m' & -> & Hs & Hh & Hf & ? & ? & ? & ? & ?).
      { unfold m1. simpl. rewrite length_insert. lia. }
      exists m'. split; [done|].
      assert (visits m1 (S fi) sgs = visits m (S fi) sgs) as Hv.
      { apply visits_ext. intros j Hj. unfold m1. simpl.
        rewrite list_lookup_insert_ne by lia. done. }
      assert ((st.1.1, seam m1, sharp m1) = st) as Hst by (by destruct st as [[? ?] ?]).
      rewrite Hv, Hst in Hs, Hh. split_and!; try done.
      intros j. rewrite Hf. unfold m1. simpl.
      destruct (decide (j = fi)) as [->|Hne].
      * rewrite decide_False by lia. rewrite decide_True by lia.
        rewrite list_lookup_insert_eq by (by eapply lookup_lt_Some). by rewrite Ho.
      * rewrite list_lookup_insert_ne by done.
        repeat case_decide; try done; lia.
    + cbn [rbind foldl].
      destruct (IH (S fi) m edict) as (m' & -> & Hs & Hh & Hf & ? & ? & ? & ? & ?); [lia|].
      exists m'. split_and!; try done.
      intros j. rewrite Hf. destruct (decide (j = fi)) as [->|Hne].
      * rewrite decide_False by lia. rewrite decide_True by lia. by rewrite Ho.
      * repeat case_decide; try done; lia.
Qed.




(** *** Null slots *)








(** *** Weight maps *)

Definition apply_weights (vgi : nat) (d : gmap (nat * nat) F) (l : list (F * N))
  : gmap (nat * nat) F :=
  foldl (fun d (x : F * N) => <[(N.to_nat x.2, vgi) := x.1]> d) d l.

Lemma rfold_weight_con (vgi : nat) (l : list (F * N)) : forall m m',
  rfold (weight_con vgi) m l = Ok m' ->
  deform m' = apply_weights vgi (deform m) l /\ verts m' = verts m /\
  vertex_groups m' = vertex_groups m /\ bmfaces m' = bmfaces m.
Proof.
  induction l as [|[vw vi] l IH]; intros m m'; simpl; [by intros [= <-]|].
  unfold weight_con at 1. case_decide; simpl; [|done].
  intros Hr. apply IH in Hr as (-> & -> & -> & ->). done.
Qed.

Lemma vmap_weights_discon (n : string) (sz : nat) (pr : PackedReader) (m : mesh) :
  sz * 12 <= length (remaining pr) ->
  vmap_weights n true sz pr m
  = Ok (advance pr (sz * 12), with_vertex_groups (vertex_groups m ++ [n]) m).
Proof.
  intros Hlen. unfold vmap_weights.
  destruct (get_n_enough get_f 4 get_f_enough sz pr) as (wgs & -> & _); [lia|].
  cbn [rbind].
  destruct (get_n_enough get_I 4 get_I_enough sz (advance pr (sz * 4))) as (vtx & -> & _).
  { rewrite length_remaining_advance. lia. }
  cbn [rbind].
  destruct (get_n_enough get_I 4 get_I_enough sz (advance (advance pr (sz * 4)) (sz * 4)))
    as (fcs & -> & _).
  { rewrite !length_remaining_advance. lia. }
  cbn [rbind]. rewrite !advance_add. do 3 f_equal. lia.
Qed.

Lemma vmap_weights_discon_Ok (n : string) (sz : nat) (pr pr' : PackedReader) (m m' : mesh) :
  vmap_weights n true sz pr m = Ok (pr', m') ->
  m' = with_vertex_groups (vertex_groups m ++ [n]) m.
Proof.
  unfold vmap_weights. intros Hw.
  apply rbind_Ok in Hw as ([wgs pr1] & _ & Hw).
  apply rbind_Ok in Hw as ([vtx pr2] & _ & Hw).
  apply rbind_Ok in Hw as ([fcs pr3] & _ & Hw). by injection Hw as _ <-.
Qed.

Lemma vmap_weights_con_Ok (n : string) (sz : nat) (pr pr' : PackedReader) (m m' : mesh) :
  vmap_weights n false sz pr m = Ok (pr', m') ->
  exists wgs vtx pr1,
    get_n get_f sz pr = Ok (wgs, pr1) /\ get_n get_I sz pr1 = Ok (vtx, pr') /\
    deform m' = apply_weights (length (vertex_groups m)) (deform m) (zip wgs vtx).
Proof.
  unfold vmap_weights. intros Hw.
  apply rbind_Ok in Hw as ([wgs pr1] & Hg1 & Hw).
  apply rbind_Ok in Hw as ([vtx pr2] & Hg2 & Hw).
  apply rbind_Ok in Hw as (m1 & Hr & Hw). injection Hw as <- <-.
  apply rfold_weight_con in Hr as (Hd & _). exists wgs, vtx, pr1. done.
Qed.

(** *** Versions and unknown tags *)

Definition mesh_tags : list N :=
  [Mesh_VERTS Mesh; Mesh_FACES Mesh; Mesh_MESHNAME Mesh; Mesh_SG Mesh; Mesh_SFACE Mesh;
   Mesh_VMREFS Mesh; Mesh_VMAPS2 Mesh; Mesh_FLAGS Mesh; Mesh_BBOX Mesh; Mesh_OPTIONS Mesh].

Lemma import_mesh_version (cx : ImportContext) (cr cr' : ChunkedReader) (parent : string)
    (h : host) (ver : N) :
  cr_nextf_H cr (Mesh_VERSION Mesh) = Ok (ver, cr') -> ver <> 0x11%N ->
  _import_mesh cx cr parent h = Raise (UnsupportedVersion "MESH" ver).
Proof.
  intros Hv Hne. unfold _import_mesh. rewrite Hv. cbn [rbind].
  by rewrite (proj2 (N.eqb_neq _ _) Hne).
Qed.

Lemma mesh_chunk_unknown (cx : ImportContext) (cid : N) (data : list byte) (h : host)
    (m : mesh) :
  cid ∉ mesh_tags -> mesh_chunk cx cid data h m = Ok (warn_imknown_chunk cid "mesh" h, m).
Proof.
  intros Hcid. unfold mesh_chunk. unfold mesh_tags in Hcid.
  repeat (rewrite decide_False; [|intros ->; apply Hcid; set_solver]). done.
Qed.

Lemma mesh_chunks_unknown (cx : ImportContext) (cid : N) (data : list byte)
    (rest : ChunkedReader) (h : host) (m : mesh) :
  cid ∉ mesh_tags ->
  mesh_chunks cx (cr_chunk cid data rest) h m
  = mesh_chunks cx rest (warn_imknown_chunk cid "mesh" h) m.
Proof. intros Hcid. simpl. by rewrite mesh_chunk_unknown. Qed.

(** *** Bones: [_import_bone] (lines 154-223) *)

(** The host gives a new bone a name of its own choice when the name asked for
    is taken (or empty): [unique_name names name] is the name it gives among
    the bones [names]. *)
Variable unique_name : list string -> string -> string.

(** [head + mathutils.Vector([0, 0.1, 0])]. *)
Variable tail_of_head : F * F * F -> F * F * F.

Record EditBone := {
  eb_name : string;
  eb_parent : option string;
  eb_head : F * F * F;
  eb_tail : F * F * F }.

(** [bpy_armature]: its bones and what is assigned to their [xray] properties. *)
Record armature := {
  edit_bones : list EditBone;
  bone_attrs : list (string * string * value) }.

Definition new_armature : armature := {| edit_bones := []; bone_attrs := [] |}.

Definition bone_names (arm : armature) : list string := eb_name <$> edit_bones arm.

Definition set_bone_attr (bone a : string) (v : value) (arm : armature) : armature :=
  {| edit_bones := edit_bones arm; bone_attrs := bone_attrs arm ++ [(bone, a, v)] |}.

(** The formats of [getf] that the bone chunks use. *)
Inductive fmt : Type :=
  | fmt_H | fmt_I | fmt_f | fmt_fs (n : nat) | fmt_s.

Definition get_fmt (f : fmt) (pr : PackedReader) : result (value * PackedReader) :=
  match f with
  | fmt_H => let* (n, pr) := get_H pr in Ok (v_int n, pr)
  | fmt_I => let* (n, pr) := get_I pr in Ok (v_int n, pr)
  | fmt_f => let* (x, pr) := get_f pr in Ok (v_float x, pr)
  | fmt_fs n => let* (xs, pr) := get_n get_f n pr in Ok (v_floats xs, pr)
  | fmt_s => let* (s, pr) := gets pr in Ok (v_str s, pr)
  end.

(** A sequence of [xray.attr = pr.getf(...)]. *)
Fixpoint read_attrs (bone : string) (fields : list (string * fmt)) (pr : PackedReader)
    (arm : armature) : result armature :=
  match fields with
  | [] => Ok arm
  | (a, f) :: fields' =>
      let* (v, pr) := get_fmt f pr in
      read_attrs bone fields' pr (set_bone_attr bone a v arm)
  end.

Definition shape_fields : list (string * fmt) :=
  [("shape.type", fmt_H); ("shape.flags", fmt_H); ("shape.box_rot", fmt_fs 9);
   ("shape.box_trn", fmt_fs 3); ("shape.box_hsz", fmt_fs 3); ("shape.sph_pos", fmt_fs 3);
   ("shape.sph_rad", fmt_f); ("shape.cyl_pos", fmt_fs 3); ("shape.cyl_dir", fmt_fs 3);
   ("shape.cyl_hgh", fmt_f); ("shape.cyl_rad", fmt_f)].

Definition ik_joint_fields : list (string * fmt) :=
  [("ikjoint.type", fmt_I); ("ikjoint.limits", fmt_fs 3); ("ikjoint.lim_spr", fmt_f);
   ("ikjoint.lim_dmp", fmt_f); ("ikjoint.spring", fmt_f); ("ikjoint.damping", fmt_f)].

Definition mass_fields : list (string * fmt) :=
  [("mass.value", fmt_f); ("mass.center", fmt_fs 3)].

Definition break_fields : list (string * fmt) :=
  [("breakf.force", fmt_f); ("breakf.torque", fmt_f)].

(** [cx.report({'WARNING'}, ...)]. *)
Definition report_warning (what : string) (a b : string) (h : host) : host :=
  host_event "report" (v_str (what ++ ": " ++ a ++ " != " ++ b)) h.

(** The body of [for (cid, data) in cr], lines 183-223. *)
Definition bone_chunk (name : string) (cid : N) (data : list byte) (h : host)
    (arm : armature) : result (host * armature) :=
  let pr := {| data := data; offs := 0 |} in
  if decide (cid = Bone_DEF Bone) then
    let* (s, _) := gets pr in
    Ok (if decide (name = s) then h else report_warning "bone def2" name s h, arm)
  else if decide (cid = Bone_MATERIAL Bone) then
    let* arm := read_attrs name [("gamemtl", fmt_s)] pr arm in Ok (h, arm)
  else if decide (cid = Bone_SHAPE Bone) then
    let* arm := read_attrs name shape_fields pr arm in Ok (h, arm)
  else if decide (cid = Bone_IK_JOINT Bone) then
    let* arm := read_attrs name ik_joint_fields pr arm in Ok (h, arm)
  else if decide (cid = Bone_MASS_PARAMS Bone) then
    let* arm := read_attrs name mass_fields pr arm in Ok (h, arm)
  else if decide (cid = Bone_IK_FLAGS Bone) then
    let* arm := read_attrs name [("ikflags", fmt_I)] pr arm in Ok (h, arm)
  else if decide (cid = Bone_BREAK_PARAMS Bone) then
    let* arm := read_attrs name break_fields pr arm in Ok (h, arm)
  else if decide (cid = Bone_FRICTION Bone) then
    let* arm := read_attrs name [("friction", fmt_f)] pr arm in Ok (h, arm)
  else
    Ok (warn_imknown_chunk cid "bone" h, arm).

Fixpoint bone_chunks (name : string) (cr : ChunkedReader) (h : host) (arm : armature)
  : result (host * armature) :=
  match cr with
  | cr_end => Ok (h, arm)
  | cr_malformed => Raise MalformedChunk
  | cr_chunk cid data rest =>
      let* (h, arm) := bone_chunk name cid data h arm in
      bone_chunks name rest h arm
  end.

(** The header of a bone: the DEF and BIND_POSE chunks (lines 158-167). *)
Record bone_def := {
  b_name : string; b_parent : string; b_vmap : string;
  b_offset : F * F * F; b_rotate : F * F * F; b_length : F }.

Definition read_bone_def (cr : ChunkedReader) : result (bone_def * ChunkedReader) :=
  let* (data, cr) := cr_next cr (Bone_DEF Bone) in
  let pr := {| data := data; offs := 0 |} in
  let* (name, pr) := gets pr in
  let* (parent, pr) := gets pr in
  let* (vmap, pr) := gets pr in
  let* (data, cr) := cr_next cr (Bone_BIND_POSE Bone) in
  let pr := {| data := data; offs := 0 |} in
  let* (offset, pr) := get_fff pr in
  let* (rotate, pr) := get_fff pr in
  let* (length, pr) := get_f pr in
  Ok ({| b_name := name; b_parent := parent; b_vmap := vmap;
         b_offset := offset; b_rotate := rotate; b_length := length |}, cr).

(** Line 174. *)
Definition bind_matrix (bonemat : gmap string M) (d : bone_def) : M :=
  mat_mul (mat_mul (default mat_identity (bonemat !! b_parent d))
                   (mat_translation (b_offset d)))
          (mat_euler_zxy (b_rotate d)).

(** Lines 168-181: the bone is made in the armature, under the name the host
    gives it; its parent and its [xray] properties are looked up by name. *)
Definition make_bone (d : bone_def) (arm : armature) (bonemat : gmap string M)
  : result (armature * gmap string M) :=
  let actual := unique_name (bone_names arm) (b_name d) in
  let names := bone_names arm ++ [actual] in
  let* parent :=
    if decide (b_parent d = "") then Ok None
    else if bool_decide (b_parent d ∈ names) then Ok (Some (b_parent d))
    else Raise KeyError in
  let mat := bind_matrix bonemat d in
  let bonemat := <[b_name d := mat]> bonemat in
  let head := mat_origin mat in
  let bone := {| eb_name := actual; eb_parent := parent; eb_head := head;
                 eb_tail := tail_of_head head |} in
  if bool_decide (b_name d ∈ names) then
    Ok (set_bone_attr (b_name d) "length" (v_float (b_length d))
          {| edit_bones := edit_bones arm ++ [bone]; bone_attrs := bone_attrs arm |},
        bonemat)
  else Raise KeyError.

Definition _import_bone (cx : ImportContext) (cr : ChunkedReader) (h : host)
    (arm : option armature) (bonemat : gmap string M)
  : result (host * armature * gmap string M) :=
  let* (ver, cr) := cr_nextf_H cr (Bone_VERSION Bone) in
  if negb (ver =? 0x2)%N then Raise (UnsupportedVersion "BONE" ver)
  else
    let* (d, cr) := read_bone_def cr in
    let h := if decide (b_name d = b_vmap d) then h
             else report_warning "bone vmap" (b_name d) (b_vmap d) h in
    if has_bpy cx then
      let* arm := of_option AttributeError arm in
      let* (arm, bonemat) := make_bone d arm bonemat in
      let* (h, arm) := bone_chunks (b_name d) cr h arm in
      Ok (h, arm, bonemat)
    else Raise AttributeError.

(** Lines 281-283: [bonemat = {}] and the loop over the bones of the chunk. *)
Fixpoint import_bones (cx : ImportContext) (cr : ChunkedReader) (h : host)
    (arm : option armature) (bonemat : gmap string M)
  : result (host * option armature * gmap string M) :=
  match cr with
  | cr_end => Ok (h, arm, bonemat)
  | cr_malformed => Raise MalformedChunk
  | cr_chunk _ bdat rest =>
      let* (h, arm, bonemat) := _import_bone cx (chunked_reader bdat) h arm bonemat in
      import_bones cx rest h (Some arm) bonemat
  end.

(** *** Bind transforms *)

(** The header of the bone in the chunk payload [bdat]. *)
Definition bone_header (bdat : list byte) : result bone_def :=
  let* (ver, cr) := cr_nextf_H (chunked_reader bdat) (Bone_VERSION Bone) in
  if negb (ver =? 0x2)%N then Raise (UnsupportedVersion "BONE" ver)
  else let* (d, _) := read_bone_def cr in Ok d.

(** The headers of the bones of a BONES chunk, in file order. *)
Fixpoint bone_headers (cr : ChunkedReader) : result (list bone_def) :=
  match cr with
  | cr_end => Ok []
  | cr_malformed => Raise MalformedChunk
  | cr_chunk _ bdat rest =>
      let* d := bone_header bdat in
      let* ds := bone_headers rest in
      Ok (d :: ds)
  end.

Lemma read_attrs_edit_bones bone fields : forall pr arm arm',
  read_attrs bone fields pr arm = Ok arm' -> edit_bones arm' = edit_bones arm.
Proof.
  induction fields as [|[a f] fields IH]; intros pr arm arm'; simpl; [by intros [= <-]|].
  intros Hr. apply rbind_Ok in Hr as ([v pr1] & _ & Hr). by apply IH in Hr.
Qed.

Lemma bone_chunk_edit_bones name cid data h arm h' arm' :
  bone_chunk name cid data h arm = Ok (h', arm') -> edit_bones arm' = edit_bones arm.
Proof.
  unfold bone_chunk. repeat case_decide;
    try (intros Hr; apply rbind_Ok in Hr as (x & Hx & Hr); injection Hr as _ <-;
         by eapply read_attrs_edit_bones).
  - intros Hr. apply rbind_Ok in Hr as ([s0 pr0] & _ & Hr). by injection Hr as _ <-.
  - by intros [= _ <-].
Qed.

Lemma bone_chunks_edit_bones name cr : forall h arm h' arm',
  bone_chunks name cr h arm = Ok (h', arm') -> edit_bones arm' = edit_bones arm.
Proof.
  induction cr as [|cid data rest IH|]; intros h arm h' arm'; simpl; [by intros [= _ <-]| |done].
  intros Hr. apply rbind_Ok in Hr as ([h1 arm1] & Hc & Hr).
  apply IH in Hr. apply bone_chunk_edit_bones in Hc. congruence.
Qed.

(** What [make_bone] does to the bones and to [bonemat]. *)
Lemma make_bone_Ok (d : bone_def) (arm arm' : armature) (bonemat bonemat' : gmap string M) :
  make_bone d arm bonemat = Ok (arm', bonemat') ->
  let actual := unique_name (bone_names arm) (b_name d) in
  bonemat' = <[b_name d := bind_matrix bonemat d]> bonemat /\
  (exists parent,
     edit_bones arm'
     = edit_bones arm ++ [{| eb_name := actual; eb_parent := parent;
                             eb_head := mat_origin (bind_matrix bonemat d);
                             eb_tail := tail_of_head (mat_origin (bind_matrix bonemat d)) |}]) /\
  (b_parent d <> "" -> b_parent d ∈ bone_names arm ++ [actual]) /\
  b_name d ∈ bone_names arm ++ [actual].
Proof.
  intros Hm actual. unfold make_bone in Hm. fold actual in Hm.
  apply rbind_Ok in Hm as (parent & Hp & Hm).
  case_bool_decide as Hn; [|done]. injection Hm as <- <-. split_and!; try done.
  - by exists parent.
  - intros Hne. rewrite decide_False in Hp by done. by case_bool_decide.
Qed.

Lemma import_bone_Ok (cx : ImportContext) (bdat : list byte) (h h' : host)
    (oarm : option armature) (arm' : armature) (bonemat bonemat' : gmap string M) :
  _import_bone cx (chunked_reader bdat) h oarm bonemat = Ok (h', arm', bonemat') ->
  exists d arm arm1,
    bone_header bdat = Ok d /\ oarm = Some arm /\
    make_bone d arm bonemat = Ok (arm1, bonemat') /\
    edit_bones arm' = edit_bones arm1.
Proof.
  unfold _import_bone, bone_header. intros Hi.
  apply rbind_Ok in Hi as ([ver cr] & -> & Hi). cbn [rbind].
  destruct (negb (ver =? 2)%N); [done|].
  apply rbind_Ok in Hi as ([d cr1] & -> & Hi). cbn [rbind].
  destruct (has_bpy cx); [|done].
  apply rbind_Ok in Hi as (arm & Ha & Hi). apply of_option_Ok in Ha.
  apply rbind_Ok in Hi as ([arm1 bm1] & Hm & Hi).
  apply rbind_Ok in Hi as ([h1 arm2] & Hc & Hi). injection Hi as <- <- <-.
  exists d, arm, arm1. split_and!; try done. by eapply bone_chunks_edit_bones.
Qed.

(** The host keeps a name that is free and not empty. *)
Definition keeps_free_names : Prop :=
  forall names n, n <> "" -> n ∉ names -> unique_name names n = n.

(** The names are pairwise distinct and not empty, and no bone names itself
    as its parent. *)
Definition well_formed_bones (ds : list bone_def) : Prop :=
  NoDup (b_name <$> ds) /\ Forall (fun d => b_name d <> "" /\ b_parent d <> b_name d) ds.

(** [ts] are bind transforms of the bones [ds]: each is the incoming transform
    composed with the translation by the offset and then with the rotation;
    the incoming transform is the identity for a root bone and the transform
    of the earlier bone named as parent otherwise. *)
Definition bind_ok (ds : list bone_def) (ts : list M) : Prop :=
  length ts = length ds /\
  forall i d t, ds !! i = Some d -> ts !! i = Some t ->
    exists P,
      t = mat_mul (mat_mul P (mat_translation (b_offset d))) (mat_euler_zxy (b_rotate d)) /\
      (b_parent d = "" -> P = mat_identity) /\
      (b_parent d <> "" ->
       exists j dj, j < i /\ ds !! j = Some dj /\ b_name dj = b_parent d /\ ts !! j = Some P).

Definition bones_inv (ds : list bone_def) (ts : list M) (arm : armature)
    (bonemat : gmap string M) : Prop :=
  bone_names arm = b_name <$> ds /\
  eb_head <$> edit_bones arm = mat_origin <$> ts /\
  bind_ok ds ts /\
  (forall i d, ds !! i = Some d -> bonemat !! b_name d = ts !! i) /\
  (forall n, n ∉ b_name <$> ds -> bonemat !! n = None).

Lemma well_formed_bones_app_l (ds ds' : list bone_def) :
  well_formed_bones (ds ++ ds') -> well_formed_bones ds.
Proof.
  intros [Hnd Hall]. split.
  - rewrite fmap_app in Hnd. by apply NoDup_app in Hnd as [? _].
  - by apply Forall_app in Hall as [? _].
Qed.

Lemma bones_inv_step (ds : list bone_def) (ts : list M) (arm arm1 arm' : armature)
    (bonemat bonemat1 : gmap string M) (d : bone_def) :
  keeps_free_names -> well_formed_bones (ds ++ [d]) ->
  bones_inv ds ts arm bonemat ->
  make_bone d arm bonemat = Ok (arm1, bonemat1) ->
  edit_bones arm' = edit_bones arm1 ->
  bones_inv (ds ++ [d]) (ts ++ [bind_matrix bonemat d]) arm' bonemat1.
Proof.
  intros Hfree [Hnd Hall] (Hnames & Hheads & [Hlen Hbind] & Hmat & Hnone) Hm Harm'.
  apply make_bone_Ok in Hm as (-> & [parent Heb] & Hparent & _).
  rewrite fmap_app in Hnd. apply NoDup_app in Hnd as (Hnd & Hfresh & _).
  apply Forall_app in Hall as [Hall Hd]. apply Forall_singleton in Hd as [Hne Hself].
  assert (b_name d ∉ b_name <$> ds) as Hnew.
  { intros Hin. apply (Hfresh _ Hin). simpl. left. }
  assert (unique_name (bone_names arm) (b_name d) = b_name d) as Hactual.
  { apply Hfree; [done|]. by rewrite Hnames. }
  rewrite Hactual in Heb, Hparent.
  unfold bones_inv. split_and!.
  - unfold bone_names. rewrite Harm', Heb, !fmap_app. simpl. by rewrite <- Hnames.
  - rewrite Harm', Heb, !fmap_app, Hheads. done.
  - split; [rewrite !length_app; simpl; lia|].
    intros i d' t Hi Ht. destruct (decide (i < length ds)) as [Hlt|Hge].
    + rewrite lookup_app_l in Hi by done. rewrite lookup_app_l in Ht by lia.
      destruct (Hbind _ _ _ Hi Ht) as (P & HP & Hroot & Hchild).
      exists P. split_and!; try done. intros Hp.
      destruct (Hchild Hp) as (j & dj & Hj & Hdj & Hnj & Htj).
      exists j, dj. split_and!; try done.
      * rewrite lookup_app_l; [done|lia].
      * rewrite lookup_app_l; [done|lia].
    + assert (i = length ds) as ->.
      { apply lookup_lt_Some in Hi. rewrite length_app in Hi. simpl in Hi. lia. }
      rewrite lookup_app_r in Hi by lia. rewrite Nat.sub_diag in Hi. injection Hi as <-.
      rewrite lookup_app_r in Ht by lia. rewrite Hlen, Nat.sub_diag in Ht. injection Ht as <-.
      exists (default mat_identity (bonemat !! b_parent d)). split_and!; try done.
      * intros Hp. rewrite Hnone; [done|]. rewrite Hp. intros Hin.
        apply list_elem_of_fmap in Hin as (d0 & Hd0 & Hin).
        rewrite Forall_forall in Hall. destruct (Hall _ Hin) as [Hn0 _]. congruence.
      * intros Hp. specialize (Hparent Hp). rewrite Hnames in Hparent.
        apply elem_of_app in Hparent as [Hin|Hin];
          [|apply list_elem_of_singleton in Hin; congruence].
        apply list_elem_of_fmap in Hin as (dj & Hdj & Hin).
        apply list_elem_of_lookup in Hin as [j Hj].
        assert (j < length ds) as Hjlt by (by eapply lookup_lt_Some).
        destruct (lookup_lt_is_Some_2 ts j) as [P HP]; [lia|].
        exists j, dj. split_and!; try done.
        -- by rewrite lookup_app_l.
        -- rewrite lookup_app_l by lia. rewrite HP. f_equal.
           rewrite Hdj, (Hmat _ _ Hj), HP. done.
  - intros i d' Hi. destruct (decide (i < length ds)) as [Hlt|Hge].
    + rewrite lookup_app_l in Hi by done. rewrite lookup_app_l by lia.
      rewrite lookup_insert_ne; [by apply Hmat|].
      intros Heq. apply Hnew. rewrite Heq. apply list_elem_of_fmap.
      exists d'. split; [done|]. by eapply list_elem_of_lookup_2.
    + assert (i = length ds) as ->.
      { apply lookup_lt_Some in Hi. rewrite length_app in Hi. simpl in Hi. lia. }
      rewrite lookup_app_r in Hi by lia. rewrite Nat.sub_diag in Hi. injection Hi as <-.
      rewrite lookup_insert_eq, lookup_app_r by lia. by rewrite Hlen, Nat.sub_diag.
  - intros n Hn. rewrite fmap_app in Hn. rewrite lookup_insert_ne.
    + apply Hnone. intros ?. apply Hn. apply elem_of_app. by left.
    + intros <-. apply Hn. apply elem_of_app. right. simpl. left.
Qed.

Lemma import_bones_inv (cx : ImportContext) (cr : ChunkedReader) :
  forall h arm bonemat ds ts h' oarm' bonemat',
    keeps_free_names -> bones_inv ds ts arm bonemat ->
    import_bones cx cr h (Some arm) bonemat = Ok (h', oarm', bonemat') ->
    exists ds1, bone_headers cr = Ok ds1 /\
      (well_formed_bones (ds ++ ds1) ->
       exists ts1 arm', oarm' = Some arm' /\ bones_inv (ds ++ ds1) (ts ++ ts1) arm' bonemat').
Proof.
  induction cr as [|cid bdat rest IH|]; intros h arm bm ds ts h' oarm' bm' Hfree Hinv; simpl.
  - intros [= <- <- <-]. exists []. split; [done|]. intros _. exists [], arm.
    by rewrite !app_nil_r.
  - intros Hi. apply rbind_Ok in Hi as ([[h1 arm1] bm1] & Hb & Hi).
    apply import_bone_Ok in Hb as (d & arm0 & arm2 & Hd & [= <-] & Hm & Heb).
    rewrite Hd. cbn [rbind].
    destruct (decide (well_formed_bones (ds ++ [d]))) as [Hwf|Hnwf].
    + pose proof (bones_inv_step _ _ _ _ _ _ _ _ Hfree Hwf Hinv Hm Heb) as Hinv1.
      destruct (IH _ _ _ _ _ _ _ _ Hfree Hinv1 Hi) as (ds1 & -> & Hrest).
      exists (d :: ds1). split; [done|]. intros Hwf'.
      rewrite (cons_middle d ds ds1), app_assoc in Hwf'.
      destruct (Hrest Hwf') as (ts1 & arm' & -> & Hinv').
      exists (bind_matrix bm d :: ts1), arm'. split; [done|].
      by rewrite (cons_middle d ds ds1), (cons_middle _ ts ts1), !app_assoc.
    + assert (exists ds1, bone_headers rest = Ok ds1) as [ds1 Hds1].
      { clear -Hi. revert h1 arm1 bm1 Hi.
        induction rest as [|cid' bdat' rest' IH'|]; intros h1 arm1 bm1 Hi; simpl in *.
        - eauto.
        - apply rbind_Ok in Hi as ([[h2 arm2] bm2] & Hb & Hi).
          apply import_bone_Ok in Hb as (d' & _ & _ & -> & _). cbn [rbind].
          destruct (IH' _ _ _ Hi) as [ds' ->]. simpl. eauto.
        - done. }
      rewrite Hds1. exists (d :: ds1). split; [done|]. intros Hwf'. exfalso. apply Hnwf.
      rewrite (cons_middle d ds ds1), app_assoc in Hwf'.
      by apply well_formed_bones_app_l in Hwf'.
  - done.
Qed.

Lemma bones_inv_empty : bones_inv [] [] new_armature ∅.
Proof.
  unfold bones_inv, bind_ok. split_and!; done.
Qed.

(** The bones of a BONES chunk imported into a fresh armature. *)
Lemma import_bones_bind (cx : ImportContext) (cr : ChunkedReader) (h h' : host)
    (oarm' : option armature) (bonemat' : gmap string M) :
  keeps_free_names ->
  import_bones cx cr h (Some new_armature) ∅ = Ok (h', oarm', bonemat') ->
  exists ds, bone_headers cr = Ok ds /\
    (well_formed_bones ds ->
     exists ts arm',
       oarm' = Some arm' /\ bind_ok ds ts /\
       eb_head <$> edit_bones arm' = mat_origin <$> ts /\
       (forall i d, ds !! i = Some d -> bonemat' !! b_name d = ts !! i)).
Proof.
  intros Hfree Hi.
  destruct (import_bones_inv cx cr _ _ _ [] [] _ _ _ Hfree bones_inv_empty Hi)
    as (ds & Hds & Hwf).
  exists ds. split; [done|]. intros Hw. destruct (Hwf Hw) as (ts & arm' & -> & Hinv).
  simpl in Hinv. destruct Hinv as (_ & Hheads & Hbind & Hmat & _).
  by exists ts, arm'.
Qed.

Definition bone_tags : list N :=
  [Bone_DEF Bone; Bone_MATERIAL Bone; Bone_SHAPE Bone; Bone_IK_JOINT Bone;
   Bone_MASS_PARAMS Bone; Bone_IK_FLAGS Bone; Bone_BREAK_PARAMS Bone; Bone_FRICTION Bone].

Lemma import_bone_version (cx : ImportContext) (cr cr' : ChunkedReader) (h : host)
    (arm : option armature) (bonemat : gmap string M) (ver : N) :
  cr_nextf_H cr (Bone_VERSION Bone) = Ok (ver, cr') -> ver <> 0x2%N ->
  _import_bone cx cr h arm bonemat = Raise (UnsupportedVersion "BONE" ver).
Proof.
  intros Hv Hne. unfold _import_bone. rewrite Hv. cbn [rbind].
  by rewrite (proj2 (N.eqb_neq _ _) Hne).
Qed.

Lemma bone_chunks_unknown (name : string) (cid : N) (data : list byte)
    (rest : ChunkedReader) (h : host) (arm : armature) :
  cid ∉ bone_tags ->
  bone_chunks name (cr_chunk cid data rest) h arm
  = bone_chunks name rest (warn_imknown_chunk cid "bone" h) arm.
Proof.
  intros Hcid. simpl. unfold bone_chunk. unfold bone_tags in Hcid.
  repeat (rewrite decide_False; [|intros ->; apply Hcid; set_solver]). done.
Qed.

(** *** Textures: [ImportContext.image] (lines 19-24) *)

(** [str.lower], [os.path.sep] and [os.path.basename] belong to the platform;
    [readable path] tells whether the host can load the image at [path]. *)
Variable lower : string -> string.
Variable sep : ascii.
Variable basename : string -> string.
Variable readable : string -> bool.

(** [s.replace(a, b)] for single characters. *)
Fixpoint replace (a b : ascii) (s : string) : string :=
  match s with
  | EmptyString => EmptyString
  | String c s' => String (if decide (c = a) then b else c) (replace a b s')
  end.

Definition normalize (relpath : string) : string := replace "\" sep (lower relpath).

(** [ImportContext.__init__]. *)
Definition new_context (fpath gamedata : string) (bpy : bool) : ImportContext :=
  {| file_path := fpath; object_name := basename (lower fpath);
     gamedata_folder := gamedata; has_bpy := bpy; images := ∅ |}.

Definition with_images (x : gmap string nat) (cx : ImportContext) : ImportContext :=
  {| file_path := file_path cx; object_name := object_name cx;
     gamedata_folder := gamedata_folder cx; has_bpy := has_bpy cx; images := x |}.

(** [bpy.data.images.load(path)]: a new image at the end of the collection. *)
Definition images_load (h : host) (path : string) : result (nat * host) :=
  if readable path
  then Ok (length (data_images h), with_data_images (data_images h ++ [path]) h)
  else Raise RuntimeError.

Definition texture_path (cx : ImportContext) (relpath : string) : string :=
  gamedata_folder cx ++ "/textures/" ++ relpath ++ ".dds".

Definition image (cx : ImportContext) (h : host) (relpath : string)
  : result (nat * ImportContext * host) :=
  let relpath := normalize relpath in
  match images cx !! relpath with
  | Some result => Ok (result, cx, h)
  | None =>
      if has_bpy cx then
        let* (result, h) := images_load h (texture_path cx relpath) in
        Ok (result, with_images (<[relpath := result]> (images cx)) cx, h)
      else Raise AttributeError
  end.

(** Calls of [image] on one context, one after the other. *)
Fixpoint image_calls (cx : ImportContext) (h : host) (relpaths : list string)
  : result (list nat * ImportContext * host) :=
  match relpaths with
  | [] => Ok ([], cx, h)
  | p :: ps =>
      let* (r, cx, h) := image cx h p in
      let* (rs, cx, h) := image_calls cx h ps in
      Ok (r :: rs, cx, h)
  end.

(** *** [_import_main] (lines 226-353) *)

(** Lines 287-308 compute the tails of the bones from their heads, and lines
    350-353 give every polygon the image of its material: both only read and
    write host objects, and are parameters here. *)
Variable bone_tails : list EditBone -> list EditBone.
Variable assign_images : host -> list mesh -> result host.

(** An assignment to an attribute of [bpy_obj], which is [None] without the host. *)
Definition obj_attr (cx : ImportContext) (a : string) (v : value) (h : host) : result host :=
  if has_bpy cx then Ok (host_event a v h) else Raise AttributeError.

(** Lines 242-243. *)
Fixpoint import_meshes (cx : ImportContext) (cr : ChunkedReader) (h : host)
    (meshes : list mesh) : result (host * list mesh) :=
  match cr with
  | cr_end => Ok (h, meshes)
  | cr_malformed => Raise MalformedChunk
  | cr_chunk _ mdat rest =>
      let* (h, m) := _import_mesh cx (chunked_reader mdat) (object_name cx) h in
      import_meshes cx rest h (meshes ++ [m])
  end.

(** Lines 247-273: one surface. *)
Definition import_surface (st : PackedReader * ImportContext * host)
  : result (PackedReader * ImportContext * host) :=
  let '(pr, cx, h) := st in
  let* (n, pr) := gets pr in
  let* (eshader, pr) := gets pr in
  let* (cshader, pr) := gets pr in
  let* (gamemtl, pr) := gets pr in
  let* (texture, pr) := gets pr in
  let* (vmap, pr) := gets pr in
  let* (flags, pr) := get_I pr in
  let* (_, pr) := get_I pr in
  let* (_, pr) := get_I pr in
  if has_bpy cx && bool_decide (n ∈ data_materials h) then
    let h := host_event ("materials." ++ n ++ ".xray.flags") (v_int flags) h in
    let h := host_event ("materials." ++ n ++ ".xray.eshader") (v_str eshader) h in
    let h := host_event ("materials." ++ n ++ ".xray.cshader") (v_str cshader) h in
    let h := host_event ("materials." ++ n ++ ".xray.gamemtl") (v_str gamemtl) h in
    if decide (texture = "") then Ok (pr, cx, h)
    else
      let* (cx, h) :=
        if bool_decide (texture ∈ data_textures h) then Ok (cx, h)
        else
          let h := with_data_textures (data_textures h ++ [texture]) h in
          let* (img, cx, h) := image cx h texture in
          Ok (cx, host_event ("textures." ++ texture ++ ".image")
                    (v_int (N.of_nat img)) h) in
      let h := host_event ("materials." ++ n ++ ".texture_slots.add") (v_str texture) h in
      let h := host_event ("materials." ++ n ++ ".texture_slot.uv_layer") (v_str vmap) h in
      Ok (pr, cx, h)
  else Ok (pr, cx, h).

Fixpoint surface_loop (n : nat) (st : PackedReader * ImportContext * host)
  : result (PackedReader * ImportContext * host) :=
  match n with
  | 0 => Ok st
  | S n' => let* st := import_surface st in surface_loop n' st
  end.

(** Lines 341-343: the bones of a partition. *)
Fixpoint partition_bones (arm : armature) (group : string) (n : nat)
    (st : PackedReader * host) : result (PackedReader * host) :=
  match n with
  | 0 => Ok st
  | S n' =>
      let* (bn, pr) := gets st.1 in
      if bool_decide (bn ∈ bone_names arm)
      then partition_bones arm group n'
             (pr, host_event ("pose.bones." ++ bn ++ ".bone_group") (v_str group) st.2)
      else Raise KeyError
  end.

(** Lines 337-343: one bone partition. *)
Definition import_partition (arm : armature) (st : PackedReader * host)
  : result (PackedReader * host) :=
  let '(pr, h) := st in
  let* (name, pr) := gets pr in
  let h := host_event "pose.group_add" (v_str name) h in
  let* (cnt, pr) := get_I pr in
  partition_bones arm name (N.to_nat cnt) (pr, h).

Fixpoint partition_loop (arm : armature) (n : nat) (st : PackedReader * host)
  : result (PackedReader * host) :=
  match n with
  | 0 => Ok st
  | S n' => let* st := import_partition arm st in partition_loop arm n' st
  end.

(** The state of the loop of [_import_main]: the context, the host, [meshes]
    and [bpy_armature]. *)
Definition main_state : Type := ImportContext * host * list mesh * option armature.

(** The body of [for (cid, data) in cr], lines 241-349. *)
Definition main_chunk (cid : N) (data : list byte) (st : main_state) : result main_state :=
  let '(cx, h, meshes, arm) := st in
  let pr := {| data := data; offs := 0 |} in
  if decide (cid = Object_MESHES Object) then
    let* (h, meshes) := import_meshes cx (chunked_reader data) h meshes in
    Ok (cx, h, meshes, arm)
  else if decide (cid = Object_SURFACES2 Object) then
    let* (n, pr) := get_I pr in
    let* (_, cx, h) := surface_loop (N.to_nat n) (pr, cx, h) in
    Ok (cx, h, meshes, arm)
  else if decide (cid = Object_BONES1 Object) then
    let '(h, arm) :=
      match has_bpy cx, arm with
      | true, None => (host_event "armatures.new" (v_str (object_name cx)) h, Some new_armature)
      | _, _ => (h, arm)
      end in
    let* (h, arm, _) := import_bones cx (chunked_reader data) h arm ∅ in
    if has_bpy cx then
      let arm := (fun a => {| edit_bones := bone_tails (edit_bones a);
                              bone_attrs := bone_attrs a |}) <$> arm in
      Ok (cx, h, set_attr "modifiers.new" (v_str "Armature") <$> meshes, arm)
    else Raise AttributeError
  else if decide (cid = Object_TRANSFORM Object) then
    let* (pos, pr) := get_n get_f 3 pr in
    let* (rot, pr) := get_n get_f 3 pr in
    let* h := obj_attr cx "matrix_basis" (v_floats (pos ++ rot)) h in
    Ok (cx, h, meshes, arm)
  else if decide (cid = Object_FLAGS Object) then
    let* (flags, _) := get_I pr in
    let* h := obj_attr cx "xray.flags" (v_int flags) h in
    Ok (cx, h, meshes, arm)
  else if decide (cid = Object_USERDATA Object) then
    let* (s, _) := gets pr in
    let* h := obj_attr cx "xray.userdata" (v_str s) h in
    Ok (cx, h, meshes, arm)
  else if decide (cid = Object_LOD_REF Object) then
    let* (s, _) := gets pr in
    let* h := obj_attr cx "xray.lodref" (v_str s) h in
    Ok (cx, h, meshes, arm)
  else if decide (cid = Object_REVISION Object) then
    let* (owner, pr) := gets pr in
    let* h := obj_attr cx "xray.revision.owner" (v_str owner) h in
    let* (ctime, pr) := get_I pr in
    let* h := obj_attr cx "xray.revision.ctime" (v_int ctime) h in
    let* (moder, pr) := gets pr in
    let* h := obj_attr cx "xray.revision.moder" (v_str moder) h in
    let* (mtime, pr) := get_I pr in
    let* h := obj_attr cx "xray.revision.mtime" (v_int mtime) h in
    Ok (cx, h, meshes, arm)
  else if decide (cid = Object_PARTITIONS1 Object) then
    let* a := of_option UnboundLocalError arm in
    if has_bpy cx then
      let* (n, pr) := get_I pr in
      let* (_, h) := partition_loop a (N.to_nat n) (pr, h) in
      Ok (cx, h, meshes, arm)
    else Raise AttributeError
  else if decide (cid = Object_MOTION_REFS Object) then
    let* (s, _) := gets pr in
    let* h := obj_attr cx "xray.motionrefs" (v_str s) h in
    Ok (cx, h, meshes, arm)
  else
    Ok (cx, warn_imknown_chunk cid "main" h, meshes, arm).

Fixpoint main_chunks (cr : ChunkedReader) (st : main_state) : result main_state :=
  match cr with
  | cr_end => Ok st
  | cr_malformed => Raise MalformedChunk
  | cr_chunk cid data rest =>
      let* st := main_chunk cid data st in
      main_chunks rest st
  end.

Definition _import_main (cx : ImportContext) (cr : ChunkedReader) (h : host)
  : result main_state :=
  let* (ver, cr) := cr_nextf_H cr (Object_VERSION Object) in
  if negb (ver =? 0x10)%N then Raise (UnsupportedVersion "OBJECT" ver)
  else
    let h := if has_bpy cx then host_event "objects.new" (v_str (object_name cx)) h else h in
    let* (cx, h, meshes, arm) := main_chunks cr (cx, h, [], None) in
    let* h := assign_images h meshes in
    Ok (cx, h, meshes, arm).

(** *** [_import] and [import_file] (lines 356-366) *)

(** The meshes and the armature an object leaves in the scene. *)
Definition scene : Type := list (list mesh * option armature).

Fixpoint _import (cx : ImportContext) (cr : ChunkedReader) (h : host) (sc : scene)
  : result (ImportContext * host * scene) :=
  match cr with
  | cr_end => Ok (cx, h, sc)
  | cr_malformed => Raise MalformedChunk
  | cr_chunk cid data rest =>
      let* (cx, h, sc) :=
        if decide (cid = Object_MAIN Object)
        then
          let* (cx, h, meshes, arm) := _import_main cx (chunked_reader data) h in
          Ok (cx, h, sc ++ [(meshes, arm)])
        else Ok (cx, warn_imknown_chunk cid "root" h, sc) in
      _import cx rest h sc
  end.

(** [import_file] on the bytes of the file at [cx.file_path]. *)
Definition import_file (cx : ImportContext) (file : list byte) (h : host)
  : result (ImportContext * host * scene) :=
  _import cx (chunked_reader file) h [].

Definition main_tags : list N :=
  [Object_MESHES Object; Object_SURFACES2 Object; Object_BONES1 Object;
   Object_TRANSFORM Object; Object_FLAGS Object; Object_USERDATA Object;
   Object_LOD_REF Object; Object_REVISION Object; Object_PARTITIONS1 Object;
   Object_MOTION_REFS Object].

Lemma import_main_version (cx : ImportContext) (cr cr' : ChunkedReader) (h : host) (ver : N) :
  cr_nextf_H cr (Object_VERSION Object) = Ok (ver, cr') -> ver <> 0x10%N ->
  _import_main cx cr h = Raise (UnsupportedVersion "OBJECT" ver).
Proof.
  intros Hv Hne. unfold _import_main. rewrite Hv. cbn [rbind].
  by rewrite (proj2 (N.eqb_neq _ _) Hne).
Qed.

Lemma main_chunks_unknown (cid : N) (data : list byte) (rest : ChunkedReader)
    (cx : ImportContext) (h : host) (meshes : list mesh) (arm : option armature) :
  cid ∉ main_tags ->
  main_chunks (cr_chunk cid data rest) (cx, h, meshes, arm)
  = main_chunks rest (cx, warn_imknown_chunk cid "main" h, meshes, arm).
Proof.
  intros Hcid. simpl. unfold main_tags in Hcid.
  repeat (rewrite decide_False; [|intros ->; apply Hcid; set_solver]). done.
Qed.

Lemma import_unknown (cid : N) (data : list byte) (rest : ChunkedReader)
    (cx : ImportContext) (h : host) (sc : scene) :
  cid <> Object_MAIN Object ->
  _import cx (cr_chunk cid data rest) h sc
  = _import cx rest (warn_imknown_chunk cid "root" h) sc.
Proof. intros Hcid. simpl. by rewrite decide_False. Qed.

(** *** The image cache *)

Lemma image_cached (cx : ImportContext) (h : host) (relpath : string) (img : nat) :
  images cx !! normalize relpath = Some img -> image cx h relpath = Ok (img, cx, h).
Proof. intros Hc. unfold image. by rewrite Hc. Qed.

(** A call that returns leaves its result in the cache and keeps what the
    cache held. *)
Lemma image_Ok (cx cx' : ImportContext) (h h' : host) (relpath : string) (img : nat) :
  image cx h relpath = Ok (img, cx', h') ->
  images cx' !! normalize relpath = Some img /\
  (forall p i, images cx !! p = Some i -> images cx' !! p = Some i) /\
  (images cx !! normalize relpath = None ->
   data_images h' = data_images h ++ [texture_path cx (normalize relpath)]) /\
  (is_Some (images cx !! normalize relpath) -> cx' = cx /\ h' = h).
Proof.
  unfold image. destruct (images cx !! normalize relpath) as [i|] eqn:Hc.
  - intros [= <- <- <-]. split_and!; try done.
  - destruct (has_bpy cx); [|done]. unfold images_load.
    destruct (readable _); [|done]. simpl. intros [= <- <- <-]. simpl. split_and!.
    + by rewrite lookup_insert_eq.
    + intros p i Hp. rewrite lookup_insert_ne; [done|congruence].
    + done.
    + by intros [? [=]].
Qed.

Lemma image_calls_keep (ps : list string) : forall cx h rs cx' h' p i,
  image_calls cx h ps = Ok (rs, cx', h') ->
  images cx !! p = Some i -> images cx' !! p = Some i.
Proof.
  induction ps as [|q ps IH]; intros cx h rs cx' h' p i; simpl.
  - by intros [= _ <- _].
  - intros Hr Hp. apply rbind_Ok in Hr as ([[r cx1] h1] & Hq & Hr).
    apply rbind_Ok in Hr as ([[rs1 cx2] h2] & Hps & Hr). injection Hr as _ <- _.
    apply image_Ok in Hq as (_ & Hkeep & _). eapply IH; [done|by apply Hkeep].
Qed.

(** The lookup is idempotent on a context: once a call has returned for a
    path, every later call on that context with a path of the same normal
    form returns the same image, and changes neither the context nor the
    host: it loads nothing. *)
Lemma image_idempotent (cx cx1 cx2 : ImportContext) (h h1 h2 : host)
    (p1 p2 : string) (between : list string) (img : nat) (rs : list nat) :
  image cx h p1 = Ok (img, cx1, h1) ->
  image_calls cx1 h1 between = Ok (rs, cx2, h2) ->
  normalize p1 = normalize p2 ->
  image cx2 h2 p2 = Ok (img, cx2, h2).
Proof.
  intros H1 Hb Hn. apply image_Ok in H1 as (Hc & _).
  apply image_cached. rewrite <- Hn. by eapply image_calls_keep.
Qed.

(** The cache belongs to the context: a new context loads the image whatever
    the host holds already. *)
Lemma image_new_context (fpath gamedata : string) (h : host) (relpath : string) :
  let cx := new_context fpath gamedata true in
  readable (texture_path cx (normalize relpath)) = true ->
  image cx h relpath
  = Ok (length (data_images h),
        with_images {[normalize relpath := length (data_images h)]} cx,
        with_data_images (data_images h ++ [texture_path cx (normalize relpath)]) h).
Proof.
  intros cx Hr. unfold image. simpl. rewrite lookup_empty. unfold images_load.
  rewrite Hr. simpl. by rewrite insert_empty.
Qed.

Lemma image_gamedata_folder (cx cx' : ImportContext) (h h' : host) (p : string) (img : nat) :
  image cx h p = Ok (img, cx', h') -> gamedata_folder cx' = gamedata_folder cx.
Proof.
  unfold image. destruct (images cx !! normalize p); [by intros [= _ <- _]|].
  destruct (has_bpy cx); [|done]. unfold images_load. destruct (readable _); [|done].
  simpl. by intros [= _ <- _].
Qed.

(** What a run of calls loads: the texture files of pairwise distinct paths in
    normal form, none of which was in the cache. *)
Lemma image_calls_loads (ps : list string) : forall cx h rs cx' h',
  image_calls cx h ps = Ok (rs, cx', h') ->
  exists loaded,
    NoDup loaded /\
    (forall p, p ∈ loaded -> images cx !! p = None /\ p ∈ normalize <$> ps) /\
    data_images h' = data_images h ++ (texture_path cx <$> loaded).
Proof.
  induction ps as [|q ps IH]; intros cx h rs cx' h'; simpl.
  - intros [= _ <- <-]. exists []. split_and!; [constructor| |by rewrite app_nil_r].
    intros p Hp. by apply elem_of_nil in Hp.
  - intros Hr. apply rbind_Ok in Hr as ([[r cx1] h1] & Hq & Hr).
    apply rbind_Ok in Hr as ([[rs1 cx2] h2] & Hps & Hr). injection Hr as _ <- <-.
    pose proof (image_gamedata_folder _ _ _ _ _ _ Hq) as Hg.
    apply image_Ok in Hq as (Hcached & Hkeep & Hload & Hsame).
    destruct (IH _ _ _ _ _ Hps) as (loaded & Hnd & Hin & Hdata).
    assert (texture_path cx1 = texture_path cx) as Htp.
    { unfold texture_path. by rewrite Hg. }
    rewrite Htp in Hdata.
    destruct (images cx !! normalize q) as [i|] eqn:Hc.
    + destruct Hsame as [-> ->]; [done|]. exists loaded. split_and!; try done.
      intros p Hp. destruct (Hin p Hp) as [? ?]. split; [done|by right].
    + exists (normalize q :: loaded). split_and!.
      * apply NoDup_cons. split; [|done]. intros Hq'. destruct (Hin _ Hq') as [Hn _].
        congruence.
      * intros p Hp. apply elem_of_cons in Hp as [->|Hp]; [split; [done|by left]|].
        destruct (Hin p Hp) as [Hn ?]. split; [|by right].
        destruct (images cx !! p) as [i|] eqn:Hp'; [|done].
        apply Hkeep in Hp'. congruence.
      * rewrite Hdata, Hload by done. by rewrite <- app_assoc.
Qed.

(** C10.  [ImportContext.image] on one context: once a call has returned for a
    path, a later call with a path of the same normal form (lower case,
    backslashes replaced by the separator) returns the same image and changes
    neither the context nor the host, whatever calls come between; the files
    loaded by a run of calls are those of pairwise distinct normal forms, so
    that no normal form is loaded twice; and the cache belongs to the
    context: a new context starts with an empty one and loads the image
    whatever the host holds already. *)
Theorem image_cache_per_context :
  (forall cx cx1 cx2 h h1 h2 p1 p2 between img rs,
     image cx h p1 = Ok (img, cx1, h1) ->
     image_calls cx1 h1 between = Ok (rs, cx2, h2) ->
     normalize p1 = normalize p2 ->
     image cx2 h2 p2 = Ok (img, cx2, h2)) /\
  (forall cx h ps rs cx' h',
     image_calls cx h ps = Ok (rs, cx', h') ->
     exists loaded,
       NoDup loaded /\
       (forall p, p ∈ loaded -> images cx !! p = None /\ p ∈ normalize <$> ps) /\
       data_images h' = data_images h ++ (texture_path cx <$> loaded)) /\
  (forall fpath gamedata h relpath,
     let cx := new_context fpath gamedata true in
     images cx = ∅ /\
     (readable (texture_path cx (normalize relpath)) = true ->
      image cx h relpath
      = Ok (length (data_images h),
            with_images {[normalize relpath := length (data_images h)]} cx,
            with_data_images (data_images h ++ [texture_path cx (normalize relpath)]) h))).
Proof.
  split_and!.
  - intros. by eapply image_idempotent.
  - intros. by eapply image_calls_loads.
  - intros fpath gamedata h relpath cx. split; [done|]. apply image_new_context.
Qed.

(** C6.  The version word of a mesh, a bone and the object is compared with
    the one supported value (0x11, 0x2, 0x10): any other value raises the
    unsupported-version error, which carries the value read, whatever follows
    in the record.  A chunk whose tag no branch recognizes raises nothing: the
    console gets the warning with the tag and the place, as its last line,
    nothing else of the host changes, and the loop goes on with the next
    chunk, in meshes, bones, the object and at the root. *)
Theorem version_mismatch_fatal_unknown_tag_skipped :
  (forall cx cr cr' parent h ver,
     cr_nextf_H cr (Mesh_VERSION Mesh) = Ok (ver, cr') -> ver <> 0x11%N ->
     _import_mesh cx cr parent h = Raise (UnsupportedVersion "MESH" ver)) /\
  (forall cx cr cr' h arm bonemat ver,
     cr_nextf_H cr (Bone_VERSION Bone) = Ok (ver, cr') -> ver <> 0x2%N ->
     _import_bone cx cr h arm bonemat = Raise (UnsupportedVersion "BONE" ver)) /\
  (forall cx cr cr' h ver,
     cr_nextf_H cr (Object_VERSION Object) = Ok (ver, cr') -> ver <> 0x10%N ->
     _import_main cx cr h = Raise (UnsupportedVersion "OBJECT" ver)) /\
  (forall cx cid data rest h m,
     cid ∉ mesh_tags ->
     mesh_chunks cx (cr_chunk cid data rest) h m
     = mesh_chunks cx rest (warn_imknown_chunk cid "mesh" h) m) /\
  (forall name cid data rest h arm,
     cid ∉ bone_tags ->
     bone_chunks name (cr_chunk cid data rest) h arm
     = bone_chunks name rest (warn_imknown_chunk cid "bone" h) arm) /\
  (forall cid data rest cx h meshes arm,
     cid ∉ main_tags ->
     main_chunks (cr_chunk cid data rest) (cx, h, meshes, arm)
     = main_chunks rest (cx, warn_imknown_chunk cid "main" h, meshes, arm)) /\
  (forall cid data rest cx h sc,
     cid <> Object_MAIN Object ->
     _import cx (cr_chunk cid data rest) h sc
     = _import cx rest (warn_imknown_chunk cid "root" h) sc) /\
  (forall cid location h,
     console (warn_imknown_chunk cid location h)
     = console h ++ [unknown_chunk cid location] /\
     data_materials (warn_imknown_chunk cid location h) = data_materials h /\
     data_textures (warn_imknown_chunk cid location h) = data_textures h /\
     data_images (warn_imknown_chunk cid location h) = data_images h /\
     events (warn_imknown_chunk cid location h) = events h) /\
  (forall cx cid data h m h' m',
     cid ∉ mesh_tags ->
     mesh_chunks cx (cr_chunk cid data cr_end) h m = Ok (h', m') ->
     m' = m /\ console h' = console h ++ [unknown_chunk cid "mesh"]).
Proof.
  split_and!.
  - intros. by eapply import_mesh_version.
  - intros. by eapply import_bone_version.
  - intros. by eapply import_main_version.
  - intros. by apply mesh_chunks_unknown.
  - intros. by apply bone_chunks_unknown.
  - intros. by apply main_chunks_unknown.
  - intros. by apply import_unknown.
  - intros cid location h. by split_and!.
  - intros cx cid data h m h' m' Hcid. rewrite mesh_chunks_unknown by done.
    cbn [mesh_chunks]. by intros [= <- <-].
Qed.


(** *** Bind transforms, whatever the names of the bones *)

(** The transform that comes into bone [i] of the chunk, whose parent is named
    [parent]: the transform of the latest earlier bone of the chunk of that
    name, and the identity when the chunk has no earlier bone of that name:
    [bonemat.get(parent, Identity)] on the [bonemat] of the chunk. *)
Definition incoming (ds : list bone_def) (ts : list M) (i : nat) (parent : string) (P : M)
  : Prop :=
  (exists j dj, j < i /\ ds !! j = Some dj /\ b_name dj = parent /\ ts !! j = Some P /\
                forall j' dj', j < j' < i -> ds !! j' = Some dj' -> b_name dj' <> parent) \/
  (P = mat_identity /\ forall j dj, j < i -> ds !! j = Some dj -> b_name dj <> parent).

(** [bonemat] after the bones [ds], of transforms [ts]. *)
Definition trace_inv (ds : list bone_def) (ts : list M) (bonemat : gmap string M) : Prop :=
  length ts = length ds /\
  (forall i d t, ds !! i = Some d -> ts !! i = Some t ->
     exists P,
       t = mat_mul (mat_mul P (mat_translation (b_offset d))) (mat_euler_zxy (b_rotate d)) /\
       incoming ds ts i (b_parent d) P) /\
  (forall i d, ds !! i = Some d ->
     (forall j dj, i < j -> ds !! j = Some dj -> b_name dj <> b_name d) ->
     bonemat !! b_name d = ts !! i) /\
  (forall n, n ∉ b_name <$> ds -> bonemat !! n = None).

Lemma trace_inv_empty : trace_inv [] [] ∅.
Proof. unfold trace_inv. split_and!; done. Qed.

Lemma last_named (ds : list bone_def) (n : string) :
  n ∈ b_name <$> ds ->
  exists j dj, ds !! j = Some dj /\ b_name dj = n /\
               forall j' dj', j < j' -> ds !! j' = Some dj' -> b_name dj' <> n.
Proof.
  induction ds as [|d ds IH] using rev_ind; [by intros ?%elem_of_nil|].
  rewrite fmap_app, elem_of_app. intros Hin.
  destruct (decide (b_name d = n)) as [Hd|Hd].
  - exists (length ds), d. split_and!; [by rewrite lookup_app_r, Nat.sub_diag by lia|done|].
    intros j' dj' Hj' Hl. apply lookup_lt_Some in Hl. rewrite length_app in Hl.
    simpl in Hl. lia.
  - destruct Hin as [Hin|Hin]; [|apply list_elem_of_singleton in Hin; congruence].
    destruct (IH Hin) as (j & dj & Hj & Hn & Hlast).
    pose proof (lookup_lt_Some _ _ _ Hj) as Hlt.
    exists j, dj. split_and!; [by rewrite lookup_app_l|done|].
    intros j' dj' Hj' Hl. destruct (decide (j' < length ds)) as [Hin'|Hout].
    + rewrite lookup_app_l in Hl by done. by eapply Hlast.
    + pose proof (lookup_lt_Some _ _ _ Hl) as Hlt'. rewrite length_app in Hlt'.
      simpl in Hlt'. assert (j' = length ds) as -> by lia.
      rewrite lookup_app_r, Nat.sub_diag in Hl by lia. by injection Hl as <-.
Qed.

Lemma incoming_app (ds ds1 : list bone_def) (ts ts1 : list M) (i : nat) (parent : string)
    (P : M) :
  length ts = length ds -> i <= length ds ->
  incoming ds ts i parent P -> incoming (ds ++ ds1) (ts ++ ts1) i parent P.
Proof.
  intros Hlen Hi [(j & dj & Hj & Hdj & Hn & Htj & Hlast)|[-> Hnone]]; [left|right].
  - exists j, dj. split_and!; try done.
    + by rewrite lookup_app_l by lia.
    + by rewrite lookup_app_l by lia.
    + intros j' dj' Hj' Hl. rewrite lookup_app_l in Hl by lia. by eapply Hlast.
  - split; [done|]. intros j dj Hj Hl. rewrite lookup_app_l in Hl by lia. by eapply Hnone.
Qed.

Lemma trace_inv_step (ds : list bone_def) (ts : list M) (bonemat : gmap string M)
    (d : bone_def) :
  trace_inv ds ts bonemat ->
  trace_inv (ds ++ [d]) (ts ++ [bind_matrix bonemat d])
            (<[b_name d := bind_matrix bonemat d]> bonemat).
Proof.
  intros (Hlen & Hbind & Hlast & Hnone). unfold trace_inv. split_and!.
  - rewrite !length_app. simpl. lia.
  - intros i d' t Hi Ht. destruct (decide (i < length ds)) as [Hlt|Hge].
    + rewrite lookup_app_l in Hi by done. rewrite lookup_app_l in Ht by lia.
      destruct (Hbind _ _ _ Hi Ht) as (P & HP & Hin). exists P. split; [done|].
      apply incoming_app; [done|lia|done].
    + pose proof (lookup_lt_Some _ _ _ Hi) as Hlt. rewrite length_app in Hlt. simpl in Hlt.
      assert (i = length ds) as -> by lia.
      rewrite lookup_app_r, Nat.sub_diag in Hi by lia. injection Hi as <-.
      rewrite lookup_app_r, Hlen, Nat.sub_diag in Ht by lia. injection Ht as <-.
      exists (default mat_identity (bonemat !! b_parent d)). split; [done|].
      apply incoming_app; [done|lia|].
      destruct (decide (b_parent d ∈ b_name <$> ds)) as [Hp|Hp].
      * destruct (last_named _ _ Hp) as (j & dj & Hj & Hn & Hl).
        pose proof (lookup_lt_Some _ _ _ Hj) as Hjlt.
        destruct (lookup_lt_is_Some_2 ts j) as [P HP]; [lia|].
        left. exists j, dj. split_and!; try done.
        -- rewrite HP. f_equal. rewrite <- Hn, (Hlast j dj Hj), HP; [done|].
           intros j' dj' Hj' Hl'. rewrite Hn. by eapply Hl.
        -- intros j' dj' [Hj' _] Hl'. by eapply Hl.
      * right. rewrite (Hnone _ Hp). split; [done|]. intros j dj _ Hj Hn. apply Hp.
        apply list_elem_of_fmap. exists dj. split; [done|]. by eapply list_elem_of_lookup_2.
  - intros i d' Hi Hlater. destruct (decide (i < length ds)) as [Hlt|Hge].
    + rewrite lookup_app_l in Hi by done. rewrite lookup_app_l by lia.
      rewrite lookup_insert_ne.
      * apply Hlast; [done|]. intros j dj Hj Hl. apply (Hlater j dj Hj).
        rewrite lookup_app_l; [done|]. by eapply lookup_lt_Some.
      * apply (Hlater (length ds) d); [done|]. by rewrite lookup_app_r, Nat.sub_diag by lia.
    + pose proof (lookup_lt_Some _ _ _ Hi) as Hlt. rewrite length_app in Hlt. simpl in Hlt.
      assert (i = length ds) as -> by lia.
      rewrite lookup_app_r, Nat.sub_diag in Hi by lia. injection Hi as <-.
      by rewrite lookup_insert_eq, lookup_app_r, Hlen, Nat.sub_diag by lia.
  - intros n Hn. rewrite fmap_app, elem_of_app in Hn. rewrite lookup_insert_ne.
    + apply Hnone. intros Hin. apply Hn. by left.
    + intros <-. apply Hn. right. simpl. left.
Qed.

Lemma import_bones_trace (cx : ImportContext) (cr : ChunkedReader) :
  forall h arm bonemat ds ts h' oarm' bonemat',
    trace_inv ds ts bonemat ->
    import_bones cx cr h (Some arm) bonemat = Ok (h', oarm', bonemat') ->
    exists ds1 ts1 arm' new,
      bone_headers cr = Ok ds1 /\ length ts1 = length ds1 /\
      trace_inv (ds ++ ds1) (ts ++ ts1) bonemat' /\
      oarm' = Some arm' /\ edit_bones arm' = edit_bones arm ++ new /\
      eb_head <$> new = mat_origin <$> ts1.
Proof.
  induction cr as [|cid bdat rest IH|]; intros h arm bm ds ts h' oarm' bm' Hinv;
    cbn [import_bones bone_headers].
  - intros [= <- <- <-]. exists [], [], arm, []. by rewrite !app_nil_r.
  - intros Hi. apply rbind_Ok in Hi as ([[h1 arm1] bm1] & Hb & Hi).
    apply import_bone_Ok in Hb as (d & arm0 & arm2 & Hd & [= <-] & Hm & Heb).
    rewrite Hd. cbn [rbind].
    apply make_bone_Ok in Hm as (-> & [parent Hbones] & _).
    pose proof (trace_inv_step _ _ _ d Hinv) as Hinv1.
    destruct (IH _ _ _ _ _ _ _ _ Hinv1 Hi)
      as (ds1 & ts1 & arm' & new & -> & Hlen & Hinv' & -> & Hnew & Hheads).
    cbn [rbind].
    eexists (d :: ds1), (bind_matrix bm d :: ts1), arm', (_ :: new).
    split_and!; try done.
    + cbn [length]. by rewrite Hlen.
    + by rewrite (cons_middle d ds ds1), (cons_middle _ ts ts1), !app_assoc.
    + by rewrite Hnew, Heb, Hbones, <- app_assoc.
    + by rewrite !fmap_cons, Hheads.
  - done.
Qed.

(** C8.  The bones of a BONES1 chunk, imported in file order, whatever the
    armature they are added to: the bind transform of every bone is
    [P * Translation(offset) * EulerZXY(rotation)], where [P] is the bind
    transform of the latest earlier bone of the chunk that has the name given
    as parent, and the identity when the chunk has no earlier bone of that
    name; so for a bone without parent, as long as no earlier bone has the
    empty name, but also for a bone whose parent was imported from an earlier
    chunk or is the bone itself.  The head of each new bone is the origin of
    its transform, and [bonemat] holds for a name the transform of the last
    bone of the chunk of that name. *)
Theorem bind_transform_composition (cx : ImportContext) (cr : ChunkedReader) (h h' : host)
    (oarm oarm' : option armature) (bonemat' : gmap string M) :
  import_bones cx cr h oarm ∅ = Ok (h', oarm', bonemat') ->
  exists ds ts,
    bone_headers cr = Ok ds /\ length ts = length ds /\
    (forall i d t, ds !! i = Some d -> ts !! i = Some t ->
       exists P,
         t = mat_mul (mat_mul P (mat_translation (b_offset d)))
                     (mat_euler_zxy (b_rotate d)) /\
         ((exists j dj,
             j < i /\ ds !! j = Some dj /\ b_name dj = b_parent d /\ ts !! j = Some P /\
             forall j' dj', j < j' < i -> ds !! j' = Some dj' ->
                            b_name dj' <> b_parent d) \/
          (P = mat_identity /\
           forall j dj, j < i -> ds !! j = Some dj -> b_name dj <> b_parent d))) /\
    (forall arm, oarm = Some arm ->
       exists arm' new,
         oarm' = Some arm' /\ edit_bones arm' = edit_bones arm ++ new /\
         eb_head <$> new = mat_origin <$> ts) /\
    (forall i d, ds !! i = Some d ->
       (forall j dj, i < j -> ds !! j = Some dj -> b_name dj <> b_name d) ->
       bonemat' !! b_name d = ts !! i) /\
    (forall n, n ∉ b_name <$> ds -> bonemat' !! n = None).
Proof.
  destruct oarm as [arm|].
  - intros Hi.
    destruct (import_bones_trace cx cr _ _ _ [] [] _ _ _ trace_inv_empty Hi)
      as (ds & ts & arm' & new & Hds & Hlen & (_ & Hbind & Hlast & Hnone) & -> & Hnew & Hheads).
    exists ds, ts. split_and!; try done.
    intros arm0 [= <-]. by exists arm', new.
  - destruct cr as [|cid bdat rest|]; cbn [import_bones bone_headers]; [|intros Hi|done].
    + intros [= <- <- <-]. exists [], []. split_and!; done.
    + apply rbind_Ok in Hi as ([[h1 arm1] bm1] & Hb & _).
      by apply import_bone_Ok in Hb as (d & arm0 & arm2 & _ & [=] & _).
Qed.

Lemma import_vmap_weights_discon (pr pr1 pr2 pr3 pr4 pr5 : PackedReader) (m : mesh)
    (n : string) (dim dc tb sz : N) :
  gets pr = Ok (n, pr1) -> get_B pr1 = Ok (dim, pr2) ->
  get_B pr2 = Ok (dc, pr3) -> dc <> 0%N ->
  get_B pr3 = Ok (tb, pr4) -> N.land tb 3 = 1%N ->
  get_I pr4 = Ok (sz, pr5) -> N.to_nat sz * 12 <= length (remaining pr5) ->
  import_vmap (pr, m)
  = Ok (advance pr5 (N.to_nat sz * 12), with_vertex_groups (vertex_groups m ++ [n]) m).
Proof.
  intros Hn Hdim Hdc Hdcne Htb Htyp Hsz Hlen. unfold import_vmap.
  rewrite Hn. cbn [rbind]. rewrite Hdim. cbn [rbind]. rewrite Hdc. cbn [rbind].
  rewrite Htb. cbn [rbind]. rewrite Hsz. cbn [rbind]. rewrite Htyp.
  cbn [N.eqb Pos.eqb]. rewrite (proj2 (N.eqb_neq _ _) Hdcne). cbn [negb].
  by apply vmap_weights_discon.
Qed.

(** C9.  A weight map (type 1) with the disconnected flag set, in a buffer
    that holds its [sz] weights, vertex indices and face indices: the decoder
    reads past the three arrays and raises nothing; the deform weights, the
    vertices and the faces of the mesh are what they were (the vertex group
    of the map is added, empty).  Whenever the decoding of such a map
    returns, nothing else has changed.  A connected weight map is the one
    that assigns its weights. *)
Theorem disconnected_weights_not_applied :
  (forall pr pr1 pr2 pr3 pr4 pr5 m n dim dc tb sz,
     gets pr = Ok (n, pr1) -> get_B pr1 = Ok (dim, pr2) ->
     get_B pr2 = Ok (dc, pr3) -> dc <> 0%N ->
     get_B pr3 = Ok (tb, pr4) -> N.land tb 3 = 1%N ->
     get_I pr4 = Ok (sz, pr5) -> N.to_nat sz * 12 <= length (remaining pr5) ->
     exists m',
       import_vmap (pr, m) = Ok (advance pr5 (N.to_nat sz * 12), m') /\
       deform m' = deform m /\ verts m' = verts m /\ bmfaces m' = bmfaces m /\
       vertex_groups m' = vertex_groups m ++ [n]) /\
  (forall n sz pr pr' m m',
     vmap_weights n true sz pr m = Ok (pr', m') ->
     m' = with_vertex_groups (vertex_groups m ++ [n]) m /\ deform m' = deform m) /\
  (forall n sz pr pr' m m',
     vmap_weights n false sz pr m = Ok (pr', m') ->
     exists wgs vtx pr1,
       get_n get_f sz pr = Ok (wgs, pr1) /\ get_n get_I sz pr1 = Ok (vtx, pr') /\
       deform m' = apply_weights (length (vertex_groups m)) (deform m) (zip wgs vtx)).
Proof.
  split_and!.
  - intros pr pr1 pr2 pr3 pr4 pr5 m n dim dc tb sz Hn Hdim Hdc Hne Htb Htyp Hsz Hlen.
    eexists. split; [by eapply import_vmap_weights_discon|]. done.
  - intros n sz pr pr' m m' Hw. apply vmap_weights_discon_Ok in Hw as ->. done.
  - intros. by eapply vmap_weights_con_Ok.
Qed.

(** *** The smoothing groups and the face slots *)

Lemma get_n_length {A : Type} (get : PackedReader -> result (A * PackedReader)) :
  forall n pr xs pr', get_n get n pr = Ok (xs, pr') -> length xs = n.
Proof.
  induction n as [|n IH]; intros pr xs pr'; cbn [get_n]; [by intros [= <- _]|].
  intros Hg. apply rbind_Ok in Hg as ([x pr1] & _ & Hg).
  apply rbind_Ok in Hg as ([xs' pr2] & Hn & Hg). injection Hg as <- _.
  cbn [length]. f_equal. by eapply IH.
Qed.

Lemma sg_face_Ok (fi : nat) (sg : N) (m m' : mesh) (edict edict' : gmap BMEdge N) :
  sg_face fi sg m edict = Ok (m', edict') ->
  fi < length (bmfaces m) /\ length (bmfaces m') = length (bmfaces m).
Proof.
  unfold sg_face. destruct (bmfaces m !! fi) as [[bmf|]|] eqn:Hf; [| |done].
  - intros [= <- _]. split; [by eapply lookup_lt_Some|].
    cbn [with_seam with_bmfaces bmfaces]. by rewrite length_insert.
  - intros [= <- _]. split; [by eapply lookup_lt_Some|done].
Qed.

Lemma sg_face_raise (fi : nat) (sg : N) (m : mesh) (edict : gmap BMEdge N) (e : error) :
  sg_face fi sg m edict = Raise e -> e = IndexError.
Proof.
  unfold sg_face. destruct (bmfaces m !! fi) as [[bmf|]|]; [done|done|]. by intros [= <-].
Qed.

(** More groups than face slots: the loop runs out of slots. *)
Lemma sg_loop_overrun (sgs : list N) : forall fi m edict,
  fi <= length (bmfaces m) -> length (bmfaces m) < fi + length sgs ->
  sg_loop fi sgs m edict = Raise IndexError.
Proof.
  induction sgs as [|sg sgs IH]; intros fi m edict Hfi Hlen; cbn [length] in Hlen; [lia|].
  cbn [sg_loop]. destruct (sg_face fi sg m edict) as [[m1 edict1]|e] eqn:Hf; cbn [rbind].
  - apply sg_face_Ok in Hf as [Hlt Heq]. apply IH; lia.
  - by rewrite (sg_face_raise _ _ _ _ _ Hf).
Qed.

(** What the smoothing groups leave alone in a face. *)
Definition face_data (o : option BMFace)
  : option (list nat * nat * gmap (string * nat) (F * F)) :=
  (fun f => (f_verts f, f_material_index f, f_uv f)) <$> o.

(** X4.  The SG chunk (lines 63-82) holds one group per four bytes of its
    payload, for the face slots in order.  With at most as many groups as the
    mesh has face slots the chunk is imported: the vertices, the weights, the
    materials, the vertices, material and UV of every face and the null slots
    stay what they were, and no seam or sharp mark is removed.  With more
    groups than face slots, as when the chunk comes before the faces, the
    import raises IndexError. *)
Theorem sg_chunk_needs_face_slots (data : list byte) (m : mesh) :
  (length data / 4 <= length (bmfaces m) ->
   exists m', import_sg data m = Ok m' /\
     face_data <$> bmfaces m' = face_data <$> bmfaces m /\
     verts m' = verts m /\ deform m' = deform m /\ materials m' = materials m /\
     vertex_groups m' = vertex_groups m /\ uv_layers m' = uv_layers m /\
     seam m ⊆ seam m' /\ sharp m ⊆ sharp m') /\
  (length (bmfaces m) < length data / 4 -> import_sg data m = Raise IndexError).
Proof.
  set (pr := {| data := data; offs := 0 |}).
  destruct (get_n_enough get_I 4 get_I_enough (length data / 4) pr) as (sgs & Hsgs & Hlen).
  { unfold remaining. cbn [pr Codec.data offs drop]. rewrite Nat.mul_comm.
    apply Nat.Div0.mul_div_le. }
  unfold import_sg. fold pr. rewrite Hsgs. cbn [rbind]. rewrite <- Hlen. split.
  - intros Hfit. set (m0 := set_attr "bo_mesh.modifiers.new" _ m).
    destruct (sg_loop_spec sgs 0 m0 ∅ Hfit)
      as (m' & Hrun & Hs & Hh & Hf & Hv & Hd & Hm & Hg & Hu).
    exists m'. split_and!; try done.
    + apply list_eq. intros j. rewrite !list_lookup_fmap, Hf.
      change (bmfaces m0) with (bmfaces m).
      case_decide; [|done]. by destruct (bmfaces m !! j) as [[f|]|].
    + intros e He. rewrite Hs. apply run_seam. by left.
    + intros e He. rewrite Hh. apply run_sharp. by left.
  - intros Hover. apply sg_loop_overrun; [cbn; lia|done].
Qed.

(** *** The consistency of an imported mesh *)

(** A face refers to three vertices of the mesh, to one of its materials
    (or to none yet, with the index 0), and carries UVs in layers of the mesh,
    at its three corners. *)
Definition face_ok (m : mesh) (f : BMFace) : Prop :=
  length (f_verts f) = 3 /\
  Forall (fun vi => vi < length (verts m)) (f_verts f) /\
  (f_material_index f = 0 \/ f_material_index f < length (materials m)) /\
  forall n c uv, f_uv f !! (n, c) = Some uv -> n ∈ uv_layers m /\ c < 3.

Definition mesh_wf (m : mesh) : Prop :=
  (forall fi f, bmfaces m !! fi = Some (Some f) -> face_ok m f) /\
  (forall vi g w, deform m !! (vi, g) = Some w ->
     vi < length (verts m) /\ g < length (vertex_groups m)) /\
  seam m = sharp m /\
  (forall e, e ∈ seam m -> exists fi f, bmfaces m !! fi = Some (Some f) /\ e ∈ edges f).

Lemma face_ok_grows (m m' : mesh) (f : BMFace) :
  length (verts m) <= length (verts m') ->
  length (materials m) <= length (materials m') ->
  (forall n, n ∈ uv_layers m -> n ∈ uv_layers m') ->
  face_ok m f -> face_ok m' f.
Proof.
  intros Hv Hm Hu (Hl & Hin & Hmat & Huv). split_and!; try done.
  - eapply Forall_impl; [exact Hin|]. intros vi Hvi. cbv beta in Hvi. lia.
  - destruct Hmat; [by left|right; lia].
  - intros n c uv Hn. destruct (Huv n c uv Hn). auto.
Qed.

Lemma mesh_wf_new : mesh_wf new_mesh.
Proof. split_and!; done. Qed.

Lemma mesh_wf_set_attr (a : string) (v : value) (m : mesh) :
  mesh_wf m -> mesh_wf (set_attr a v m).
Proof. done. Qed.

Lemma import_verts_wf (data : list byte) (m m' : mesh) :
  mesh_wf m -> import_verts data m = Ok m' -> mesh_wf m'.
Proof.
  intros (Hf & Hd & Hs & He). unfold import_verts. intros Hr.
  apply rbind_Ok in Hr as ([n pr1] & _ & Hr). apply rbind_Ok in Hr as ([vs pr2] & _ & Hr).
  injection Hr as <-. split_and!; try done.
  - intros fi f Hfi. eapply face_ok_grows; [| | |by eapply Hf]; try done.
    cbn [with_verts verts]. rewrite length_app. lia.
  - intros vi g w Hw. destruct (Hd vi g w Hw). cbn [with_verts verts vertex_groups].
    rewrite length_app. split; lia.
Qed.

Lemma import_face_wf (pr pr' : PackedReader) (m m' : mesh) :
  mesh_wf m -> import_face pr m = Ok (pr', m') -> mesh_wf m'.
Proof.
  intros (Hf & Hd & Hs & He). unfold import_face. intros Hr.
  apply rbind_Ok in Hr as ([fr pr1] & Hfr & Hr). apply get_n_length in Hfr.
  case_bool_decide as Hin; [|done].
  assert (Hwf : forall slot,
            (forall f, slot = Some f -> face_ok m f) ->
            mesh_wf (with_bmfaces (bmfaces m ++ [slot]) m)).
  { intros slot Hslot. split_and!; try done.
    - intros fi f Hfi. cbn [with_bmfaces bmfaces] in Hfi.
      apply lookup_app_Some in Hfi as [Hfi|[_ Hfi]]; [by eapply Hf|].
      apply list_lookup_singleton_Some in Hfi as [_ Hfi]. by apply Hslot.
    - intros e Hin'. destruct (He e Hin') as (fi & f & Hfi & Hef). exists fi, f.
      split; [|done]. cbn [with_bmfaces bmfaces]. by apply lookup_app_l_Some. }
  destruct (face_rejected _ _); injection Hr as _ <-; apply Hwf; [done|].
  intros f [= <-]. split_and!; try done; [|by left].
  cbn [f_verts]. rewrite length_fmap.
  by destruct fr as [|a [|b [|c [|d [|e [|g [|? ?]]]]]]]; try discriminate Hfr.
Qed.

Lemma import_faces_wf (data : list byte) (m m' : mesh) :
  mesh_wf m -> import_faces data m = Ok m' -> mesh_wf m'.
Proof.
  unfold import_faces. intros Hwf Hr. apply rbind_Ok in Hr as ([n pr1] & _ & Hr).
  revert pr1 m Hwf Hr. induction (N.to_nat n) as [|k IH]; intros pr1 m Hwf; cbn [import_face_loop].
  - by intros [= <-].
  - intros Hr. apply rbind_Ok in Hr as ([pr2 m1] & Hface & Hr).
    eapply IH; [|exact Hr]. by eapply import_face_wf.
Qed.

(** A visit is the visit of an edge of the face in its slot. *)
Lemma visits_edge (m : mesh) (sgs : list N) : forall fi0 fi e sg,
  (fi, e, sg) ∈ visits m fi0 sgs ->
  exists bmf, bmfaces m !! fi = Some (Some bmf) /\ e ∈ edges bmf.
Proof.
  induction sgs as [|sg0 sgs IH]; intros fi0 fi e sg; cbn [visits];
    [by intros ?%elem_of_nil|].
  rewrite elem_of_app. intros [Hin|Hin]; [|by eapply IH].
  unfold face_visits in Hin.
  destruct (bmfaces m !! fi0) as [[bmf|]|] eqn:Hf; try (by apply elem_of_nil in Hin).
  apply list_elem_of_fmap in Hin as (e' & Heq & He'). injection Heq as -> -> ->.
  by exists bmf.
Qed.

Lemma sg_loop_Ok_fits (sgs : list N) (fi : nat) (m m' : mesh) (edict : gmap BMEdge N) :
  fi <= length (bmfaces m) -> sg_loop fi sgs m edict = Ok m' ->
  fi + length sgs <= length (bmfaces m).
Proof.
  intros Hfi Hr. destruct (decide (fi + length sgs <= length (bmfaces m))); [done|].
  rewrite sg_loop_overrun in Hr by lia. done.
Qed.

Lemma import_sg_wf (data : list byte) (m m' : mesh) :
  mesh_wf m -> import_sg data m = Ok m' -> mesh_wf m'.
Proof.
  intros (Hf & Hd & Hs & He). unfold import_sg. intros Hr.
  apply rbind_Ok in Hr as ([sgs pr1] & _ & Hr).
  set (m0 := set_attr "bo_mesh.modifiers.new" _ m) in Hr.
  pose proof (sg_loop_Ok_fits sgs 0 m0 m' ∅ (Nat.le_0_l _) Hr) as Hfit.
  destruct (sg_loop_spec sgs 0 m0 ∅ Hfit)
    as (m'' & Hrun & Hsm & Hsh & Hfc & Hv & Hdf & Hm & Hg & Hu).
  rewrite Hr in Hrun. injection Hrun as <-.
  change (bmfaces m0) with (bmfaces m) in Hfc.
  change (verts m0) with (verts m) in Hv. change (deform m0) with (deform m) in Hdf.
  change (materials m0) with (materials m) in Hm.
  change (vertex_groups m0) with (vertex_groups m) in Hg.
  change (uv_layers m0) with (uv_layers m) in Hu.
  change (seam m0) with (seam m) in Hsm. change (sharp m0) with (sharp m) in Hsm, Hsh.
  change (seam m0) with (seam m) in Hsh.
  assert (Hface : forall j f', bmfaces m' !! j = Some (Some f') ->
            exists f, bmfaces m !! j = Some (Some f) /\ (f' = f \/ f' = set_smooth f)).
  { intros j f' Hj. rewrite Hfc in Hj. case_decide; [|eauto].
    destruct (bmfaces m !! j) as [[f|]|]; try done. injection Hj as <-. eauto. }
  assert (Hface' : forall j f, bmfaces m !! j = Some (Some f) ->
            exists f', bmfaces m' !! j = Some (Some f') /\ edges f' = edges f).
  { intros j f Hj. rewrite Hfc, Hj. case_decide; eauto. }
  split_and!.
  - intros j f' Hj. destruct (Hface j f' Hj) as (f & Hjf & Hff).
    assert (face_ok m f') as Hok'.
    { pose proof (Hf j f Hjf) as Hok. by destruct Hff as [-> | ->]. }
    eapply face_ok_grows; [| | |exact Hok']; rewrite ?Hv, ?Hm, ?Hu; done.
  - intros vi g w Hw. rewrite Hdf in Hw. rewrite Hv, Hg. by eapply Hd.
  - apply set_eq. intros e. rewrite Hsm, Hsh, run_seam, run_sharp. cbn [fst snd].
    by rewrite Hs.
  - intros e Hin. rewrite Hsm in Hin.
    apply run_seam in Hin as [Hin|(pre & v & post & x & Hvs & Hve & _)].
    + destruct (He e Hin) as (fi & f & Hfi & Hef).
      destruct (Hface' fi f Hfi) as (f' & Hf' & Hedges). exists fi, f'. by rewrite Hedges.
    + destruct v as [[fi e'] sg]. cbn [fst snd] in Hve. subst e'.
      assert ((fi, e, sg) ∈ visits m0 0 sgs) as Hvis.
      { rewrite Hvs. apply elem_of_app. right. left. }
      apply visits_edge in Hvis as (bmf & Hb & Heb).
      destruct (Hface' fi bmf Hb) as (f' & Hf' & Hedges). exists fi, f'. by rewrite Hedges.
Qed.

Lemma sface_face_wf (midx : nat) (m m' : mesh) (fi : nat) :
  mesh_wf m -> midx < length (materials m) -> sface_face midx m fi = Ok m' ->
  mesh_wf m' /\ materials m' = materials m.
Proof.
  intros (Hf & Hd & Hs & He) Hmidx. unfold sface_face.
  destruct (bmfaces m !! fi) as [[bmf|]|] eqn:Hfi; [| |done]; intros [= <-]; [|done].
  split; [|done]. split_and!; try done.
  - intros j f Hj. cbn [with_bmfaces bmfaces] in Hj.
    apply list_lookup_insert_Some in Hj as [(-> & [= <-] & _)|[_ Hj]]; [|by eapply Hf].
    destruct (Hf _ _ Hfi) as (Hl & Hin & _ & Huv). split_and!; try done. by right.
  - intros e Hin. destruct (He e Hin) as (j & f & Hj & Hef).
    destruct (decide (fi = j)) as [<-|Hne].
    + rewrite Hfi in Hj. injection Hj as <-. exists fi, (set_material_index midx bmf).
      split; [|done]. cbn [with_bmfaces bmfaces]. apply list_lookup_insert_eq.
      by eapply lookup_lt_Some.
    + exists j, f. split; [|done]. cbn [with_bmfaces bmfaces].
      by rewrite list_lookup_insert_ne.
Qed.

Lemma rfold_sface_face_wf (midx : nat) (l : list nat) : forall m m',
  mesh_wf m -> midx < length (materials m) -> rfold (sface_face midx) m l = Ok m' ->
  mesh_wf m' /\ materials m' = materials m.
Proof.
  induction l as [|fi l IH]; intros m m' Hwf Hmidx; cbn [rfold]; [by intros [= <-]|].
  intros Hr. apply rbind_Ok in Hr as (m1 & Hface & Hr).
  apply sface_face_wf in Hface as [Hwf1 Hm1]; [|done..].
  apply IH in Hr as [Hwf' Hm']; [|done|by rewrite Hm1]. split; [done|congruence].
Qed.

Lemma sface_surface_wf (cx : ImportContext) (pr pr' : PackedReader) (h h' : host)
    (m m' : mesh) :
  mesh_wf m -> sface_surface cx (pr, h, m) = Ok (pr', h', m') -> mesh_wf m'.
Proof.
  intros Hwf. unfold sface_surface. intros Hr.
  apply rbind_Ok in Hr as ([n pr1] & _ & Hr). destruct (has_bpy cx); [|done].
  apply rbind_Ok in Hr as ([cnt pr2] & _ & Hr).
  apply rbind_Ok in Hr as ([fis pr3] & _ & Hr).
  apply rbind_Ok in Hr as (m1 & Hfaces & Hr). injection Hr as _ _ <-.
  apply rfold_sface_face_wf in Hfaces as [Hwf1 _]; [done| |].
  - destruct Hwf as (Hf & Hd & Hs & He). split_and!; try done.
    intros fi f Hfi. eapply face_ok_grows; [| | |by eapply Hf]; try done.
    cbn [with_materials materials]. rewrite length_app. lia.
  - cbn [with_materials materials]. rewrite length_app. cbn [length]. lia.
Qed.

Lemma import_sface_wf (cx : ImportContext) (data : list byte) (h h' : host) (m m' : mesh) :
  mesh_wf m -> import_sface cx data h m = Ok (h', m') -> mesh_wf m'.
Proof.
  unfold import_sface. intros Hwf Hr. apply rbind_Ok in Hr as ([n pr1] & _ & Hr).
  apply rbind_Ok in Hr as ([[pr2 h2] m2] & Hloop & Hr). injection Hr as _ <-.
  revert pr1 h m Hwf Hloop. induction (N.to_nat n) as [|k IH]; intros pr1 h m Hwf;
    cbn [sface_loop].
  - by intros [= _ _ <-].
  - intros Hr. apply rbind_Ok in Hr as ([[pr3 h3] m3] & Hsurf & Hr).
    eapply IH; [|exact Hr]. by eapply sface_surface_wf.
Qed.

(** What holds before a loop and is kept by its body holds after it. *)
Lemma rfold_inv {A S : Type} (P : S -> Prop) (f : S -> A -> result S) (l : list A) :
  (forall s a s', P s -> f s a = Ok s' -> P s') ->
  forall s s', P s -> rfold f s l = Ok s' -> P s'.
Proof.
  intros Hf. induction l as [|a l IH]; intros s s' Hs; cbn [rfold]; [by intros [= <-]|].
  intros Hr. apply rbind_Ok in Hr as (s1 & Ha & Hr). eapply IH; [|exact Hr]. by eapply Hf.
Qed.

(** The UV of a face after a connected entry for the vertex [vi]: the
    corners at [vi] have the new UV in the layer, the rest is untouched. *)
Lemma fold_uv_lookup (n : string) (vi : nat) (uv : F * F) (cvs : list (nat * nat)) :
  forall (acc : gmap (string * nat) (F * F)) n' c,
    foldl (fun acc (cv : nat * nat) =>
             if decide (cv.2 = vi) then <[(n, cv.1) := uv]> acc else acc) acc cvs
      !! (n', c)
    = if decide (n' = n /\ (c, vi) ∈ cvs) then Some uv else acc !! (n', c).
Proof.
  induction cvs as [|[c0 v0] cvs IH]; intros acc n' c; cbn [foldl].
  - rewrite decide_False; [done|]. intros [_ Hin]. by apply elem_of_nil in Hin.
  - rewrite IH. cbn [fst snd].
    destruct (decide (n' = n /\ (c, vi) ∈ cvs)) as [[-> Hin]|Hno].
    { rewrite decide_True; [done|]. split; [done|by right]. }
    destruct (decide (v0 = vi)) as [->|Hv].
    + destruct (decide ((n, c0) = (n', c))) as [Heq|Hk].
      * injection Heq as <- <-. rewrite lookup_insert_eq.
        rewrite decide_True; [done|]. split; [done|left].
      * rewrite lookup_insert_ne by done.
        destruct (decide (n' = n /\ (c, vi) ∈ (c0, vi) :: cvs)) as [[-> Hin]|?]; [|done].
        apply elem_of_cons in Hin as [Heq|Hin]; [injection Heq as ->; congruence|].
        exfalso. by apply Hno.
    + destruct (decide (n' = n /\ (c, vi) ∈ (c0, v0) :: cvs)) as [[-> Hin]|?]; [|done].
      apply elem_of_cons in Hin as [Heq|Hin]; [injection Heq as -> ->; done|].
      exfalso. by apply Hno.
Qed.

Lemma set_uv_of_vert_lookup (n : string) (vi : nat) (uv : F * F) (bmf : BMFace)
    (n' : string) (c : nat) :
  f_uv (set_uv_of_vert n vi uv bmf) !! (n', c)
  = if decide (n' = n /\ f_verts bmf !! c = Some vi) then Some uv
    else f_uv bmf !! (n', c).
Proof.
  cbn [set_uv_of_vert f_uv]. rewrite fold_uv_lookup.
  assert ((c, vi) ∈ imap pair (f_verts bmf) <-> f_verts bmf !! c = Some vi) as Hiff.
  { rewrite elem_of_lookup_imap. split.
    - intros (i & y & [= -> ->] & Hi). done.
    - intros Hc. by exists c, vi. }
  destruct (decide (n' = n /\ (c, vi) ∈ imap pair (f_verts bmf))) as [[-> Hin]|Hno].
  - rewrite decide_True; [done|]. split; [done|by apply Hiff].
  - rewrite decide_False; [done|]. intros [-> Hc]. apply Hno. split; [done|by apply Hiff].
Qed.

Lemma uv_con_wf (n : string) (m m' : mesh) (x : F * F * N) :
  mesh_wf m /\ n ∈ uv_layers m -> uv_con n m x = Ok m' ->
  mesh_wf m' /\ n ∈ uv_layers m'.
Proof.
  intros [(Hf & Hd & Hs & He) Hn]. destruct x as [uv vi]. unfold uv_con.
  case_decide as Hvi; [|done]. intros [= <-]. split; [|done]. split_and!; try done.
  - intros j f' Hj. cbn [with_bmfaces bmfaces] in Hj. rewrite list_lookup_fmap in Hj.
    destruct (bmfaces m !! j) as [[f|]|] eqn:Hjf; try done. injection Hj as <-.
    destruct (Hf j f Hjf) as (Hl & Hin & Hmat & Huv). split_and!; try done.
    intros n' c uv' Hlk. rewrite set_uv_of_vert_lookup in Hlk.
    case_decide as Hc; [|by eapply Huv]. destruct Hc as [-> Hc]. split; [done|].
    apply lookup_lt_Some in Hc. lia.
  - intros e Hin. destruct (He e Hin) as (j & f & Hj & Hef).
    exists j, (set_uv_of_vert n (N.to_nat vi) (flip_v uv) f). split; [|done].
    cbn [with_bmfaces bmfaces]. by rewrite list_lookup_fmap, Hj.
Qed.

Lemma uv_discon_wf (n : string) (m m' : mesh) (x : F * F * N * N) :
  mesh_wf m /\ n ∈ uv_layers m -> uv_discon n m x = Ok m' ->
  mesh_wf m' /\ n ∈ uv_layers m'.
Proof.
  intros [(Hf & Hd & Hs & He) Hn]. destruct x as [[uv vi] fi]. unfold uv_discon.
  destruct (bmfaces m !! N.to_nat fi) as [[bmf|]|] eqn:Hfi; [| |done];
    [|by intros [= <-]].
  destruct (list_find _ _) as [[c v]|] eqn:Hfind; [|by intros [= <-]].
  intros [= <-]. split; [|done]. apply list_find_Some in Hfind as (Hc & _).
  apply lookup_lt_Some in Hc. destruct (Hf _ _ Hfi) as (Hl & Hin & Hmat & Huv).
  split_and!; try done.
  - intros j f Hj. cbn [with_bmfaces bmfaces] in Hj.
    apply list_lookup_insert_Some in Hj as [(_ & [= <-] & _)|[_ Hj]]; [|by eapply Hf].
    split_and!; try done. intros n' c' uv' Hlk. cbn [set_uv f_uv] in Hlk.
    apply lookup_insert_Some in Hlk as [[[= <- <-] _]|[_ Hlk]]; [|by eapply Huv].
    split; [done|lia].
  - intros e Hine. destruct (He e Hine) as (j & f & Hj & Hef).
    destruct (decide (N.to_nat fi = j)) as [<-|Hne].
    + rewrite Hfi in Hj. injection Hj as <-.
      exists (N.to_nat fi), (set_uv n c (flip_v uv) bmf). split; [|done].
      cbn [with_bmfaces bmfaces]. apply list_lookup_insert_eq. by eapply lookup_lt_Some.
    + exists j, f. split; [|done]. cbn [with_bmfaces bmfaces].
      by rewrite list_lookup_insert_ne.
Qed.

Lemma weight_con_wf (vgi : nat) (m m' : mesh) (x : F * N) :
  mesh_wf m /\ vgi < length (vertex_groups m) -> weight_con vgi m x = Ok m' ->
  mesh_wf m' /\ vgi < length (vertex_groups m').
Proof.
  intros [(Hf & Hd & Hs & He) Hg]. destruct x as [vw vi]. unfold weight_con.
  case_decide as Hvi; [|done]. intros [= <-]. split; [|done]. split_and!; try done.
  intros vi' g w Hw. cbn [with_deform deform] in Hw.
  apply lookup_insert_Some in Hw as [[[= <- <-] _]|[_ Hw]]; [done|by eapply Hd].
Qed.

Lemma vmap_uvs_wf (n : string) (discon : bool) (sz : nat) (pr pr' : PackedReader)
    (m m' : mesh) :
  mesh_wf m -> vmap_uvs n discon sz pr m = Ok (pr', m') -> mesh_wf m'.
Proof.
  intros Hwf. unfold vmap_uvs.
  set (m1 := if bool_decide (n ∈ uv_layers m) then m
             else with_uv_layers (uv_layers m ++ [n]) m).
  assert (mesh_wf m1 /\ n ∈ uv_layers m1) as H1.
  { subst m1. case_bool_decide as Hn; [done|]. split.
    - destruct Hwf as (Hf & Hd & Hs & He). split_and!; try done.
      intros fi f Hfi. eapply face_ok_grows; [| | |by eapply Hf]; try done.
      intros n' Hn'. cbn [with_uv_layers uv_layers]. apply elem_of_app. by left.
    - cbn [with_uv_layers uv_layers]. apply elem_of_app. right. left. }
  intros Hr. apply rbind_Ok in Hr as ([uvs pr1] & _ & Hr).
  apply rbind_Ok in Hr as ([vtx pr2] & _ & Hr). destruct discon.
  - apply rbind_Ok in Hr as ([fcs pr3] & _ & Hr).
    apply rbind_Ok in Hr as (m2 & Hloop & Hr). injection Hr as _ <-.
    eapply (rfold_inv (fun m => mesh_wf m /\ n ∈ uv_layers m)) in Hloop; [by destruct Hloop| |done].
    intros s a s'. apply uv_discon_wf.
  - apply rbind_Ok in Hr as (m2 & Hloop & Hr). injection Hr as _ <-.
    eapply (rfold_inv (fun m => mesh_wf m /\ n ∈ uv_layers m)) in Hloop; [by destruct Hloop| |done].
    intros s a s'. apply uv_con_wf.
Qed.

Lemma vmap_weights_wf (n : string) (discon : bool) (sz : nat) (pr pr' : PackedReader)
    (m m' : mesh) :
  mesh_wf m -> vmap_weights n discon sz pr m = Ok (pr', m') -> mesh_wf m'.
Proof.
  intros Hwf. unfold vmap_weights.
  set (m1 := with_vertex_groups (vertex_groups m ++ [n]) m).
  assert (mesh_wf m1 /\ length (vertex_groups m) < length (vertex_groups m1)) as H1.
  { subst m1. cbn [with_vertex_groups vertex_groups]. rewrite length_app. cbn [length].
    split; [|lia]. destruct Hwf as (Hf & Hd & Hs & He). split_and!; try done.
    intros vi g w Hw. destruct (Hd vi g w Hw). cbn [with_vertex_groups vertex_groups verts].
    rewrite length_app. split; lia. }
  intros Hr. apply rbind_Ok in Hr as ([wgs pr1] & _ & Hr).
  apply rbind_Ok in Hr as ([vtx pr2] & _ & Hr). destruct discon.
  - apply rbind_Ok in Hr as ([fcs pr3] & _ & Hr). injection Hr as _ <-. by destruct H1.
  - apply rbind_Ok in Hr as (m2 & Hloop & Hr). injection Hr as _ <-.
    eapply (rfold_inv (fun m' => mesh_wf m' /\
                                 length (vertex_groups m) < length (vertex_groups m')))
      in Hloop; [by destruct Hloop| |done].
    intros s a s'. apply weight_con_wf.
Qed.

Lemma import_vmap_wf (pr pr' : PackedReader) (m m' : mesh) :
  mesh_wf m -> import_vmap (pr, m) = Ok (pr', m') -> mesh_wf m'.
Proof.
  intros Hwf. unfold import_vmap. intros Hr.
  apply rbind_Ok in Hr as ([n pr1] & _ & Hr). apply rbind_Ok in Hr as ([dim pr2] & _ & Hr).
  apply rbind_Ok in Hr as ([dc pr3] & _ & Hr). apply rbind_Ok in Hr as ([tb pr4] & _ & Hr).
  apply rbind_Ok in Hr as ([sz pr5] & _ & Hr).
  destruct (N.land tb 3 =? 0)%N; [by eapply vmap_uvs_wf|].
  destruct (N.land tb 3 =? 1)%N; [by eapply vmap_weights_wf|done].
Qed.

Lemma import_vmaps2_wf (data : list byte) (m m' : mesh) :
  mesh_wf m -> import_vmaps2 data m = Ok m' -> mesh_wf m'.
Proof.
  unfold import_vmaps2. intros Hwf Hr. apply rbind_Ok in Hr as ([n pr1] & _ & Hr).
  apply rbind_Ok in Hr as ([pr2 m2] & Hloop & Hr). injection Hr as <-.
  revert pr1 m Hwf Hloop. induction (N.to_nat n) as [|k IH]; intros pr1 m Hwf;
    cbn [vmap_loop].
  - by intros [= _ <-].
  - intros Hr. apply rbind_Ok in Hr as ([pr3 m3] & Hmap & Hr).
    eapply IH; [|exact Hr]. by eapply import_vmap_wf.
Qed.

Lemma mesh_chunk_wf (cx : ImportContext) (cid : N) (data : list byte) (h h' : host)
    (m m' : mesh) :
  mesh_wf m -> mesh_chunk cx cid data h m = Ok (h', m') -> mesh_wf m'.
Proof.
  intros Hwf. unfold mesh_chunk.
  repeat case_decide;
    try (intros Hr; apply rbind_Ok in Hr as (m1 & Hm1 & Hr); injection Hr as _ <-).
  - by eapply import_verts_wf.
  - by eapply import_faces_wf.
  - unfold import_meshname in Hm1. apply rbind_Ok in Hm1 as ([name pr1] & _ & Hm1).
    by injection Hm1 as <-.
  - by eapply import_sg_wf.
  - by apply import_sface_wf.
  - by intros [= _ <-].
  - by eapply import_vmaps2_wf.
  - unfold import_flags in Hm1. apply rbind_Ok in Hm1 as ([flags pr1] & _ & Hm1).
    by injection Hm1 as <-.
  - by intros [= _ <-].
  - unfold import_options in Hm1. apply rbind_Ok in Hm1 as ([[a b] pr1] & _ & Hm1).
    by injection Hm1 as <-.
  - by intros [= _ <-].
Qed.

Lemma mesh_chunks_wf (cx : ImportContext) (cr : ChunkedReader) : forall h h' m m',
  mesh_wf m -> mesh_chunks cx cr h m = Ok (h', m') -> mesh_wf m'.
Proof.
  induction cr as [|cid data rest IH|]; intros h h' m m' Hwf; cbn [mesh_chunks];
    [by intros [= _ <-]| |done].
  intros Hr. apply rbind_Ok in Hr as ([h1 m1] & Hc & Hr).
  eapply IH; [|exact Hr]. by eapply mesh_chunk_wf.
Qed.

(** X5.  Every mesh that [_import_mesh] (lines 36-151) returns is
    consistent, whatever the order and the content of its chunks: each face
    has three vertices, all of them vertices of the mesh; its material index
    is 0 or the index of a material of the mesh; its UVs lie in UV layers of
    the mesh, at its three corners; every deform weight belongs to a vertex
    and to a vertex group of the mesh; the seams are exactly the edges that
    are not smooth, and each is an edge of a face of the mesh. *)
Theorem imported_mesh_is_consistent (cx : ImportContext) (cr : ChunkedReader)
    (parent : string) (h h' : host) (m : mesh) :
  _import_mesh cx cr parent h = Ok (h', m) ->
  (forall fi f, bmfaces m !! fi = Some (Some f) ->
     length (f_verts f) = 3 /\
     Forall (fun vi => vi < length (verts m)) (f_verts f) /\
     (f_material_index f = 0 \/ f_material_index f < length (materials m)) /\
     forall n c uv, f_uv f !! (n, c) = Some uv -> n ∈ uv_layers m /\ c < 3) /\
  (forall vi g w, deform m !! (vi, g) = Some w ->
     vi < length (verts m) /\ g < length (vertex_groups m)) /\
  seam m = sharp m /\
  (forall e, e ∈ seam m -> exists fi f, bmfaces m !! fi = Some (Some f) /\ e ∈ edges f).
Proof.
  unfold _import_mesh. intros Hr. apply rbind_Ok in Hr as ([ver cr1] & _ & Hr).
  destruct (negb (ver =? 17)%N); [done|]. destruct (has_bpy cx); [|done].
  apply rbind_Ok in Hr as ([h1 m1] & Hchunks & Hr). injection Hr as _ <-.
  change (mesh_wf m1). eapply mesh_chunks_wf; [|exact Hchunks].
  apply mesh_wf_set_attr, mesh_wf_new.
Qed.

(** *** The materials of the surfaces *)





(** *** The surfaces, their textures and the image cache *)

(** Every entry of the cache of the context is an image of the host, loaded
    from the path of its key. *)
Definition cache_ok (cx : ImportContext) (h : host) : Prop :=
  forall p i, images cx !! p = Some i -> data_images h !! i = Some (texture_path cx p).

(** What the surfaces may do to the context and to the host: they add to the
    cache, to the images, to the textures and to the log, at most one image
    per new texture, and touch nothing else. *)
Definition surfaces_grow (cx : ImportContext) (h : host) (cx' : ImportContext) (h' : host)
  : Prop :=
  gamedata_folder cx' = gamedata_folder cx /\ has_bpy cx' = has_bpy cx /\
  (forall p i, images cx !! p = Some i -> images cx' !! p = Some i) /\
  data_images h `prefix_of` data_images h' /\
  data_textures h `prefix_of` data_textures h' /\
  (NoDup (data_textures h) -> NoDup (data_textures h')) /\
  length (data_images h') + length (data_textures h)
    <= length (data_images h) + length (data_textures h') /\
  data_materials h' = data_materials h /\ console h' = console h /\
  events h `prefix_of` events h'.

Lemma surfaces_grow_refl (cx : ImportContext) (h : host) : surfaces_grow cx h cx h.
Proof. unfold surfaces_grow. split_and!; try done. Qed.

Lemma surfaces_grow_trans (cx1 cx2 cx3 : ImportContext) (h1 h2 h3 : host) :
  surfaces_grow cx1 h1 cx2 h2 -> surfaces_grow cx2 h2 cx3 h3 -> surfaces_grow cx1 h1 cx3 h3.
Proof.
  intros (Hg1 & Hb1 & Hc1 & Hi1 & Ht1 & Hn1 & Hl1 & Hm1 & Ho1 & He1)
         (Hg2 & Hb2 & Hc2 & Hi2 & Ht2 & Hn2 & Hl2 & Hm2 & Ho2 & He2).
  unfold surfaces_grow. split_and!; try congruence; try (by etrans); auto. lia.
Qed.

Lemma image_cache_ok (cx cx' : ImportContext) (h h' : host) (relpath : string) (img : nat) :
  cache_ok cx h -> image cx h relpath = Ok (img, cx', h') ->
  cache_ok cx' h' /\
  gamedata_folder cx' = gamedata_folder cx /\ has_bpy cx' = has_bpy cx /\
  (forall p i, images cx !! p = Some i -> images cx' !! p = Some i) /\
  data_images h `prefix_of` data_images h' /\
  length (data_images h') <= S (length (data_images h)) /\
  data_textures h' = data_textures h /\ data_materials h' = data_materials h /\
  console h' = console h /\ events h' = events h.
Proof.
  intros Hok. unfold image. destruct (images cx !! normalize relpath) as [i|] eqn:Hc.
  { intros [= <- <- <-]. split_and!; try done. lia. }
  destruct (has_bpy cx) eqn:Hb; [|done]. unfold images_load.
  destruct (readable _); cbn [rbind]; [|done]. intros [= <- <- <-].
  split_and!; try done.
  - intros p i Hp. cbn [with_images images] in Hp. cbn [with_data_images data_images].
    apply lookup_insert_Some in Hp as [[<- <-]|[_ Hp]].
    + by rewrite lookup_app_r, Nat.sub_diag by lia.
    + apply lookup_app_l_Some. by apply Hok.
  - intros p i Hp. cbn [with_images images]. rewrite lookup_insert_ne; [done|]. congruence.
  - cbn [with_data_images data_images]. by apply prefix_app_r.
  - cbn [with_data_images data_images]. rewrite length_app. cbn [length]. lia.
Qed.

Lemma cache_ok_host (cx : ImportContext) (h h' : host) :
  data_images h' = data_images h -> cache_ok cx h -> cache_ok cx h'.
Proof. intros Hi Hok p i Hp. rewrite Hi. by apply Hok. Qed.

Lemma surfaces_grow_events (cx : ImportContext) (h h' : host) :
  data_images h' = data_images h -> data_textures h' = data_textures h ->
  data_materials h' = data_materials h -> console h' = console h ->
  events h `prefix_of` events h' -> surfaces_grow cx h cx h'.
Proof.
  intros Hi Ht Hm Hc He. unfold surfaces_grow. rewrite Hi, Ht, Hm, Hc.
  split_and!; try done; lia.
Qed.

(** One surface: lines 247-273. *)
Lemma import_surface_grows (pr pr' : PackedReader) (cx cx' : ImportContext) (h h' : host) :
  cache_ok cx h -> import_surface (pr, cx, h) = Ok (pr', cx', h') ->
  cache_ok cx' h' /\ surfaces_grow cx h cx' h' /\
  (has_bpy cx = false -> cx' = cx /\ h' = h).
Proof.
  intros Hok. unfold import_surface. intros Hr.
  apply rbind_Ok in Hr as ([n pr1] & _ & Hr). apply rbind_Ok in Hr as ([es pr2] & _ & Hr).
  apply rbind_Ok in Hr as ([cs pr3] & _ & Hr). apply rbind_Ok in Hr as ([gm pr4] & _ & Hr).
  apply rbind_Ok in Hr as ([texture pr5] & _ & Hr).
  apply rbind_Ok in Hr as ([vmap pr6] & _ & Hr).
  apply rbind_Ok in Hr as ([flags pr7] & _ & Hr). apply rbind_Ok in Hr as ([x1 pr8] & _ & Hr).
  apply rbind_Ok in Hr as ([x2 pr9] & _ & Hr).
  destruct (has_bpy cx) eqn:Hb; cbn [andb] in Hr;
    [|injection Hr as _ <- <-; split_and!; [done|apply surfaces_grow_refl|done]].
  case_bool_decide as Hmat;
    [|injection Hr as _ <- <-; split_and!; [done|apply surfaces_grow_refl|done]].
  set (h4 := host_event _ _ (host_event _ _ (host_event _ _ (host_event _ _ h)))) in Hr.
  assert (surfaces_grow cx h cx h4 /\ cache_ok cx h4) as [Hg4 Hok4].
  { split; [|by eapply cache_ok_host].
    apply surfaces_grow_events; try done. cbn [h4 host_event events].
    repeat apply prefix_app_r. done. }
  split_and!; [| |done].
  - case_decide as Htex; [by injection Hr as _ <- <-|].
    apply rbind_Ok in Hr as ([cx1 h6] & Hload & Hr). injection Hr as _ <- <-.
    eapply cache_ok_host; [done|]. case_bool_decide as Hknown; [by injection Hload as <- <-|].
    apply rbind_Ok in Hload as ([[img cx2] h7] & Himg & Hload). injection Hload as <- <-.
    eapply cache_ok_host; [done|].
    apply image_cache_ok in Himg as (Hok7 & _); [done|by eapply cache_ok_host].
  - case_decide as Htex; [by injection Hr as _ <- <-|].
    apply rbind_Ok in Hr as ([cx1 h6] & Hload & Hr). injection Hr as _ <- <-.
    eapply surfaces_grow_trans; [exact Hg4|].
    assert (surfaces_grow cx h4 cx1 h6) as Hg6.
    { case_bool_decide as Hknown; [injection Hload as <- <-; apply surfaces_grow_refl|].
      apply rbind_Ok in Hload as ([[img cx2] h7] & Himg & Hload). injection Hload as <- <-.
      apply image_cache_ok in Himg
        as (_ & Hgf & Hbp & Hkeep & Hpre & Hlen & Htx & Hmt & Hco & Hev);
        [|by eapply cache_ok_host].
      cbn [with_data_textures data_images data_textures data_materials console events]
        in Hpre, Hlen, Htx, Hmt, Hco, Hev.
      unfold surfaces_grow. cbn [host_event data_images data_textures data_materials
                                 console events].
      rewrite Htx, Hmt, Hco, Hev. split_and!; try done.
      - by apply prefix_app_r.
      - intros Hnd. apply NoDup_app. split_and!; [done| |apply NoDup_singleton].
        intros x Hx Hx'. apply list_elem_of_singleton in Hx'. by subst x.
      - rewrite length_app. cbn [length]. lia.
      - by apply prefix_app_r. }
    eapply surfaces_grow_trans; [exact Hg6|].
    apply surfaces_grow_events; try done. cbn [host_event events].
    repeat apply prefix_app_r. done.
Qed.

Lemma surface_loop_grows (k : nat) (pr pr' : PackedReader) (cx cx' : ImportContext)
    (h h' : host) :
  cache_ok cx h -> surface_loop k (pr, cx, h) = Ok (pr', cx', h') ->
  cache_ok cx' h' /\ surfaces_grow cx h cx' h' /\
  (has_bpy cx = false -> cx' = cx /\ h' = h).
Proof.
  revert pr cx h. induction k as [|k IH]; intros pr cx h Hok; cbn [surface_loop].
  - intros [= <- <- <-]. split_and!; [done|apply surfaces_grow_refl|done].
  - intros Hr. apply rbind_Ok in Hr as ([[pr1 cx1] h1] & Hs & Hr).
    apply import_surface_grows in Hs as (Hok1 & Hg1 & Hdry1); [|done].
    apply IH in Hr as (Hok' & Hg' & Hdry'); [|done]. split_and!; [done| |].
    + by eapply surfaces_grow_trans.
    + intros Hb. destruct (Hdry1 Hb) as [-> ->]. by apply Hdry'.
Qed.

(** X13.  The surfaces of a SURFACES2 chunk (lines 246-273), whenever the
    loop over them ends, on a context whose cached images are images of the
    host loaded from the path of their key: the cache is again such a cache
    and keeps its entries; the host keeps its images and textures and gets new
    ones after them, no texture name twice if none was, and at most one new
    image per new texture; its materials and its console are what they were,
    and its other calls are followed by new ones.  Without a host context the
    loop changes neither the context nor the host. *)
Theorem surfaces_keep_image_cache (k : nat) (pr pr' : PackedReader)
    (cx cx' : ImportContext) (h h' : host) :
  cache_ok cx h ->
  surface_loop k (pr, cx, h) = Ok (pr', cx', h') ->
  cache_ok cx' h' /\
  (forall p i, images cx !! p = Some i -> images cx' !! p = Some i) /\
  data_images h `prefix_of` data_images h' /\
  data_textures h `prefix_of` data_textures h' /\
  (NoDup (data_textures h) -> NoDup (data_textures h')) /\
  length (data_images h') - length (data_images h)
    <= length (data_textures h') - length (data_textures h) /\
  data_materials h' = data_materials h /\ console h' = console h /\
  events h `prefix_of` events h' /\
  (has_bpy cx = false -> cx' = cx /\ h' = h).
Proof.
  intros Hok Hr. apply surface_loop_grows in Hr
    as (Hok' & (_ & _ & Hc & Hi & Ht & Hn & Hl & Hm & Ho & He) & Hdry); [|done].
  split_and!; try done. apply prefix_length in Ht. lia.
Qed.

(** *** A context without the host *)

(** What an import may do to the host when the context has no [bpy]: print. *)
Definition only_printed (h h' : host) : Prop :=
  console h `prefix_of` console h' /\ data_materials h' = data_materials h /\
  data_textures h' = data_textures h /\ data_images h' = data_images h /\
  events h' = events h.

Lemma only_printed_refl (h : host) : only_printed h h.
Proof. by unfold only_printed. Qed.

Lemma only_printed_trans (h1 h2 h3 : host) :
  only_printed h1 h2 -> only_printed h2 h3 -> only_printed h1 h3.
Proof.
  intros (Hc1 & Hm1 & Ht1 & Hi1 & He1) (Hc2 & Hm2 & Ht2 & Hi2 & He2).
  unfold only_printed. split_and!; try congruence. by etrans.
Qed.

Lemma only_printed_warn (cid : N) (location : string) (h : host) :
  only_printed h (warn_imknown_chunk cid location h).
Proof.
  unfold only_printed. cbn. split_and!; try done. by apply prefix_app_r.
Qed.

Lemma _import_mesh_needs_host (cx : ImportContext) (cr : ChunkedReader) (parent : string)
    (h : host) (r : host * mesh) :
  has_bpy cx = false -> _import_mesh cx cr parent h <> Ok r.
Proof.
  intros Hb Hr. unfold _import_mesh in Hr.
  apply rbind_Ok in Hr as ([ver cr1] & _ & Hr). rewrite Hb in Hr.
  by destruct (negb _).
Qed.

Lemma import_meshes_dry (cx : ImportContext) (cr : ChunkedReader) (h h' : host)
    (meshes meshes' : list mesh) :
  has_bpy cx = false -> import_meshes cx cr h meshes = Ok (h', meshes') ->
  h' = h /\ meshes' = meshes.
Proof.
  intros Hb. destruct cr as [|cid mdat rest|]; cbn [import_meshes].
  - by intros [= <- <-].
  - intros Hr. apply rbind_Ok in Hr as ([h1 m1] & Hm & _).
    by apply _import_mesh_needs_host in Hm.
  - done.
Qed.

Lemma surface_loop_dry (k : nat) (pr pr' : PackedReader) (cx cx' : ImportContext)
    (h h' : host) :
  has_bpy cx = false -> surface_loop k (pr, cx, h) = Ok (pr', cx', h') ->
  cx' = cx /\ h' = h.
Proof.
  intros Hb. revert pr. induction k as [|k IH]; intros pr; cbn [surface_loop].
  - by intros [= _ <- <-].
  - intros Hr. apply rbind_Ok in Hr as ([[pr1 cx1] h1] & Hs & Hr).
    assert (cx1 = cx /\ h1 = h) as [-> ->]; [|by eapply IH].
    unfold import_surface in Hs.
    repeat (apply rbind_Ok in Hs as ([? ?] & _ & Hs)).
    rewrite Hb in Hs. by injection Hs as _ <- <-.
Qed.

Lemma obj_attr_needs_host (cx : ImportContext) (a : string) (v : value) (h h' : host) :
  has_bpy cx = false -> obj_attr cx a v h <> Ok h'.
Proof. intros Hb. unfold obj_attr. by rewrite Hb. Qed.

(** One chunk of the object: lines 241-349. *)
Lemma main_chunk_dry (cid : N) (data : list byte) (cx cx' : ImportContext) (h h' : host)
    (meshes meshes' : list mesh) (arm arm' : option armature) :
  has_bpy cx = false ->
  main_chunk cid data (cx, h, meshes, arm) = Ok (cx', h', meshes', arm') ->
  cx' = cx /\ meshes' = meshes /\ arm' = arm /\ only_printed h h'.
Proof.
  intros Hb. unfold main_chunk. repeat case_decide.
  - intros Hr. apply rbind_Ok in Hr as ([h1 ms1] & Hm & Hr). injection Hr as <- <- <- <-.
    apply import_meshes_dry in Hm as [-> ->]; [|done].
    split_and!; try done; apply only_printed_refl.
  - intros Hr. apply rbind_Ok in Hr as ([n pr1] & _ & Hr).
    apply rbind_Ok in Hr as ([[pr2 cx2] h2] & Hs & Hr). injection Hr as <- <- <- <-.
    apply surface_loop_dry in Hs as [-> ->]; [|done].
    split_and!; try done; apply only_printed_refl.
  - rewrite Hb. intros Hr.
    apply rbind_Ok in Hr as ([[h1 arm1] bm1] & _ & Hr). done.
  - intros Hr. apply rbind_Ok in Hr as ([pos pr1] & _ & Hr).
    apply rbind_Ok in Hr as ([rot pr2] & _ & Hr). apply rbind_Ok in Hr as (h1 & Ha & _).
    by apply obj_attr_needs_host in Ha.
  - intros Hr. apply rbind_Ok in Hr as ([x pr1] & _ & Hr).
    apply rbind_Ok in Hr as (h1 & Ha & _). by apply obj_attr_needs_host in Ha.
  - intros Hr. apply rbind_Ok in Hr as ([x pr1] & _ & Hr).
    apply rbind_Ok in Hr as (h1 & Ha & _). by apply obj_attr_needs_host in Ha.
  - intros Hr. apply rbind_Ok in Hr as ([x pr1] & _ & Hr).
    apply rbind_Ok in Hr as (h1 & Ha & _). by apply obj_attr_needs_host in Ha.
  - intros Hr. apply rbind_Ok in Hr as ([x pr1] & _ & Hr).
    apply rbind_Ok in Hr as (h1 & Ha & _). by apply obj_attr_needs_host in Ha.
  - rewrite Hb. intros Hr. apply rbind_Ok in Hr as (a & _ & Hr). done.
  - intros Hr. apply rbind_Ok in Hr as ([x pr1] & _ & Hr).
    apply rbind_Ok in Hr as (h1 & Ha & _). by apply obj_attr_needs_host in Ha.
  - intros [= <- <- <- <-]. split_and!; try done; apply only_printed_warn.
Qed.

Lemma main_chunks_dry (cr : ChunkedReader) (cx cx' : ImportContext) (h h' : host)
    (meshes meshes' : list mesh) (arm arm' : option armature) :
  has_bpy cx = false ->
  main_chunks cr (cx, h, meshes, arm) = Ok (cx', h', meshes', arm') ->
  cx' = cx /\ meshes' = meshes /\ arm' = arm /\ only_printed h h'.
Proof.
  intros Hb. revert h. induction cr as [|cid data rest IH|]; intros h; cbn [main_chunks].
  - intros [= <- <- <- <-]. split_and!; try done; apply only_printed_refl.
  - intros Hr. apply rbind_Ok in Hr as ([[[cx1 h1] ms1] arm1] & Hc & Hr).
    apply main_chunk_dry in Hc as (-> & -> & -> & Hp1); [|done].
    apply IH in Hr as (-> & -> & -> & Hp). split_and!; try done.
    by eapply only_printed_trans.
  - done.
Qed.

Lemma _import_dry (cr : ChunkedReader) (cx cx' : ImportContext) (h h' : host)
    (sc sc' : scene) :
  (forall h0, assign_images h0 [] = Ok h0) ->
  has_bpy cx = false ->
  _import cx cr h sc = Ok (cx', h', sc') ->
  cx' = cx /\ only_printed h h' /\
  exists objects, sc' = sc ++ objects /\ Forall (fun o => o = ([], None)) objects.
Proof.
  intros Hassign Hb. revert h sc.
  induction cr as [|cid data rest IH|]; intros h sc; cbn [_import].
  - intros [= <- <- <-]. split_and!; [done|apply only_printed_refl|].
    exists []. by rewrite app_nil_r.
  - intros Hr. apply rbind_Ok in Hr as ([[cx1 h1] sc1] & Hc & Hr).
    assert (cx1 = cx /\ only_printed h h1 /\ (sc1 = sc \/ sc1 = sc ++ [([], None)]))
      as (-> & Hp1 & Hsc1).
    { case_decide.
      - apply rbind_Ok in Hc as ([[[cx2 h2] ms2] arm2] & Hm & Hc). injection Hc as <- <- <-.
        unfold _import_main in Hm. apply rbind_Ok in Hm as ([ver cr1] & _ & Hm).
        destruct (negb _); [done|]. rewrite Hb in Hm.
        apply rbind_Ok in Hm as ([[[cx3 h3] ms3] arm3] & Hm & Ha).
        apply main_chunks_dry in Hm as (-> & -> & -> & Hp); [|done].
        rewrite Hassign in Ha. injection Ha as <- <- <- <-. auto.
      - injection Hc as <- <- <-. split_and!; [done|apply only_printed_warn|auto]. }
    apply IH in Hr as (-> & Hp & objects & -> & Hall).
    split_and!; [done|by eapply only_printed_trans|].
    destruct Hsc1 as [->| ->].
    + by exists objects.
    + exists (([], None) :: objects). rewrite <- app_assoc. split; [done|].
      by constructor.
  - done.
Qed.

(** X14.  [import_file] with a context that has no [bpy] (the default of
    [ImportContext]), whenever it returns: the context is what it was, the
    host has got nothing but lines printed on its console, and every object
    of the file has left no mesh and no armature.  The loop of lines 350-353
    over the meshes has nothing to do when there is none. *)
Theorem import_without_host_only_prints (cx cx' : ImportContext) (file : list byte)
    (h h' : host) (sc : scene) :
  (forall h0, assign_images h0 [] = Ok h0) ->
  has_bpy cx = false ->
  import_file cx file h = Ok (cx', h', sc) ->
  cx' = cx /\
  console h `prefix_of` console h' /\ data_materials h' = data_materials h /\
  data_textures h' = data_textures h /\ data_images h' = data_images h /\
  events h' = events h /\
  Forall (fun o => o = ([], None)) sc.
Proof.
  intros Hassign Hb Hr. unfold import_file in Hr.
  apply _import_dry in Hr as (-> & (Hc & Hm & Ht & Hi & He) & objects & -> & Hall);
    [|done|done].
  by split_and!.
Qed.

End Decoder.

(** *** A sample platform, to run the importer *)

(** Sample tag tables. *)
Definition sample_mesh_tags : MeshChunks :=
  {| Mesh_VERSION := 0x1000; Mesh_MESHNAME := 0x1001; Mesh_FLAGS := 0x1002;
     Mesh_BBOX := 0x1004; Mesh_VERTS := 0x1005; Mesh_FACES := 0x1006;
     Mesh_VMREFS := 0x1008; Mesh_SFACE := 0x1009; Mesh_OPTIONS := 0x1010;
     Mesh_VMAPS2 := 0x1012; Mesh_SG := 0x1013 |}.

Definition sample_bone_tags : BoneChunks :=
  {| Bone_VERSION := 0x1; Bone_DEF := 0x2; Bone_BIND_POSE := 0x3; Bone_MATERIAL := 0x4;
     Bone_SHAPE := 0x5; Bone_IK_JOINT := 0x6; Bone_MASS_PARAMS := 0x7;
     Bone_IK_FLAGS := 0x8; Bone_BREAK_PARAMS := 0x9; Bone_FRICTION := 0x10 |}.

Definition sample_object_tags : ObjectChunks :=
  {| Object_MAIN := 0x7777; Object_VERSION := 0x0900; Object_FLAGS := 0x0903;
     Object_SURFACES2 := 0x0907; Object_MESHES := 0x0910; Object_USERDATA := 0x0912;
     Object_TRANSFORM := 0x0920; Object_BONES1 := 0x0921; Object_REVISION := 0x0922;
     Object_PARTITIONS1 := 0x0923; Object_MOTION_REFS := 0x0924;
     Object_LOD_REF := 0x0925 |}.

(** A host that rejects a face with a repeated vertex and a face on the
    vertices of a face it has. *)
Definition rejects_degenerate (faces : list (list nat)) (vis : list nat) : bool :=
  negb (bool_decide (NoDup vis))
  || bool_decide (Exists (fun f => (list_to_set f : gset nat) = list_to_set vis) faces).

(** Matrices as the sequence of translations ([true]) and rotations they are
    composed of. *)
#[export] Instance moves_matrix : Matrix Z (list (bool * (Z * Z * Z))) := {|
  mat_identity := [];
  mat_mul := app;
  mat_translation v := [(true, v)];
  mat_euler_zxy v := [(false, v)];
  mat_origin m :=
    foldl (fun acc x => if x.1 : bool then (acc.1.1 + x.2.1.1, acc.1.2 + x.2.1.2, acc.2 + x.2.2)%Z
                        else acc) (0, 0, 0)%Z m;
|}.

Definition lower_ascii (c : ascii) : ascii :=
  let n := nat_of_ascii c in
  if (65 <=? n) && (n <=? 90) then ascii_of_nat (n + 32) else c.

Fixpoint lower_string (s : string) : string :=
  match s with
  | EmptyString => EmptyString
  | String c s' => String (lower_ascii c) (lower_string s')
  end.

Definition sample_image
  : ImportContext -> @host Z -> string -> result (nat * ImportContext * @host Z) :=
  image (F:=Z) lower_string "/" (fun _ => true).

Definition sample_import_mesh
  : ImportContext -> ChunkedReader -> string -> @host Z -> result (@host Z * @mesh Z) :=
  _import_mesh (F:=Z) sample_mesh_tags rejects_degenerate.

Definition sample_import_bones
  : ImportContext -> ChunkedReader -> @host Z -> option (@armature Z) ->
    gmap string (list (bool * (Z * Z * Z))) ->
    result (@host Z * option (@armature Z) * gmap string (list (bool * (Z * Z * Z)))) :=
  import_bones (F:=Z) sample_bone_tags (fun _ n => n) (fun v => v).

Definition sample_import_file
  : ImportContext -> list byte -> @host Z -> result (ImportContext * @host Z * @scene Z) :=
  import_file (F:=Z) sample_mesh_tags sample_bone_tags sample_object_tags rejects_degenerate
    (fun _ n => n) (fun v => v) lower_string "/" (fun _ => true) (fun bs => bs)
    (fun h _ => Ok h).

Definition sample_context : ImportContext :=
  new_context lower_string (fun s => s) "Test.object" "gamedata" true.

(** A square of two triangles, a third face record on the vertices of the
    first one, the groups of the three face records, a surface, a connected UV
    map, a disconnected UV map on the third face, a disconnected weight map,
    and a chunk of an unknown tag. *)
Definition put_vec (x y z : N) : list byte := put_u32 x ++ put_u32 y ++ put_u32 z.
Definition put_face (a b c : N) : list byte :=
  put_u32 a ++ put_u32 0 ++ put_u32 b ++ put_u32 0 ++ put_u32 c ++ put_u32 0.

Definition square_chunks (ver : N) (sgs : list N) : list byte :=
  put_chunk 0x1000 (put_u16 ver)
  ++ put_chunk 0x1005 (put_u32 4 ++ put_vec 0 0 0 ++ put_vec 1 0 0 ++ put_vec 1 1 0
                         ++ put_vec 0 1 0)
  ++ put_chunk 0x1006 (put_u32 3 ++ put_face 0 1 2 ++ put_face 0 2 3 ++ put_face 2 0 1)
  ++ put_chunk 0x1013 (sgs ≫= put_u32)
  ++ put_chunk 0x1009 (put_u16 1 ++ put_str "mat" ++ put_u32 3 ++ put_u32 0 ++ put_u32 1
                         ++ put_u32 2)
  ++ put_chunk 0x1012 (put_u32 3
       ++ put_str "Texture" ++ [x02; x00; x00] ++ put_u32 1
            ++ (put_u32 5 ++ put_u32 6) ++ put_u32 0
       ++ put_str "Texture" ++ [x02; x01; x00] ++ put_u32 1
            ++ (put_u32 7 ++ put_u32 8) ++ put_u32 2 ++ put_u32 2
       ++ put_str "hand" ++ [x01; x01; x01] ++ put_u32 2
            ++ (put_u32 9 ++ put_u32 9) ++ (put_u32 0 ++ put_u32 1) ++ (put_u32 0 ++ put_u32 0))
  ++ put_chunk 0xBEEF [x01].

Definition square_mesh (sgs : list N) : result (@host Z * @mesh Z) :=
  sample_import_mesh sample_context (chunked_reader (square_chunks 0x11 sgs)) "test.object"
    new_host.

(** What is looked at in the examples. *)
Definition mesh_summary (r : result (@host Z * @mesh Z))
  : option (list (option (list nat * bool * nat)) * list BMEdge * list BMEdge
            * list string * list (nat * nat * Z) * list message) :=
  match r with
  | Ok (h, m) =>
      Some ((fun o : option BMFace =>
               (fun f => (f_verts f, f_smooth f, f_material_index f)) <$> o) <$> bmfaces m,
            elements (seam m), elements (sharp m), vertex_groups m,
            map_to_list (deform m), console h)
  | Raise _ => None
  end.

Example square_groups_1_2 :
  mesh_summary (square_mesh [1; 2; 7]%N)
  = Some ([Some ([0; 1; 2], true, 0); Some ([0; 2; 3], true, 0); None],
          [(0, 2)], [(0, 2)], ["hand"], [], [unknown_chunk 0xBEEF "mesh"]).
Proof. vm_compute. reflexivity. Qed.

Example square_groups_1_1 :
  mesh_summary (square_mesh [1; 1; 7]%N)
  = Some ([Some ([0; 1; 2], true, 0); Some ([0; 2; 3], true, 0); None],
          [], [], ["hand"], [], [unknown_chunk 0xBEEF "mesh"]).
Proof. vm_compute. reflexivity. Qed.

Example square_uv :
  (fun r => (fun o : option BMFace => map_to_list <$> (f_uv <$> o)) <$> bmfaces r.2) <$>
    (match square_mesh [1; 2; 7]%N with Ok r => Some r | Raise _ => None end)
  = Some [Some [("Texture", 0, (5, -5)%Z)]; Some [("Texture", 0, (5, -5)%Z)]; None].
Proof. vm_compute. reflexivity. Qed.

Example square_wrong_version :
  sample_import_mesh sample_context (chunked_reader (square_chunks 0x10 [1; 2; 7]%N))
    "test.object" new_host
  = Raise (UnsupportedVersion "MESH" 0x10).
Proof. vm_compute. reflexivity. Qed.

(** The two triangles of the square, as faces of a mesh. *)
Definition triangle (a b c : nat) : @BMFace Z :=
  {| f_verts := [a; b; c]; f_smooth := false; f_material_index := 0; f_uv := ∅ |}.

Definition two_triangles : @mesh Z :=
  with_bmfaces [Some (triangle 0 1 2); Some (triangle 0 2 3)] new_mesh.



(** Two bones, "hand" a child of "root", each with a chunk of an unknown tag. *)
Definition put_bone (ver : N) (name parent : string) (offset rotate : list byte) : list byte :=
  put_chunk 0x1 (put_u16 ver)
  ++ put_chunk 0x2 (put_str name ++ put_str parent ++ put_str name)
  ++ put_chunk 0x3 (offset ++ rotate ++ put_u32 1)
  ++ put_chunk 0x10 (put_u32 3)
  ++ put_chunk 0xAAAA [].

Definition root_and_hand : list byte :=
  put_chunk 0 (put_bone 0x2 "root" "" (put_vec 1 2 3) (put_vec 0 0 0))
  ++ put_chunk 1 (put_bone 0x2 "hand" "root" (put_vec 10 0 0) (put_vec 4 5 6)).

Definition root_transform : list (bool * (Z * Z * Z)) :=
  [(true, (1, 2, 3)%Z); (false, (0, 0, 0)%Z)].

Definition hand_transform : list (bool * (Z * Z * Z)) :=
  root_transform ++ [(true, (10, 0, 0)%Z); (false, (4, 5, 6)%Z)].

Definition root_and_hand_run
  : result (@host Z * option (@armature Z) * gmap string (list (bool * (Z * Z * Z)))) :=
  sample_import_bones sample_context (chunked_reader root_and_hand) new_host
    (Some new_armature) ∅.

Definition bones_summary
    (r : result (@host Z * option (@armature Z) * gmap string (list (bool * (Z * Z * Z)))))
  : option (option (list (string * option string * (Z * Z * Z)))
            * option (list (bool * (Z * Z * Z))) * option (list (bool * (Z * Z * Z)))
            * list message) :=
  match r with
  | Ok (h, arm, bonemat) =>
      Some ((fun a : @armature Z =>
               (fun b : @EditBone Z => (eb_name b, eb_parent b, eb_head b)) <$> edit_bones a)
              <$> arm,
            bonemat !! "root", bonemat !! "hand", console h)
  | Raise _ => None
  end.

Example root_and_hand_bones :
  bones_summary root_and_hand_run
  = Some (Some [("root", None, (1, 2, 3)%Z); ("hand", Some "root", (11, 2, 3)%Z)],
          Some root_transform, Some hand_transform,
          [unknown_chunk 0xAAAA "bone"; unknown_chunk 0xAAAA "bone"]).
Proof. vm_compute. reflexivity. Qed.

(** An object file: the square, a surface with a texture, the two bones, a
    chunk of an unknown tag in the object and one at the root. *)
Definition sample_file : list byte :=
  put_chunk 0x7777
    (put_chunk 0x0900 (put_u16 0x10)
     ++ put_chunk 0x0910 (put_chunk 0 (square_chunks 0x11 [1; 2; 7]%N))
     ++ put_chunk 0x0907 (put_u32 1 ++ put_str "mat" ++ put_str "e" ++ put_str "c"
                            ++ put_str "g" ++ put_str "Det\Wall" ++ put_str "Texture"
                            ++ put_u32 1 ++ put_u32 0 ++ put_u32 0)
     ++ put_chunk 0x0921 root_and_hand
     ++ put_chunk 0xBEEF [])
  ++ put_chunk 0x1234 [].

Definition file_summary (r : result (ImportContext * @host Z * @scene Z))
  : option (list message * list string * list (nat * option (list string))) :=
  match r with
  | Ok (cx, h, sc) =>
      Some (console h, data_images h,
            (fun s : list (@mesh Z) * option (@armature Z) =>
               (length s.1, (fun a : @armature Z => bone_names a) <$> s.2)) <$> sc)
  | Raise _ => None
  end.

Example sample_file_import :
  file_summary (sample_import_file sample_context sample_file new_host)
  = Some ([unknown_chunk 0xBEEF "mesh"; unknown_chunk 0xAAAA "bone";
           unknown_chunk 0xAAAA "bone"; unknown_chunk 0xBEEF "main";
           unknown_chunk 0x1234 "root"],
          ["gamedata/textures/det/wall.dds"],
          [(1, Some ["root"; "hand"])]).
Proof. vm_compute. reflexivity. Qed.

(** A mesh of version 0x12, a bone of version 3, an object of version 0x11,
    and a mesh chunk of the unknown tag 0xBEEF. *)
Lemma version_mismatch_fatal_unknown_tag_skipped_witness :
  _import_mesh (F:=Z) sample_mesh_tags rejects_degenerate sample_context
    (chunked_reader (put_chunk 0x1000 (put_u16 0x12))) "o" new_host
  = Raise (UnsupportedVersion "MESH" 0x12) /\
  _import_bone (F:=Z) sample_bone_tags (fun _ n => n) (fun v => v) sample_context
    (chunked_reader (put_chunk 0x1 (put_u16 0x3))) new_host None ∅
  = Raise (UnsupportedVersion "BONE" 0x3) /\
  _import_main (F:=Z) (M:=list (bool * (Z * Z * Z)))
    sample_mesh_tags sample_bone_tags sample_object_tags rejects_degenerate
    (fun _ n => n) (fun v => v) lower_string "/"%char (fun _ => true) (fun bs => bs)
    (fun h _ => Ok h) sample_context (chunked_reader (put_chunk 0x0900 (put_u16 0x11)))
    new_host
  = Raise (UnsupportedVersion "OBJECT" 0x11) /\
  mesh_chunks (F:=Z) sample_mesh_tags rejects_degenerate sample_context
    (cr_chunk 0xBEEF [x01] cr_end) new_host new_mesh
  = mesh_chunks (F:=Z) sample_mesh_tags rejects_degenerate sample_context cr_end
      (warn_imknown_chunk 0xBEEF "mesh" new_host) new_mesh /\
  console (warn_imknown_chunk (F:=Z) 0xBEEF "mesh" new_host)
  = [unknown_chunk 0xBEEF "mesh"].
Proof.
  pose proof (version_mismatch_fatal_unknown_tag_skipped (F:=Z)
                (M:=list (bool * (Z * Z * Z)))
                sample_mesh_tags sample_bone_tags sample_object_tags rejects_degenerate
                (fun _ n => n) (fun v => v) lower_string "/"%char (fun _ => true)
                (fun bs => bs) (fun h _ => Ok h))
    as (Hmesh & Hbone & Hmain & Hmc & _ & _ & _ & Hwarn & _).
  split; [|split; [|split; [|split]]].
  - apply (Hmesh sample_context (chunked_reader (put_chunk 0x1000 (put_u16 0x12))) cr_end
             "o" new_host 0x12%N).
    + vm_compute. reflexivity.
    + discriminate.
  - apply (Hbone sample_context (chunked_reader (put_chunk 0x1 (put_u16 0x3))) cr_end
             new_host None ∅ 0x3%N).
    + vm_compute. reflexivity.
    + discriminate.
  - apply (Hmain sample_context (chunked_reader (put_chunk 0x0900 (put_u16 0x11))) cr_end
             new_host 0x11%N).
    + vm_compute. reflexivity.
    + discriminate.
  - apply (Hmc sample_context 0xBEEF%N [x01] cr_end new_host new_mesh).
    apply (bool_decide_unpack _). vm_compute. exact I.
  - exact (proj1 (Hwarn 0xBEEF%N "mesh" new_host)).
Defined.


(** The bones "root" and "hand" of one chunk: the transform of "hand" is the
    one of "root" composed with its own translation and rotation. *)
Lemma bind_transform_composition_witness :
  exists h' oarm' bonemat',
    root_and_hand_run = Ok (h', oarm', bonemat') /\
    bonemat' !! "hand"
    = Some (mat_mul (mat_mul root_transform (mat_translation (10, 0, 0)%Z))
                    (mat_euler_zxy (4, 5, 6)%Z)).
Proof.
  assert (exists h' oarm' bonemat', root_and_hand_run = Ok (h', oarm', bonemat'))
    as (h' & oarm' & bonemat' & Hrun).
  { vm_compute. eexists _, _, _. reflexivity. }
  exists h', oarm', bonemat'. split; [exact Hrun|].
  destruct (bind_transform_composition (F:=Z) sample_bone_tags (fun _ n => n) (fun v => v)
              sample_context (chunked_reader root_and_hand) new_host h'
              (Some new_armature) oarm' bonemat' Hrun)
    as (ds & ts & Hds & Hlen & Hbind & _ & Hlast & _).
  vm_compute in Hds. injection Hds as <-.
  destruct ts as [|t0 [|t1 [|? ?]]]; try discriminate Hlen.
  destruct (Hbind 0 _ t0 eq_refl eq_refl) as (P0 & Ht0 & [(j & dj & Hj & _)|[-> _]]); [lia|].
  destruct (Hbind 1 _ t1 eq_refl eq_refl)
    as (P1 & Ht1 & [(j & dj & Hj & _ & _ & HP1 & _)|[_ Hno]]).
  - assert (j = 0) as -> by lia. injection HP1 as <-.
    etrans; [apply (Hlast 1 _ eq_refl)|].
    + intros j dj' Hj' Hl. apply lookup_lt_Some in Hl. simpl in Hl. lia.
    + simpl. f_equal. rewrite Ht1, Ht0. reflexivity.
  - exfalso. apply (Hno 0 _ Nat.lt_0_1 eq_refl). reflexivity.
Defined.

(** The same two bones in two BONES1 chunks of one object. *)
Definition root_bone : list byte :=
  put_chunk 0 (put_bone 0x2 "root" "" (put_vec 1 2 3) (put_vec 0 0 0)).
Definition hand_bone : list byte :=
  put_chunk 0 (put_bone 0x2 "hand" "root" (put_vec 10 0 0) (put_vec 4 5 6)).

Definition two_bone_chunks : list byte :=
  put_chunk 0x7777
    (put_chunk 0x0900 (put_u16 0x10)
     ++ put_chunk 0x0921 root_bone ++ put_chunk 0x0921 hand_bone).

Definition bones_of (a : @armature Z) : list (string * option string * (Z * Z * Z)) :=
  (fun b : @EditBone Z => (eb_name b, eb_parent b, eb_head b)) <$> edit_bones a.

(** The two chunks as the loop of [_import_main] imports them, the second one
    into the armature of the first, with a [bonemat] of its own (line 281):
    what [bonemat] holds for "root" after the first chunk and for "hand" after
    the second, and the bones of the armature. *)
Definition two_bone_chunks_run
  : result (option (list (bool * (Z * Z * Z))) * option (list (bool * (Z * Z * Z)))
            * option (list (string * option string * (Z * Z * Z)))) :=
  let* (h1, oarm1, bm1) :=
    sample_import_bones sample_context (chunked_reader root_bone) new_host
      (Some new_armature) ∅ in
  let* (h2, oarm2, bm2) :=
    sample_import_bones sample_context (chunked_reader hand_bone) h1 oarm1 ∅ in
  Ok (bm1 !! "root", bm2 !! "hand", bones_of <$> oarm2).

Definition file_bones (r : result (ImportContext * @host Z * @scene Z))
  : option (list (option (list (string * option string * (Z * Z * Z))))) :=
  match r with
  | Ok (_, _, sc) =>
      Some ((fun s : list (@mesh Z) * option (@armature Z) => bones_of <$> s.2) <$> sc)
  | Raise _ => None
  end.

(** The bone "hand" names "root" as its parent, the transform of "root" was
    computed when the first chunk was imported, and yet the transform of
    "hand" is not the one of "root" composed with the translation and the
    rotation of "hand", but these two alone: its head is at (10, 0, 0), where
    the same bones in one chunk put it at (11, 2, 3). *)
Lemma bind_transform_composition_counterexample :
  two_bone_chunks_run
  = Ok (Some root_transform, Some [(true, (10, 0, 0)%Z); (false, (4, 5, 6)%Z)],
        Some [("root", None, (1, 2, 3)%Z); ("hand", Some "root", (10, 0, 0)%Z)]) /\
  [(true, (10, 0, 0)%Z); (false, (4, 5, 6)%Z)]
  <> mat_mul (mat_mul root_transform (mat_translation (10, 0, 0)%Z))
             (mat_euler_zxy (4, 5, 6)%Z) /\
  file_bones (sample_import_file sample_context two_bone_chunks new_host)
  = Some [Some [("root", None, (1, 2, 3)%Z); ("hand", Some "root", (10, 0, 0)%Z)]] /\
  bones_of <$> (match root_and_hand_run with Ok r => r.1.2 | Raise _ => None end)
  = Some [("root", None, (1, 2, 3)%Z); ("hand", Some "root", (11, 2, 3)%Z)].
Proof.
  split; [|split; [|split]].
  - vm_compute. reflexivity.
  - intros Heq. vm_compute in Heq. discriminate Heq.
  - vm_compute. reflexivity.
  - vm_compute. reflexivity.
Qed.

Definition hand_weights : PackedReader :=
  {| data := put_str "hand" ++ [x01; x01; x01] ++ put_u32 2
               ++ (put_u32 9 ++ put_u32 9) ++ (put_u32 0 ++ put_u32 1)
               ++ (put_u32 0 ++ put_u32 0);
     offs := 0 |}.

Lemma disconnected_weights_not_applied_witness :
  exists pr' m', import_vmap (F:=Z) (hand_weights, new_mesh) = Ok (pr', m') /\
                 deform m' = ∅ /\ vertex_groups m' = ["hand"].
Proof.
  edestruct (proj1 (disconnected_weights_not_applied (F:=Z))
               hand_weights (advance hand_weights 5) (advance (advance hand_weights 5) 1)
               (advance (advance (advance hand_weights 5) 1) 1)
               (advance (advance (advance (advance hand_weights 5) 1) 1) 1)
               (advance (advance (advance (advance (advance hand_weights 5) 1) 1) 1) 4)
               new_mesh "hand" 1%N 1%N 1%N 2%N)
    as (m' & Hm' & Hd & _ & _ & Hg).
  - reflexivity.
  - reflexivity.
  - reflexivity.
  - discriminate.
  - reflexivity.
  - reflexivity.
  - reflexivity.
  - vm_compute. lia.
  - eexists _, m'. split; [exact Hm'|]. split; [exact Hd|exact Hg].
Defined.

Lemma image_cache_per_context_witness :
  exists img cx1 h1,
    sample_image sample_context new_host "Det\Wall" = Ok (img, cx1, h1) /\
    sample_image cx1 h1 "det/wall" = Ok (img, cx1, h1) /\
    data_images h1 = ["gamedata/textures/det/wall.dds"].
Proof.
  assert (exists img cx1 h1,
            sample_image sample_context new_host "Det\Wall" = Ok (img, cx1, h1) /\
            data_images h1 = ["gamedata/textures/det/wall.dds"])
    as (img & cx1 & h1 & Hfirst & Hload).
  { vm_compute. eexists _, _, _. split; reflexivity. }
  exists img, cx1, h1. split; [exact Hfirst|]. split; [|exact Hload].
  apply (proj1 (image_cache_per_context (F:=Z) lower_string "/"%char (fun s => s)
                  (fun _ => true))
           sample_context cx1 cx1 new_host h1 h1 "Det\Wall" "det/wall" [] img []).
  - exact Hfirst.
  - reflexivity.
  - vm_compute. reflexivity.
Defined.

(** *** The chunks of the square, once more *)

Lemma sg_chunk_needs_face_slots_witness :
  (exists m', import_sg (F:=Z) (put_u32 1 ++ put_u32 2) two_triangles = Ok m') /\
  import_sg (F:=Z) (put_u32 1) new_mesh = Raise IndexError.
Proof.
  split.
  - destruct (proj1 (sg_chunk_needs_face_slots (F:=Z) (put_u32 1 ++ put_u32 2)
                       two_triangles)) as (m' & Hm' & _).
    + vm_compute. lia.
    + exists m'. exact Hm'.
  - apply (proj2 (sg_chunk_needs_face_slots (F:=Z) (put_u32 1) new_mesh)).
    vm_compute. lia.
Defined.

Lemma imported_mesh_is_consistent_witness :
  exists h m, square_mesh [1; 2; 7]%N = Ok (h, m) /\ seam m = sharp m.
Proof.
  pose proof square_groups_1_2 as Hex.
  destruct (square_mesh [1; 2; 7]%N) as [[h m]|e] eqn:Hrun; [|discriminate Hex].
  exists h, m. split; [reflexivity|].
  unfold square_mesh, sample_import_mesh in Hrun.
  destruct (imported_mesh_is_consistent (F:=Z) sample_mesh_tags rejects_degenerate
              sample_context (chunked_reader (square_chunks 0x11 [1; 2; 7]%N))
              "test.object" new_host h m Hrun) as (_ & _ & Hseam & _).
  exact Hseam.
Defined.



(** The surface of the sample file, on a host that has its material. *)
Definition wall_surface : PackedReader :=
  {| data := put_str "mat" ++ put_str "e" ++ put_str "c" ++ put_str "g"
               ++ put_str "Det\Wall" ++ put_str "Texture"
               ++ put_u32 1 ++ put_u32 0 ++ put_u32 0;
     offs := 0 |}.

Lemma surfaces_keep_image_cache_witness :
  exists pr' cx' h',
    surface_loop (F:=Z) lower_string "/" (fun _ => true) 1
      (wall_surface, sample_context, with_data_materials ["mat"] new_host)
    = Ok (pr', cx', h') /\
    cache_ok cx' h' /\ data_materials h' = ["mat"].
Proof.
  assert (exists pr' cx' h',
            surface_loop (F:=Z) lower_string "/" (fun _ => true) 1
              (wall_surface, sample_context, with_data_materials ["mat"] new_host)
            = Ok (pr', cx', h'))
    as (pr' & cx' & h' & Hrun).
  { vm_compute. eexists _, _, _. reflexivity. }
  destruct (surfaces_keep_image_cache (F:=Z) lower_string "/"%char (fun _ => true) 1
              wall_surface pr' sample_context cx'
              (with_data_materials ["mat"] new_host) h')
    as (Hok & _ & _ & _ & _ & _ & Hm & _).
  - intros p i Hp. discriminate Hp.
  - exact Hrun.
  - exists pr', cx', h'. split; [exact Hrun|]. split; [exact Hok|exact Hm].
Defined.

(** A context without the host, and a file of one object that has a surface
    and a chunk of an unknown tag, followed by a chunk of an unknown tag. *)
Definition headless_context : ImportContext :=
  new_context lower_string (fun s => s) "Test.object" "gamedata" false.

Definition surfaces_only : list byte :=
  put_chunk 0x7777
    (put_chunk 0x0900 (put_u16 0x10)
     ++ put_chunk 0x0907 (put_u32 1 ++ data wall_surface)
     ++ put_chunk 0xBEEF [])
  ++ put_chunk 0x1234 [].

Example surfaces_only_import :
  file_summary (sample_import_file headless_context surfaces_only new_host)
  = Some ([unknown_chunk 0xBEEF "main"; unknown_chunk 0x1234 "root"], [], [(0, None)]).
Proof. vm_compute. reflexivity. Qed.

Lemma import_without_host_only_prints_witness :
  exists cx' h' sc,
    sample_import_file headless_context surfaces_only new_host = Ok (cx', h', sc) /\
    cx' = headless_context /\ events h' = [] /\ data_images h' = [].
Proof.
  pose proof surfaces_only_import as Hex.
  destruct (sample_import_file headless_context surfaces_only new_host)
    as [[[cx' h'] sc]|e] eqn:Hrun; [|discriminate Hex].
  exists cx', h', sc. split; [reflexivity|].
  unfold sample_import_file in Hrun.
  destruct (import_without_host_only_prints (F:=Z) (M:=list (bool * (Z * Z * Z)))
              sample_mesh_tags sample_bone_tags sample_object_tags rejects_degenerate
              (fun _ n => n) (fun v => v) lower_string "/"%char (fun _ => true)
              (fun bs => bs) (fun h _ => Ok h)
              headless_context cx' surfaces_only new_host h' sc)
    as (Hcx & _ & _ & _ & Hi & He & _).
  - reflexivity.
  - reflexivity.
  - exact Hrun.
  - split; [exact Hcx|]. split; [exact He|exact Hi].
Defined.

End Obj.

(** ** The OGF exporter: [fmt_ogf_exp.py] *)

Module Ogf.

Section Exporter.

Context {F : Type} `{Countable F} `{Float F}.

(** [mathutils.Vector.normalized]. *)
Variable normalized : F * F * F -> F * F * F.

Definition vec3 : Type := F * F * F.
Definition vec2 : Type := F * F.

(** The dictionary key of [_export_child]:
    [(l.vert.index, co, normal, tangent, bitangent, uv)].  Two keys are the
    same key of the dictionary when their components are equal: [F] stands
    for the numbers among the floats, which [==] compares as equality tells
    (a NaN, which is not equal to itself, is no element of [F]). *)
Definition vtx : Type := nat * vec3 * vec3 * vec3 * vec3 * vec2.

Definition vtx_index (v : vtx) : nat := v.1.1.1.1.1.
Definition vtx_co (v : vtx) : vec3 := v.1.1.1.1.2.
Definition vtx_normal (v : vtx) : vec3 := v.1.1.1.2.
Definition vtx_tangent (v : vtx) : vec3 := v.1.1.2.
Definition vtx_bitangent (v : vtx) : vec3 := v.1.2.
Definition vtx_uv (v : vtx) : vec2 := v.2.

Record BMVert := { v_index : nat; v_co : vec3 }.
Record BMLoop := { l_vert : BMVert; l_uv : vec2 }.
Record BMFace := { f_index : nat; f_loops : list BMLoop }.
(** A loop of [bpy_data] after [calc_tangents]. *)
Record MeshLoop := { normal : vec3; tangent : vec3; bitangent : vec3 }.

Definition make_vtx (dl : MeshLoop) (l : BMLoop) : vtx :=
  (v_index (l_vert l), v_co (l_vert l), normal dl, tangent dl,
   normalized (bitangent dl), ((l_uv l).1, fsub f_one (l_uv l).2)).

(** The three accumulators of the loop at lines 82-96. *)
Record dedup := { vertices : list vtx; indices : list (list nat); vmap : gmap vtx nat }.

Definition dedup_empty : dedup := {| vertices := []; indices := []; vmap := ∅ |}.

(** One face corner: lines 88-95. *)
Definition corner (loops : list MeshLoop) (f : BMFace) (li : nat) (l : BMLoop)
    (vs : list vtx) (vm : gmap vtx nat) (ii : list nat)
  : result (list vtx * gmap vtx nat * list nat) :=
  let* dl := of_option IndexError (loops !! (f_index f * 3 + li)) in
  let k := make_vtx dl l in
  match vm !! k with
  | Some vi => Ok (vs, vm, ii ++ [vi])
  | None =>
      let vi := length vs in
      Ok (vs ++ [k], <[k := vi]> vm, ii ++ [vi])
  end.

(** [for li, l in enumerate(f.loops)]. *)
Fixpoint corners (loops : list MeshLoop) (f : BMFace) (li : nat) (ls : list BMLoop)
    (vs : list vtx) (vm : gmap vtx nat) (ii : list nat)
  : result (list vtx * gmap vtx nat * list nat) :=
  match ls with
  | [] => Ok (vs, vm, ii)
  | l :: ls' =>
      let* (vs', vm', ii') := corner loops f li l vs vm ii in
      corners loops f (S li) ls' vs' vm' ii'
  end.

(** [for f in bm.faces]. *)
Fixpoint export_faces (loops : list MeshLoop) (fs : list BMFace) (st : dedup)
  : result dedup :=
  match fs with
  | [] => Ok st
  | f :: fs' =>
      let* (vs, vm, ii) := corners loops f 0 (f_loops f) (vertices st) (vmap st) [] in
      export_faces loops fs'
        {| vertices := vs; indices := indices st ++ [ii]; vmap := vm |}
  end.

Definition export_dedup (loops : list MeshLoop) (fs : list BMFace) : result dedup :=
  export_faces loops fs dedup_empty.

(** *** Bone weights: [max_two] and the vertex chunk (lines 40-55, 98-145) *)

(** The deform weights of one vertex, [v[bml_vw]]: group index and weight, in
    the order in which [keys()] yields them.  The keys of a mapping are
    pairwise distinct; the theorems say where they rely on it. *)
Definition weights : Type := list (nat * F).

Definition keys (dic : weights) : list nat := map fst dic.

(** [dic[k]]; [None] stands for KeyError. *)
Fixpoint getitem (dic : weights) (k : nat) : option F :=
  match dic with
  | [] => None
  | (k', v) :: dic' => if decide (k' = k) then Some v else getitem dic' k
  end.

(** First loop of [max_two]: [k0] and [mx] are the loop variables. *)
Fixpoint max_two_first (dic : weights) (ks : list nat) (k0 : option nat) (mx : F)
  : result (option nat) :=
  match ks with
  | [] => Ok k0
  | k :: ks' =>
      let* v := of_option KeyError (getitem dic k) in
      if fgt v mx then max_two_first dic ks' (Some k) v
      else max_two_first dic ks' k0 mx
  end.

(** Second loop of [max_two]: the same scan, skipping [k0]. *)
Fixpoint max_two_second (dic : weights) (k0 : option nat) (ks : list nat)
    (k1 : option nat) (mx : F) : result (option nat) :=
  match ks with
  | [] => Ok k1
  | k :: ks' =>
      let* v := of_option KeyError (getitem dic k) in
      if fgt v mx && negb (bool_decide (Some k = k0))
      then max_two_second dic k0 ks' (Some k) v
      else max_two_second dic k0 ks' k1 mx
  end.

(** [dic[k]] for a [k] that may be [None]. *)
Definition getitem_opt (dic : weights) (k : option nat) : result (nat * F) :=
  match k with
  | None => Raise KeyError
  | Some k => let* v := of_option KeyError (getitem dic k) in Ok (k, v)
  end.

Definition max_two (dic : weights) : result weights :=
  let* k0 := max_two_first dic (keys dic) None f_minus_one in
  let* k1 := max_two_second dic k0 (keys dic) None f_minus_one in
  let* e0 := getitem_opt dic k0 in
  let* e1 := getitem_opt dic k1 in
  Ok [e0; e1].

(** What [PackedWriter.putf] is asked to write: a format character with its
    value.  The byte layout belongs to [xray_io]. *)
Inductive item : Type :=
  | put_H (n : N)
  | put_I (n : N)
  | put_f (x : F).

Definition put_H' (n : nat) : item := put_H (N.of_nat n).
Definition put_I' (n : nat) : item := put_I (N.of_nat n).

Definition put_fff (v : vec3) : list item := [put_f v.1.1; put_f v.1.2; put_f v.2].
Definition put_ff (v : vec2) : list item := [put_f v.1; put_f v.2].

(** What goes to the console. *)
Inductive message : Type :=
  | warning_vwmx (vwmx : nat).

(** [struct.pack] of an unsigned value raises [struct.error] when the value
    does not fit the format: 16 bits for [H], 32 bits for [I]. *)
Definition pack_H (n : nat) : result item :=
  if (N.of_nat n <? 65536)%N then Ok (put_H' n) else Raise StructError.

Definition pack_I (n : nat) : result item :=
  if (N.of_nat n <? 2 ^ 32)%N then Ok (put_I' n) else Raise StructError.

(** An index that fits 16 bits. *)
Definition fits_H (j : nat) : Prop := (N.of_nat j < 65536)%N.

(** Lines 98-102: the largest number of influences on a vertex of [bm.verts]. *)
Definition max_influences (verts : list weights) : nat :=
  fold_left (fun vwmx vw => let vwc := length vw in if vwmx <? vwc then vwc else vwmx)
            verts 0.

(** Lines 124-132: the loop over the two keys. *)
Fixpoint blend_loop (vw : weights) (ks : list nat) (first : bool) (w0 bw : F)
    (pw : list item) : result (list item * F) :=
  match ks with
  | [] => Ok (pw, bw)
  | vgi :: ks' =>
      let* slot := pack_H vgi in
      let pw := pw ++ [slot] in
      let* w := of_option KeyError (getitem vw vgi) in
      if first then blend_loop vw ks' false w bw pw
      else
        let* q := of_option ZeroDivisionError (fdiv w0 (fadd w0 w)) in
        blend_loop vw ks' first w0 (fsub f_one q) pw
  end.

(** Lines 133-135: [for vgi in vw.keys(): pw.putf('HH', vgi, vgi)]. *)
Fixpoint same_slots (ks : list nat) (pw : list item) : result (list item) :=
  match ks with
  | [] => Ok pw
  | vgi :: ks' => let* slot := pack_H vgi in same_slots ks' (pw ++ [slot; slot])
  end.

(** Lines 119-144: the record of one output vertex in the multi-influence path. *)
Definition vertex_record (verts : list weights) (v : vtx) : result (list item) :=
  let* vw := of_option IndexError (verts !! vtx_index v) in
  let* vw := if 2 <? length vw then max_two vw else Ok vw in
  let* (slots, bw) :=
    if length vw =? 2 then blend_loop vw (keys vw) true f_zero f_zero []
    else if length vw =? 1 then
      let* slots := same_slots (keys vw) [] in Ok (slots, f_zero)
    else Raise (Failure "oops") in
  Ok (slots ++ put_fff (vtx_co v) ++ put_fff (vtx_normal v) ++ put_fff (vtx_tangent v)
            ++ put_fff (vtx_bitangent v) ++ [put_f bw] ++ put_ff (vtx_uv v)).

(** Lines 106-113: the record of one output vertex when every vertex has at
    most one influence. *)
Definition vertex_record_1 (verts : list weights) (v : vtx) : result (list item) :=
  let* vw := of_option IndexError (verts !! vtx_index v) in
  let* k := of_option IndexError (keys vw !! 0) in
  let* bone := pack_I k in
  Ok (put_fff (vtx_co v) ++ put_fff (vtx_normal v) ++ put_fff (vtx_tangent v)
        ++ put_fff (vtx_bitangent v) ++ put_ff (vtx_uv v) ++ [bone]).

(** [for v in vertices: ...], appending to [pw]. *)
Fixpoint records (rec : vtx -> result (list item)) (vs : list vtx) (pw : list item)
  : result (list item) :=
  match vs with
  | [] => Ok pw
  | v :: vs' => let* r := rec v in records rec vs' (pw ++ r)
  end.

(** Lines 98-145: the console output and the payload of chunk 0x3. *)
Definition export_vertices (verts : list weights) (vs : list vtx)
  : list message * result (list item) :=
  let vwmx := max_influences verts in
  if vwmx =? 1 then ([], records (vertex_record_1 verts) vs [])
  else
    ((if negb (vwmx =? 2) then [warning_vwmx vwmx] else []),
     records (vertex_record verts) vs [put_I 0x240e3300%N; put_I' (length vs)]).

(** *** Reading the result of the deduplication *)

(** The key of corner [li] of face [f], when the corner and its mesh loop exist. *)
Definition corner_key (loops : list MeshLoop) (f : BMFace) (li : nat) : option vtx :=
  l ← f_loops f !! li;
  dl ← loops !! (f_index f * 3 + li);
  Some (make_vtx dl l).

(** The key of corner [li] of the [fi]-th face. *)
Definition key_at (loops : list MeshLoop) (fs : list BMFace) (fi li : nat) : option vtx :=
  f ← fs !! fi; corner_key loops f li.

(** The output index written for corner [li] of the [fi]-th face. *)
Definition index_at (d : dedup) (fi li : nat) : option nat :=
  ii ← indices d !! fi; ii !! li.

(** Every key met by the loop, in the order of the iteration. *)
Definition all_keys (loops : list MeshLoop) (fs : list BMFace) : list vtx :=
  fs ≫= (fun f => omap (corner_key loops f) (seq 0 (length (f_loops f)))).

(** The table and the list of output vertices describe each other. *)
Definition table_ok (vs : list vtx) (vm : gmap vtx nat) : Prop :=
  NoDup vs /\ forall k i, vm !! k = Some i <-> vs !! i = Some k.

Lemma table_ok_empty : table_ok [] ∅.
Proof.
  split; [constructor|]. intros k i. rewrite lookup_empty, lookup_nil. split; discriminate.
Qed.

Lemma table_ok_fresh (vs : list vtx) (vm : gmap vtx nat) (k : vtx) :
  table_ok vs vm -> vm !! k = None -> table_ok (vs ++ [k]) (<[k := length vs]> vm).
Proof.
  intros [Hnd Hvm] Hk. split.
  - apply NoDup_app. split; [done|]. split; [|apply NoDup_singleton].
    intros x Hx Hx'. apply list_elem_of_singleton in Hx'. subst x.
    apply list_elem_of_lookup in Hx as [i Hi]. apply Hvm in Hi. congruence.
  - intros k' i. destruct (decide (k = k')) as [->|Hne].
    + rewrite lookup_insert_eq. split.
      * intros [= <-]. by rewrite lookup_app_r, Nat.sub_diag.
      * intros Hi. f_equal. destruct (decide (i < length vs)) as [Hlt|Hge].
        -- rewrite lookup_app_l in Hi by done. apply Hvm in Hi. congruence.
        -- apply lookup_lt_Some in Hi as Hlen. rewrite length_app in Hlen. simpl in Hlen. lia.
    + rewrite lookup_insert_ne by done. rewrite Hvm. split.
      * intros Hi. apply lookup_app_l_Some. done.
      * intros Hi. apply lookup_app_Some in Hi as [Hi|[Hge Hi]]; [done|].
        apply list_lookup_singleton_Some in Hi as [_ ?]. congruence.
Qed.

Lemma corner_spec loops f li l vs vm ii vs' vm' ii' :
  table_ok vs vm ->
  corner loops f li l vs vm ii = Ok (vs', vm', ii') ->
  exists dl vi,
    loops !! (f_index f * 3 + li) = Some dl /\
    table_ok vs' vm' /\ vs `prefix_of` vs' /\
    ii' = ii ++ [vi] /\ vs' !! vi = Some (make_vtx dl l) /\
    (forall k, k ∈ vs' <-> k ∈ vs \/ k = make_vtx dl l).
Proof.
  intros Hok Hc. unfold corner in Hc.
  apply rbind_Ok in Hc as (dl & Hdl & Hc). apply of_option_Ok in Hdl.
  exists dl. destruct (vm !! make_vtx dl l) as [vi|] eqn:Hk.
  - injection Hc as <- <- <-. exists vi. split_and!; try done.
    + by apply Hok.
    + intros k. split; [by left|]. intros [?| ->]; [done|].
      apply list_elem_of_lookup. exists vi. by apply Hok.
  - injection Hc as <- <- <-. exists (length vs). split_and!; try done.
    + by apply table_ok_fresh.
    + by apply prefix_app_r.
    + by rewrite lookup_app_r, Nat.sub_diag.
    + intros k. rewrite elem_of_app, list_elem_of_singleton. done.
Qed.

Lemma corners_spec loops f ls : forall li vs vm ii vs' vm' ii',
  table_ok vs vm ->
  corners loops f li ls vs vm ii = Ok (vs', vm', ii') ->
  table_ok vs' vm' /\ vs `prefix_of` vs' /\
  exists js, ii' = ii ++ js /\ length js = length ls /\
    (forall n l, ls !! n = Some l ->
       exists dl j, loops !! (f_index f * 3 + (li + n)) = Some dl /\
                    js !! n = Some j /\ vs' !! j = Some (make_vtx dl l)) /\
    (forall k, k ∈ vs' <-> k ∈ vs \/
       exists n l dl, ls !! n = Some l /\
                      loops !! (f_index f * 3 + (li + n)) = Some dl /\
                      k = make_vtx dl l).
Proof.
  induction ls as [|l ls IH]; intros li vs vm ii vs' vm' ii' Hok Hc; simpl in Hc.
  - injection Hc as <- <- <-. split_and!; try done. exists []. split_and!.
    + by rewrite app_nil_r.
    + done.
    + intros n l Hn. by rewrite lookup_nil in Hn.
    + intros k. split; [by left|]. intros [?|(n & l & ? & Hn & _)]; [done|].
      by rewrite lookup_nil in Hn.
  - apply rbind_Ok in Hc as ([[vs1 vm1] ii1] & Hc1 & Hc).
    apply corner_spec in Hc1 as (dl & vi & Hdl & Hok1 & Hpre1 & -> & Hvi & Hmem1); [|done].
    apply IH in Hc as (Hok' & Hpre & js & -> & Hlen & Hidx & Hmem); [|done].
    split_and!; try done.
    { by etrans. }
    exists (vi :: js). split_and!.
    + by rewrite <- app_assoc.
    + simpl. by rewrite Hlen.
    + intros [|n] l' Hn; simpl in Hn.
      * injection Hn as <-. exists dl, vi. rewrite Nat.add_0_r. split_and!; try done.
        by eapply prefix_lookup_Some.
      * apply Hidx in Hn as (dl' & j & Hdl' & Hj & Hvj).
        exists dl', j. split_and!; try done.
        by replace (li + S n) with (S li + n) by lia.
    + intros k. rewrite Hmem, Hmem1. split.
      * intros [[?| ->]|(n & l' & dl' & Hn & Hdl' & ->)].
        -- by left.
        -- right. exists 0, l, dl. by rewrite Nat.add_0_r.
        -- right. exists (S n), l', dl'. split_and!; try done.
           by replace (li + S n) with (S li + n) by lia.
      * intros [?|([|n] & l' & dl' & Hn & Hdl' & ->)]; try simpl in Hn.
        -- by left; left.
        -- injection Hn as <-. rewrite Nat.add_0_r in Hdl'. left; right. congruence.
        -- right. exists n, l', dl'. split_and!; try done.
           by replace (S li + n) with (li + S n) by lia.
Qed.

Lemma export_faces_spec loops fs : forall st d,
  table_ok (vertices st) (vmap st) ->
  export_faces loops fs st = Ok d ->
  table_ok (vertices d) (vmap d) /\ vertices st `prefix_of` vertices d /\
  exists iis, indices d = indices st ++ iis /\ length iis = length fs /\
    (forall fi f, fs !! fi = Some f ->
       exists ii, iis !! fi = Some ii /\ length ii = length (f_loops f) /\
         forall li, li < length (f_loops f) ->
           exists k j, corner_key loops f li = Some k /\ ii !! li = Some j /\
                       vertices d !! j = Some k) /\
    (forall k, k ∈ vertices d <-> k ∈ vertices st \/
       exists fi li, key_at loops fs fi li = Some k).
Proof.
  induction fs as [|f fs IH]; intros st d Hok He; simpl in He.
  - injection He as <-. split_and!; try done. exists []. split_and!.
    + by rewrite app_nil_r.
    + done.
    + intros fi f Hf. by rewrite lookup_nil in Hf.
    + intros k. split; [by left|]. intros [?|(fi & li & Hk)]; [done|].
      unfold key_at in Hk. by rewrite lookup_nil in Hk.
  - apply rbind_Ok in He as ([[vs1 vm1] ii1] & Hc & He).
    apply corners_spec in Hc as (Hok1 & Hpre1 & js & Hii & Hlen1 & Hidx1 & Hmem1); [|done].
    simpl in Hii. subst ii1.
    apply IH in He as (Hok' & Hpre & iis & Hind & Hlen & Hidx & Hmem); [|done].
    simpl in Hpre, Hind, Hmem.
    split_and!; try done.
    { by etrans. }
    exists (js :: iis). split_and!.
    + by rewrite Hind, <- app_assoc.
    + simpl. by rewrite Hlen.
    + intros [|fi] f' Hf; simpl in Hf.
      * injection Hf as <-. exists js. split_and!; try done.
        intros li Hli. apply lookup_lt_is_Some_2 in Hli as [l Hl].
        destruct (Hidx1 _ _ Hl) as (dl & j & Hdl & Hj & Hvj). simpl in Hdl.
        exists (make_vtx dl l), j. split_and!; try done.
        -- unfold corner_key. rewrite Hl. simpl. by rewrite Hdl.
        -- by eapply prefix_lookup_Some.
      * by apply Hidx in Hf.
    + intros k. rewrite Hmem, Hmem1. split.
      * intros [[?|(n & l & dl & Hn & Hdl & ->)]|(fi & li & Hk)].
        -- by left.
        -- right. exists 0, n. unfold key_at, corner_key. simpl. rewrite Hn. simpl.
           simpl in Hdl. by rewrite Hdl.
        -- right. by exists (S fi), li.
      * intros [?|([|fi] & li & Hk)].
        -- by left; left.
        -- left; right. unfold key_at, corner_key in Hk. simpl in Hk.
           destruct (f_loops f !! li) as [l|] eqn:Hl; [|done]. simpl in Hk.
           destruct (loops !! (f_index f * 3 + li)) as [dl|] eqn:Hdl; [|done].
           injection Hk as <-. by exists li, l, dl.
        -- right. by exists fi, li.
Qed.

(** The export never fails when the mesh has a loop for every face corner,
    which is what [bm.to_mesh] provides after the triangulation. *)
Definition loops_cover (loops : list MeshLoop) (fs : list BMFace) : Prop :=
  forall f li, f ∈ fs -> li < length (f_loops f) -> f_index f * 3 + li < length loops.

Lemma corners_total loops f ls : forall li vs vm ii,
  (forall n, n < length ls -> f_index f * 3 + (li + n) < length loops) ->
  exists r, corners loops f li ls vs vm ii = Ok r.
Proof.
  induction ls as [|l ls IH]; intros li vs vm ii Hcov; simpl; [eauto|].
  unfold corner. destruct (lookup_lt_is_Some_2 loops (f_index f * 3 + li)) as [dl ->].
  { specialize (Hcov 0). rewrite Nat.add_0_r in Hcov. apply Hcov. simpl. lia. }
  simpl. destruct (vm !! make_vtx dl l); simpl; apply IH; intros m Hm;
    replace (S li + m) with (li + S m) by lia; apply Hcov; simpl; lia.
Qed.

Lemma export_faces_total loops fs : forall st,
  loops_cover loops fs -> exists d, export_faces loops fs st = Ok d.
Proof.
  induction fs as [|f fs IH]; intros st Hcov; simpl; [eauto|].
  destruct (corners_total loops f (f_loops f) 0 (vertices st) (vmap st) []) as [[[vs vm] ii] ->].
  { intros n Hn. apply Hcov; [left|done]. }
  simpl. apply IH. intros f' li Hf' Hli. apply Hcov; [by right|done].
Qed.

Lemma elem_of_all_keys loops fs k :
  k ∈ all_keys loops fs <-> exists fi li, key_at loops fs fi li = Some k.
Proof.
  unfold all_keys, key_at. rewrite list_elem_of_bind. split.
  - intros (f & Hk & Hf). apply list_elem_of_lookup in Hf as [fi Hfi].
    apply list_elem_of_omap in Hk as (li & _ & Hk). exists fi, li. by rewrite Hfi.
  - intros (fi & li & Hk). destruct (fs !! fi) as [f|] eqn:Hfi; [|done]. simpl in Hk.
    exists f. split; [|by eapply list_elem_of_lookup_2].
    apply list_elem_of_omap. exists li. split; [|done].
    apply elem_of_seq. unfold corner_key in Hk.
    destruct (f_loops f !! li) eqn:Hl; [|done]. apply lookup_lt_Some in Hl. lia.
Qed.

(** C1.  Vertex deduplication of [_export_child] (lines 82-96).  When the mesh
    has a loop for every face corner the loop succeeds, and then: every face is
    re-expressed by one output index per corner (three for a triangle), each
    index pointing into the deduplicated vertex list at the corner's own key,
    which is the tuple of the index and the position of the vertex of the
    corner, the normal, the tangent and the normalized bitangent of its mesh
    loop, and its UV with the second coordinate flipped; two corners get the
    same output index exactly when these six components are equal, so corners
    whose source vertex indices differ get different output indices whatever
    the rest; the output vertices are pairwise distinct and are the keys of
    the corners, so that their number is the number of distinct keys. *)
Theorem vertex_dedup_by_exact_key (loops : list MeshLoop) (fs : list BMFace) :
  loops_cover loops fs ->
  exists d, export_dedup loops fs = Ok d /\
    length (indices d) = length fs /\
    (forall fi f, fs !! fi = Some f ->
       exists ii, indices d !! fi = Some ii /\ length ii = length (f_loops f) /\
                  (length (f_loops f) = 3 -> exists a b c, ii = [a; b; c]) /\
                  Forall (fun j => j < length (vertices d)) ii) /\
    (forall fi f li, fs !! fi = Some f -> li < length (f_loops f) ->
       exists k j, key_at loops fs fi li = Some k /\ index_at d fi li = Some j /\
                   vertices d !! j = Some k) /\
    (forall fi li fj lj k1 k2 i j,
       key_at loops fs fi li = Some k1 -> key_at loops fs fj lj = Some k2 ->
       index_at d fi li = Some i -> index_at d fj lj = Some j ->
       (k1 = k2 <-> i = j) /\
       (vtx_index k1 <> vtx_index k2 -> vtx_co k1 = vtx_co k2 ->
        vtx_normal k1 = vtx_normal k2 -> vtx_tangent k1 = vtx_tangent k2 ->
        vtx_bitangent k1 = vtx_bitangent k2 -> vtx_uv k1 = vtx_uv k2 -> i <> j)) /\
    length (vertices d) = size (list_to_set (all_keys loops fs) : gset vtx) /\
    (forall fi f li l dl,
       fs !! fi = Some f -> f_loops f !! li = Some l ->
       loops !! (f_index f * 3 + li) = Some dl ->
       exists j, index_at d fi li = Some j /\
         vertices d !! j
         = Some (v_index (l_vert l), v_co (l_vert l), normal dl, tangent dl,
                 normalized (bitangent dl), ((l_uv l).1, fsub f_one (l_uv l).2))) /\
    (forall fi f li l dl fj g lj l' dl' i j,
       fs !! fi = Some f -> f_loops f !! li = Some l ->
       loops !! (f_index f * 3 + li) = Some dl ->
       fs !! fj = Some g -> f_loops g !! lj = Some l' ->
       loops !! (f_index g * 3 + lj) = Some dl' ->
       index_at d fi li = Some i -> index_at d fj lj = Some j ->
       (i = j <->
        v_index (l_vert l) = v_index (l_vert l') /\ v_co (l_vert l) = v_co (l_vert l') /\
        normal dl = normal dl' /\ tangent dl = tangent dl' /\
        normalized (bitangent dl) = normalized (bitangent dl') /\
        (l_uv l).1 = (l_uv l').1 /\ fsub f_one (l_uv l).2 = fsub f_one (l_uv l').2) /\
       (v_index (l_vert l) <> v_index (l_vert l') -> i <> j)) /\
    NoDup (vertices d) /\
    (forall k, k ∈ vertices d <->
       exists fi f li l dl,
         fs !! fi = Some f /\ f_loops f !! li = Some l /\
         loops !! (f_index f * 3 + li) = Some dl /\
         k = (v_index (l_vert l), v_co (l_vert l), normal dl, tangent dl,
              normalized (bitangent dl), ((l_uv l).1, fsub f_one (l_uv l).2))).
Proof.
  intros Hcov. destruct (export_faces_total loops fs dedup_empty Hcov) as [d Hd].
  exists d. split; [done|].
  apply export_faces_spec in Hd as ([Hnd Hvm] & _ & iis & Hind & Hlen & Hidx & Hmem);
    [|apply table_ok_empty].
  simpl in Hind, Hmem. subst iis.
  assert (Hpoint : forall fi f li, fs !! fi = Some f -> li < length (f_loops f) ->
    exists k j, key_at loops fs fi li = Some k /\ index_at d fi li = Some j /\
                vertices d !! j = Some k).
  { intros fi f li Hf Hli. destruct (Hidx _ _ Hf) as (ii & Hii & _ & Hc).
    destruct (Hc _ Hli) as (k & j & Hk & Hj & Hvj). exists k, j.
    unfold key_at, index_at. rewrite Hf, Hii. done. }
  assert (Hkey : forall fi f li l dl, fs !! fi = Some f -> f_loops f !! li = Some l ->
    loops !! (f_index f * 3 + li) = Some dl ->
    key_at loops fs fi li = Some (make_vtx dl l)).
  { intros fi f li l dl Hf Hl Hdl. unfold key_at, corner_key. rewrite Hf. simpl.
    rewrite Hl. simpl. by rewrite Hdl. }
  assert (Hsame : forall fi li k i, key_at loops fs fi li = Some k ->
    index_at d fi li = Some i -> vertices d !! i = Some k).
  { intros fi li k i Hk Hi. unfold key_at in Hk.
    destruct (fs !! fi) as [f|] eqn:Hf; [|done]. simpl in Hk.
    assert (li < length (f_loops f)) as Hli.
    { unfold corner_key in Hk. destruct (f_loops f !! li) eqn:Hl; [|done].
      by apply lookup_lt_Some in Hl. }
    destruct (Hpoint _ _ _ Hf Hli) as (k' & j & Hk' & Hj & Hvj).
    unfold key_at in Hk'. rewrite Hf in Hk'. simpl in Hk'. congruence. }
  split_and!.
  - done.
  - intros fi f Hf. destruct (Hidx _ _ Hf) as (ii & Hii & Hl & Hc).
    exists ii. split_and!; try done.
    + intros H3. rewrite H3 in Hl.
      destruct ii as [|a [|b [|c [|? ?]]]]; try discriminate. by exists a, b, c.
    + apply Forall_lookup. intros li j Hj.
      assert (li < length (f_loops f)) as Hli by (rewrite <- Hl; by eapply lookup_lt_Some).
      destruct (Hc _ Hli) as (k & j' & _ & Hj' & Hvj). rewrite Hj in Hj'.
      injection Hj' as <-. by eapply lookup_lt_Some.
  - done.
  - intros fi li fj lj k1 k2 i j Hk1 Hk2 Hi Hj.
    pose proof (Hsame _ _ _ _ Hk1 Hi) as Hvi. pose proof (Hsame _ _ _ _ Hk2 Hj) as Hvj.
    assert (k1 = k2 <-> i = j) as Hiff.
    { split; [intros <-; by eapply NoDup_lookup | intros <-; congruence]. }
    split; [done|]. intros Hne _ _ _ _ _ Heq. apply Hiff in Heq. congruence.
  - rewrite <- (size_list_to_set (C:=gset vtx) (vertices d)) by done. f_equal.
    apply set_eq. intros k. rewrite !elem_of_list_to_set, Hmem, elem_of_all_keys.
    split; [intros [Hk|?]; [by apply elem_of_nil in Hk|done] | by right].
  - intros fi f li l dl Hf Hl Hdl.
    assert (li < length (f_loops f)) as Hli by (by eapply lookup_lt_Some).
    destruct (Hpoint _ _ _ Hf Hli) as (k & j & Hk & Hj & Hvj).
    rewrite (Hkey _ _ _ _ _ Hf Hl Hdl) in Hk. injection Hk as <-. by exists j.
  - intros fi f li l dl fj g lj l' dl' i j Hf Hl Hdl Hg Hl' Hdl' Hi Hj.
    pose proof (Hsame _ _ _ _ (Hkey _ _ _ _ _ Hf Hl Hdl) Hi) as Hvi.
    pose proof (Hsame _ _ _ _ (Hkey _ _ _ _ _ Hg Hl' Hdl') Hj) as Hvj.
    assert (i = j <-> make_vtx dl l = make_vtx dl' l') as Hiff.
    { split; [intros <-; congruence | intros Heq; rewrite Heq in Hvi; by eapply NoDup_lookup]. }
    unfold make_vtx in Hiff. split.
    + rewrite Hiff. split; [by intros [= ? ? ? ? ? ? ?]|].
      intros (H1 & H2 & H3 & H4 & H5 & H6 & H7). by rewrite H1, H2, H3, H4, H5, H6, H7.
    + intros Hne Heq. apply Hiff in Heq. by injection Heq.
  - done.
  - intros k. rewrite Hmem. split.
    + intros [Hk|(fi & li & Hk)]; [by apply elem_of_nil in Hk|].
      unfold key_at in Hk. destruct (fs !! fi) as [f|] eqn:Hf; [|done]. simpl in Hk.
      unfold corner_key in Hk. destruct (f_loops f !! li) as [l|] eqn:Hl; [|done].
      simpl in Hk. destruct (loops !! (f_index f * 3 + li)) as [dl|] eqn:Hdl; [|done].
      injection Hk as <-. by exists fi, f, li, l, dl.
    + intros (fi & f & li & l & dl & Hf & Hl & Hdl & ->). right. exists fi, li.
      by apply (Hkey fi f li l dl).
Qed.

(** *** Properties of the weight packing *)

Lemma getitem_elem_of (dic : weights) (k : nat) (v : F) :
  getitem dic k = Some v -> (k, v) ∈ dic.
Proof.
  induction dic as [|[k' v'] dic IH]; simpl; [done|].
  case_decide as Hk; [intros [= ->]; subst; left | intros Hg; right; auto].
Qed.

Lemma getitem_NoDup (dic : weights) (k : nat) (v : F) :
  NoDup (keys dic) -> (k, v) ∈ dic -> getitem dic k = Some v.
Proof.
  induction dic as [|[k' v'] dic IH]; simpl; intros Hnd Hin; [by apply elem_of_nil in Hin|].
  apply NoDup_cons in Hnd as [Hk' Hnd]. apply elem_of_cons in Hin as [[= -> ->]|Hin].
  - by rewrite decide_True.
  - rewrite decide_False; [auto|]. intros ->. apply Hk'.
    apply list_elem_of_fmap. by exists (k, v).
Qed.

Lemma getitem_keys (dic : weights) (k : nat) :
  k ∈ keys dic -> is_Some (getitem dic k).
Proof.
  induction dic as [|[k' v'] dic IH]; simpl; intros Hin; [by apply elem_of_nil in Hin|].
  case_decide; [eauto|]. apply elem_of_cons in Hin as [?|?]; [congruence|auto].
Qed.

Lemma max_two_first_second dic ks : forall k0 mx,
  max_two_first dic ks k0 mx = max_two_second dic None ks k0 mx.
Proof.
  induction ks as [|k ks IH]; intros k0 mx; simpl; [done|].
  destruct (getitem dic k) as [v|]; simpl; [|done].
  destruct (fgt v mx); simpl; apply IH.
Qed.

(** The four vectors every vertex record carries, in the order written. *)
Definition put_geometry (v : vtx) : list item :=
  put_fff (vtx_co v) ++ put_fff (vtx_normal v) ++ put_fff (vtx_tangent v)
    ++ put_fff (vtx_bitangent v).

Definition fvf_header (vs : list vtx) : list item :=
  [put_I 0x240e3300%N; put_I' (length vs)].

Lemma pack_H_Ok (j : nat) : fits_H j -> pack_H j = Ok (put_H' j).
Proof. intros Hj. unfold pack_H. by rewrite (proj2 (N.ltb_lt _ _) Hj). Qed.

Lemma pack_H_inv (j : nat) (x : item) : pack_H j = Ok x -> fits_H j.
Proof.
  unfold pack_H, fits_H. destruct (N.of_nat j <? 65536)%N eqn:Hj; [|done].
  intros _. by apply N.ltb_lt.
Qed.

Lemma pack_H_raise (j : nat) (e : error) : pack_H j = Raise e -> e = StructError.
Proof. unfold pack_H. destruct (N.of_nat j <? 65536)%N; congruence. Qed.

Lemma pack_I_inv (j : nat) (x : item) : pack_I j = Ok x -> x = put_I' j.
Proof. unfold pack_I. destruct (N.of_nat j <? 2 ^ 32)%N; congruence. Qed.

Lemma records_spec rec vs : forall pw out,
  records rec vs pw = Ok out <->
  exists rs, Forall2 (fun v r => rec v = Ok r) vs rs /\ out = pw ++ concat rs.
Proof.
  induction vs as [|v vs IH]; intros pw out; simpl.
  - split.
    + intros [= <-]. exists []. split; [constructor|]. by rewrite app_nil_r.
    + intros (rs & Hrs & ->). apply Forall2_nil_inv_l in Hrs as ->. by rewrite app_nil_r.
  - split.
    + intros Hr. apply rbind_Ok in Hr as (r & Hv & Hr). apply IH in Hr as (rs & Hrs & ->).
      exists (r :: rs). split; [by constructor|]. simpl. by rewrite app_assoc.
    + intros (rs & Hrs & ->). apply Forall2_cons_inv_l in Hrs as (r & rs' & Hv & Hrs & ->).
      rewrite Hv. simpl. apply IH. exists rs'. split; [done|]. by rewrite app_assoc.
Qed.

Lemma pack_H_unfit (j : nat) : ~ fits_H j -> pack_H j = Raise StructError.
Proof.
  intros Hj. unfold pack_H. destruct (N.of_nat j <? 65536)%N eqn:E; [|done].
  by apply N.ltb_lt in E.
Qed.

Lemma blend_loop_two (k0 k1 : nat) (w0 w1 : F) :
  k0 <> k1 ->
  blend_loop [(k0, w0); (k1, w1)] [k0; k1] true f_zero f_zero []
  = if decide (fits_H k0 /\ fits_H k1) then
      match fdiv w0 (fadd w0 w1) with
      | Some q => Ok ([put_H' k0; put_H' k1], fsub f_one q)
      | None => Raise ZeroDivisionError
      end
    else Raise StructError.
Proof.
  intros Hne. destruct (decide (fits_H k0 /\ fits_H k1)) as [[Hf0 Hf1]|Hfit]; cbn -[pack_H].
  - rewrite (pack_H_Ok _ Hf0). cbn -[pack_H].
    rewrite decide_True by done. cbn -[pack_H]. rewrite (pack_H_Ok _ Hf1). cbn -[pack_H].
    rewrite decide_False by done. rewrite decide_True by done. cbn -[pack_H].
    by destruct (fdiv w0 (fadd w0 w1)).
  - destruct (decide (fits_H k0)) as [Hf0|Hf0]; [|by rewrite (pack_H_unfit _ Hf0)].
    rewrite (pack_H_Ok _ Hf0). cbn -[pack_H]. rewrite decide_True by done. cbn -[pack_H].
    rewrite pack_H_unfit; [done|]. intros Hf1. by apply Hfit.
Qed.

Lemma vertex_record_two verts v (k0 k1 : nat) (w0 w1 : F) :
  verts !! vtx_index v = Some [(k0, w0); (k1, w1)] -> k0 <> k1 ->
  vertex_record verts v
  = if decide (fits_H k0 /\ fits_H k1) then
      match fdiv w0 (fadd w0 w1) with
      | Some q => Ok ([put_H' k0; put_H' k1] ++ put_geometry v ++ [put_f (fsub f_one q)]
                        ++ put_ff (vtx_uv v))
      | None => Raise ZeroDivisionError
      end
    else Raise StructError.
Proof.
  intros Hvw Hne. unfold vertex_record. rewrite Hvw. cbn -[blend_loop].
  rewrite (blend_loop_two k0 k1 w0 w1 Hne). case_decide; [|done].
  by destruct (fdiv w0 (fadd w0 w1)).
Qed.

Lemma vertex_record_one verts v (k : nat) (w : F) :
  verts !! vtx_index v = Some [(k, w)] ->
  vertex_record verts v
  = if decide (fits_H k) then
      Ok ([put_H' k; put_H' k] ++ put_geometry v ++ [put_f f_zero] ++ put_ff (vtx_uv v))
    else Raise StructError.
Proof.
  intros Hvw. unfold vertex_record. rewrite Hvw.
  destruct (decide (fits_H k)) as [Hf|Hf]; cbn -[pack_H].
  - by rewrite (pack_H_Ok _ Hf).
  - by rewrite (pack_H_unfit _ Hf).
Qed.

(** C2.  Multi-influence path of the vertex chunk (lines 114-145): the payload
    is the header followed by one record per output vertex; the record of a
    vertex with exactly two influences starts with both bone slots, in the
    iteration order of its weight mapping, and carries the blend factor
    [1 - w0 / (w0 + w1)] with [w0] the weight met first; the record of a vertex
    with exactly one influence starts with the same bone twice and carries the
    blend factor 0.  A bone slot holds 16 bits: this is so when the group
    indices of the vertex are below 65536, and the record is not written, on
    the [struct.error] of the writer, when one of them is not; nor is it
    written, on ZeroDivisionError, when [w0 + w1] is zero. *)
Theorem multi_influence_blend_factor (verts : list weights) (vs : list vtx) :
  max_influences verts <> 1 ->
  (forall out, (export_vertices verts vs).2 = Ok out <->
     exists rs, Forall2 (fun v r => vertex_record verts v = Ok r) vs rs /\
                out = fvf_header vs ++ concat rs) /\
  (forall v k0 w0 k1 w1 q,
     verts !! vtx_index v = Some [(k0, w0); (k1, w1)] -> k0 <> k1 ->
     (N.of_nat k0 < 65536)%N -> (N.of_nat k1 < 65536)%N ->
     fdiv w0 (fadd w0 w1) = Some q ->
     vertex_record verts v
     = Ok ([put_H' k0; put_H' k1] ++ put_geometry v ++ [put_f (fsub f_one q)]
             ++ put_ff (vtx_uv v))) /\
  (forall v k w,
     verts !! vtx_index v = Some [(k, w)] -> (N.of_nat k < 65536)%N ->
     vertex_record verts v
     = Ok ([put_H' k; put_H' k] ++ put_geometry v ++ [put_f f_zero]
             ++ put_ff (vtx_uv v))) /\
  (forall v k0 w0 k1 w1,
     verts !! vtx_index v = Some [(k0, w0); (k1, w1)] -> k0 <> k1 ->
     (65536 <= N.of_nat k0)%N \/ (65536 <= N.of_nat k1)%N ->
     vertex_record verts v = Raise StructError) /\
  (forall v k w,
     verts !! vtx_index v = Some [(k, w)] -> (65536 <= N.of_nat k)%N ->
     vertex_record verts v = Raise StructError) /\
  (forall v k0 w0 k1 w1,
     verts !! vtx_index v = Some [(k0, w0); (k1, w1)] -> k0 <> k1 ->
     (N.of_nat k0 < 65536)%N -> (N.of_nat k1 < 65536)%N ->
     fdiv w0 (fadd w0 w1) = None ->
     vertex_record verts v = Raise ZeroDivisionError).
Proof.
  intros Hmulti. split_and!.
  - intros out. unfold export_vertices.
    destruct (max_influences verts =? 1) eqn:Hone; [by apply Nat.eqb_eq in Hone|].
    simpl. apply records_spec.
  - intros v k0 w0 k1 w1 q Hvw Hne Hf0 Hf1 Hq.
    rewrite (vertex_record_two _ _ _ _ _ _ Hvw Hne), decide_True by done. by rewrite Hq.
  - intros v k w Hvw Hf. by rewrite (vertex_record_one _ _ _ _ Hvw), decide_True.
  - intros v k0 w0 k1 w1 Hvw Hne Hunfit.
    rewrite (vertex_record_two _ _ _ _ _ _ Hvw Hne), decide_False; [done|].
    unfold fits_H. intros [Hf0 Hf1]. destruct Hunfit; lia.
  - intros v k w Hvw Hunfit. rewrite (vertex_record_one _ _ _ _ Hvw), decide_False; [done|].
    unfold fits_H. lia.
  - intros v k0 w0 k1 w1 Hvw Hne Hf0 Hf1 Hq.
    rewrite (vertex_record_two _ _ _ _ _ _ Hvw Hne), decide_True by done. by rewrite Hq.
Qed.

Lemma max_influences_ge (verts : list weights) (vw : weights) :
  vw ∈ verts -> length vw <= max_influences verts.
Proof.
  unfold max_influences. generalize 0.
  induction verts as [|vw' verts IH]; intros m Hin; [by apply elem_of_nil in Hin|].
  simpl. assert (Hmono : forall l a b, a <= b ->
    a <= fold_left (fun vwmx (x : weights) => if vwmx <? length x then length x else vwmx) l b).
  { clear. induction l as [|x l IHl]; intros a b Hab; simpl; [done|].
    apply IHl. destruct (b <? length x) eqn:Hlt; [apply Nat.ltb_lt in Hlt; lia|done]. }
  apply elem_of_cons in Hin as [->|Hin]; [|by apply IH].
  apply Hmono. destruct (m <? length vw') eqn:Hlt; [done|apply Nat.ltb_ge in Hlt; lia].
Qed.

Section Order.

(** Python's [>] on floats is a strict order. *)
Hypothesis fgt_irrefl : forall x, fgt x x = false.
Hypothesis fgt_trans : forall x y z, fgt x y = true -> fgt y z = true -> fgt x z = true.

Lemma fgt_below (u v mx : F) : fgt u mx = false -> fgt v mx = true -> fgt u v = false.
Proof.
  intros Hu Hv. destruct (fgt u v) eqn:Huv; [|done].
  by rewrite (fgt_trans _ _ _ Huv Hv) in Hu.
Qed.

(** The scan keeps the first key of largest weight among those it may take. *)
Lemma max_two_second_spec dic skip ks : forall cur mx,
  (forall k, k ∈ ks -> is_Some (getitem dic k)) ->
  exists r mx', max_two_second dic skip ks cur mx = Ok r /\
    (r = cur /\ mx' = mx \/
     exists k, r = Some k /\ k ∈ ks /\ Some k <> skip /\ getitem dic k = Some mx') /\
    (forall k v, k ∈ ks -> Some k <> skip -> getitem dic k = Some v -> fgt v mx' = false) /\
    (forall u, fgt u mx = false -> fgt u mx' = false) /\
    ((exists k v, k ∈ ks /\ Some k <> skip /\ getitem dic k = Some v /\ fgt v mx = true) ->
     exists k, r = Some k /\ k ∈ ks /\ Some k <> skip /\ getitem dic k = Some mx').
Proof.
  induction ks as [|k ks IH]; intros cur mx Hdom; simpl.
  - exists cur, mx. split_and!; try done.
    + by left.
    + intros k v Hk. by apply elem_of_nil in Hk.
    + intros (k & v & Hk & _). by apply elem_of_nil in Hk.
  - destruct (Hdom k) as [v Hv]; [left|]. rewrite Hv. simpl.
    assert (Hdom' : forall k', k' ∈ ks -> is_Some (getitem dic k')).
    { intros k' Hk'. apply Hdom. by right. }
    destruct (fgt v mx && negb (bool_decide (Some k = skip))) eqn:Hc.
    + apply andb_true_iff in Hc as [Hgt Hsk]. apply negb_true_iff, bool_decide_eq_false in Hsk.
      destruct (IH (Some k) v Hdom') as (r & mx' & Hr & Hsel & Hmax & Hmono & Hex).
      exists r, mx'. split; [done|].
      assert (Hfound : exists k', r = Some k' /\ k' ∈ k :: ks /\ Some k' <> skip /\
                                  getitem dic k' = Some mx').
      { destruct Hsel as [[-> ->]|(k' & -> & Hk' & Hsk' & Hg')].
        - exists k. split_and!; try done. left.
        - exists k'. split_and!; try done. by right. }
      split_and!.
      * by right.
      * intros k' v' Hk' Hsk' Hg'. apply elem_of_cons in Hk' as [->|Hk'].
        -- rewrite Hv in Hg'. injection Hg' as <-. by apply Hmono.
        -- by eapply Hmax.
      * intros u Hu. apply Hmono. by eapply fgt_below.
      * done.
    + destruct (IH cur mx Hdom') as (r & mx' & Hr & Hsel & Hmax & Hmono & Hex).
      exists r, mx'. split; [done|]. split_and!.
      * destruct Hsel as [?|(k' & -> & Hk' & Hsk' & Hg')]; [by left|].
        right. exists k'. split_and!; try done. by right.
      * intros k' v' Hk' Hsk' Hg'. apply elem_of_cons in Hk' as [->|Hk'].
        -- rewrite Hv in Hg'. injection Hg' as <-. apply Hmono.
           apply andb_false_iff in Hc as [?|Hc]; [done|].
           apply negb_false_iff, bool_decide_eq_true in Hc. done.
        -- by eapply Hmax.
      * done.
      * intros (k' & v' & Hk' & Hsk' & Hg' & Hgt).
        apply elem_of_cons in Hk' as [->|Hk'].
        { rewrite Hv in Hg'. injection Hg' as <-. rewrite Hgt in Hc. simpl in Hc.
          apply negb_false_iff, bool_decide_eq_true in Hc. done. }
        destruct Hex as (k1 & -> & Hk1 & Hsk1 & Hg1); [by exists k', v'|].
        exists k1. split_and!; try done. by right.
Qed.

(** [max_two] on a mapping with at least two keys and weights above -1. *)
Lemma max_two_spec (dic : weights) :
  1 < length dic -> NoDup (keys dic) ->
  (forall k w, (k, w) ∈ dic -> fgt w f_minus_one = true) ->
  exists k0 w0 k1 w1,
    max_two dic = Ok [(k0, w0); (k1, w1)] /\
    (k0, w0) ∈ dic /\ (k1, w1) ∈ dic /\ k0 <> k1 /\
    (forall k w, (k, w) ∈ dic -> fgt w w0 = false) /\
    (forall k w, (k, w) ∈ dic -> k <> k0 -> fgt w w1 = false).
Proof.
  intros Hlen Hnd Hpos. unfold max_two.
  assert (Hdom : forall k, k ∈ keys dic -> is_Some (getitem dic k)) by apply getitem_keys.
  assert (Hin : forall k w, (k, w) ∈ dic -> k ∈ keys dic).
  { intros k w Hkw. apply list_elem_of_fmap. by exists (k, w). }
  assert (Htwo : forall k0, exists k w, (k, w) ∈ dic /\ k <> k0).
  { intros k0. destruct dic as [|[ka wa] [|[kb wb] dic]]; simpl in Hlen; try lia.
    apply NoDup_cons in Hnd as [Hab _].
    assert (ka <> kb) as Hne by (intros ->; apply Hab; left).
    destruct (decide (ka = k0)) as [<-|Hka].
    - exists kb, wb. split; [right; left | congruence].
    - exists ka, wa. split; [left | done]. }
  rewrite max_two_first_second.
  destruct (max_two_second_spec dic None (keys dic) None f_minus_one Hdom)
    as (r0 & w0 & -> & _ & Hmax0 & _ & Hex0). cbn [rbind].
  destruct Hex0 as (k0 & -> & Hk0 & _ & Hg0).
  { destruct (Htwo 0) as (k & w & Hkw & _). exists k, w. split_and!; try done.
    - by eapply Hin.
    - by apply getitem_NoDup.
    - by eapply Hpos. }
  destruct (max_two_second_spec dic (Some k0) (keys dic) None f_minus_one Hdom)
    as (r1 & w1 & -> & _ & Hmax1 & _ & Hex1). cbn [rbind].
  destruct Hex1 as (k1 & -> & Hk1 & Hsk1 & Hg1).
  { destruct (Htwo k0) as (k & w & Hkw & Hne). exists k, w. split_and!.
    - by eapply Hin.
    - congruence.
    - by apply getitem_NoDup.
    - by eapply Hpos. }
  unfold getitem_opt. rewrite Hg0, Hg1. simpl.
  exists k0, w0, k1, w1. split_and!.
  - done.
  - by apply getitem_elem_of.
  - by apply getitem_elem_of.
  - congruence.
  - intros k w Hkw. eapply (Hmax0 k); [by eapply Hin|done|by apply getitem_NoDup].
  - intros k w Hkw Hne. eapply (Hmax1 k); [by eapply Hin|congruence|by apply getitem_NoDup].
Qed.

(** More than two influences: only the two of largest weight are written, and
    the console gets the warning. *)
Lemma max_two_retained (verts : list weights) (vs : list vtx) (v : vtx) (vw : weights) :
  verts !! vtx_index v = Some vw -> 2 < length vw -> NoDup (keys vw) ->
  (forall k w, (k, w) ∈ vw -> fgt w f_minus_one = true) ->
  exists k0 w0 k1 w1,
    max_two vw = Ok [(k0, w0); (k1, w1)] /\
    (k0, w0) ∈ vw /\ (k1, w1) ∈ vw /\ k0 <> k1 /\
    (forall k w, (k, w) ∈ vw -> k <> k0 -> k <> k1 ->
       fgt w w0 = false /\ fgt w w1 = false) /\
    (forall q, (N.of_nat k0 < 65536)%N -> (N.of_nat k1 < 65536)%N ->
       fdiv w0 (fadd w0 w1) = Some q ->
       vertex_record verts v
       = Ok ([put_H' k0; put_H' k1] ++ put_geometry v ++ [put_f (fsub f_one q)]
               ++ put_ff (vtx_uv v))) /\
    ((65536 <= N.of_nat k0)%N \/ (65536 <= N.of_nat k1)%N ->
     vertex_record verts v = Raise StructError) /\
    (export_vertices verts vs).1 = [warning_vwmx (max_influences verts)].
Proof.
  intros Hvw Hlen Hnd Hpos.
  destruct (max_two_spec vw) as (k0 & w0 & k1 & w1 & Hm & Hin0 & Hin1 & Hne & Hmax0 & Hmax1);
    [lia|done|done|].
  exists k0, w0, k1, w1. split_and!; try done.
  - intros k w Hin Hk0 Hk1. split; [by eapply Hmax0 | by eapply Hmax1].
  - intros q Hf0 Hf1 Hq. unfold vertex_record, weights in *. rewrite Hvw.
    cbn [of_option rbind].
    destruct (2 <? length vw) eqn:Hlt; [|apply Nat.ltb_ge in Hlt; lia].
    rewrite Hm. cbn -[blend_loop].
    rewrite (blend_loop_two k0 k1 w0 w1 Hne), decide_True by done. by rewrite Hq.
  - intros Hunfit. unfold vertex_record, weights in *. rewrite Hvw. cbn [of_option rbind].
    destruct (2 <? length vw) eqn:Hlt; [|apply Nat.ltb_ge in Hlt; lia].
    rewrite Hm. cbn -[blend_loop].
    rewrite (blend_loop_two k0 k1 w0 w1 Hne), decide_False; [done|].
    unfold fits_H. intros [Hf0 Hf1]. destruct Hunfit; lia.
  - assert (length vw <= max_influences verts) as Hge.
    { apply max_influences_ge. by eapply list_elem_of_lookup_2. }
    unfold export_vertices.
    destruct (max_influences verts =? 1) eqn:E1; [apply Nat.eqb_eq in E1; lia|].
    destruct (max_influences verts =? 2) eqn:E2; [apply Nat.eqb_eq in E2; lia|].
    done.
Qed.

(** *** [max_two] on any mapping *)

(** A key the scan takes has a weight above the bound the scan started with. *)
Lemma max_two_second_above dic skip ks : forall cur mx r,
  max_two_second dic skip ks cur mx = Ok r ->
  r = cur \/
  exists k v, r = Some k /\ k ∈ ks /\ Some k <> skip /\ getitem dic k = Some v /\
              fgt v mx = true.
Proof.
  induction ks as [|k ks IH]; intros cur mx r; simpl; [intros [= <-]; by left|].
  destruct (getitem dic k) as [v|] eqn:Hv; simpl; [|done].
  destruct (fgt v mx && negb (bool_decide (Some k = skip))) eqn:Hc; intros Hr.
  - apply andb_true_iff in Hc as [Hgt Hsk].
    apply negb_true_iff, bool_decide_eq_false in Hsk.
    apply IH in Hr as [->|(k' & v' & -> & Hk' & Hsk' & Hg' & Hgt')]; right.
    + exists k, v. split_and!; try done. left.
    + exists k', v'. split_and!; try done; [by right|]. by eapply fgt_trans.
  - apply IH in Hr as [->|(k' & v' & -> & Hk' & Hsk' & Hg' & Hgt')]; [by left|right].
    exists k', v'. split_and!; try done. by right.
Qed.

Lemma getitem_in_keys (dic : weights) (k : nat) (v : F) :
  getitem dic k = Some v -> k ∈ keys dic.
Proof.
  intros Hg. apply getitem_elem_of in Hg. apply list_elem_of_fmap. by exists (k, v).
Qed.

(** The two scans of [max_two], when both find a key. *)
Lemma max_two_scans (dic : weights) :
  exists r0 r1,
    max_two_first dic (keys dic) None f_minus_one = Ok r0 /\
    max_two_second dic r0 (keys dic) None f_minus_one = Ok r1 /\
    (forall k0, r0 = Some k0 ->
       exists w0, getitem dic k0 = Some w0 /\ fgt w0 f_minus_one = true /\
                  forall k w, getitem dic k = Some w -> fgt w w0 = false) /\
    (forall k1, r1 = Some k1 ->
       Some k1 <> r0 /\
       exists w1, getitem dic k1 = Some w1 /\ fgt w1 f_minus_one = true) /\
    ((exists k w, getitem dic k = Some w /\ fgt w f_minus_one = true) -> is_Some r0) /\
    ((exists k w, Some k <> r0 /\ getitem dic k = Some w /\ fgt w f_minus_one = true) ->
     is_Some r1).
Proof.
  assert (Hdom : forall k, k ∈ keys dic -> is_Some (getitem dic k)) by apply getitem_keys.
  rewrite max_two_first_second.
  destruct (max_two_second_spec dic None (keys dic) None f_minus_one Hdom)
    as (r0 & w0 & Hr0 & _ & Hmax0 & _ & Hex0).
  destruct (max_two_second_spec dic r0 (keys dic) None f_minus_one Hdom)
    as (r1 & w1 & Hr1 & _ & _ & _ & Hex1).
  exists r0, r1. split_and!; try done.
  - intros k0 ->. apply max_two_second_above in Hr0 as [?|(k & v & [= <-] & Hk & _ & Hg & Hgt)];
      [done|].
    destruct Hex0 as (k' & [= <-] & _ & _ & Hg0); [by exists k0, v|].
    exists v. split_and!; try done. intros k w Hw. rewrite Hg in Hg0. injection Hg0 as <-.
    eapply (Hmax0 k); [by eapply getitem_in_keys|done|done].
  - intros k1 ->. apply max_two_second_above in Hr1 as [?|(k & v & [= <-] & Hk & Hsk & Hg & Hgt)];
      [done|].
    split; [done|]. by exists v.
  - intros (k & w & Hg & Hgt). destruct Hex0 as (k' & -> & _); [|done].
    exists k, w. split_and!; try done. by eapply getitem_in_keys.
  - intros (k & w & Hsk & Hg & Hgt). destruct Hex1 as (k' & -> & _); [|done].
    exists k, w. split_and!; try done. by eapply getitem_in_keys.
Qed.

(** [max_two] returns two entries or raises KeyError, on the [None] that a
    scan leaves when it takes no key. *)
Lemma max_two_cases (dic : weights) :
  match max_two dic with
  | Ok r =>
      exists k0 w0 k1 w1,
        r = [(k0, w0); (k1, w1)] /\ k0 <> k1 /\
        getitem dic k0 = Some w0 /\ getitem dic k1 = Some w1 /\
        fgt w0 f_minus_one = true /\ fgt w1 f_minus_one = true /\
        forall k w, getitem dic k = Some w -> fgt w w0 = false
  | Raise e =>
      e = KeyError /\
      ~ exists k w k' w', k <> k' /\ getitem dic k = Some w /\ getitem dic k' = Some w' /\
                          fgt w f_minus_one = true /\ fgt w' f_minus_one = true
  end.
Proof.
  destruct (max_two_scans dic) as (r0 & r1 & Hfst & Hsnd & Hs0 & Hs1 & Hex0 & Hex1).
  unfold max_two. rewrite Hfst. cbn [rbind]. rewrite Hsnd. cbn [rbind].
  destruct r0 as [k0|]; simpl.
  - destruct (Hs0 k0 eq_refl) as (w0 & Hg0 & Hgt0 & Hmax0). rewrite Hg0. simpl.
    destruct r1 as [k1|]; simpl.
    + destruct (Hs1 k1 eq_refl) as (Hne & w1 & Hg1 & Hgt1). rewrite Hg1. simpl.
      exists k0, w0, k1, w1. split_and!; try done. congruence.
    + split; [done|]. intros (k & w & k' & w' & Hne & Hg & Hg' & Hgt & Hgt').
      destruct Hex1 as [? [=]].
      destruct (decide (k = k0)) as [->|Hk].
      * exists k', w'. split_and!; try done. congruence.
      * exists k, w. split_and!; try done. congruence.
  - split; [done|]. intros (k & w & k' & w' & Hne & Hg & Hg' & Hgt & Hgt').
    destruct Hex0 as [? [=]]. by exists k, w.
Qed.



(** X7.  [max_two] (lines 40-55) raises nothing but KeyError, and raises it
    exactly when the mapping has no two different keys with weights above -1:
    a scan then leaves [None], which is looked up in the mapping.  A mapping
    with fewer than two entries is such a case. *)
Theorem max_two_raises_KeyError (dic : weights) :
  (forall e, max_two dic = Raise e -> e = KeyError) /\
  (max_two dic = Raise KeyError <->
   ~ exists k w k' w', k <> k' /\ getitem dic k = Some w /\ getitem dic k' = Some w' /\
                       fgt w f_minus_one = true /\ fgt w' f_minus_one = true) /\
  (length dic < 2 -> max_two dic = Raise KeyError).
Proof.
  pose proof (max_two_cases dic) as Hc.
  assert (Hiff : max_two dic = Raise KeyError <->
    ~ exists k w k' w', k <> k' /\ getitem dic k = Some w /\ getitem dic k' = Some w' /\
                        fgt w f_minus_one = true /\ fgt w' f_minus_one = true).
  { destruct (max_two dic) as [r|e].
    - destruct Hc as (k0 & w0 & k1 & w1 & _ & Hne & Hg0 & Hg1 & Hgt0 & Hgt1 & _).
      split; [done|]. intros Hno. exfalso. apply Hno. by exists k0, w0, k1, w1.
    - destruct Hc as [-> Hno]. done. }
  split_and!.
  - intros e He. rewrite He in Hc. by destruct Hc.
  - done.
  - intros Hlen. apply Hiff. intros (k & w & k' & w' & Hne & Hg & Hg' & _).
    destruct dic as [|[a b] [|? ?]]; simpl in *; try lia; [done|].
    repeat case_decide; congruence.
Qed.

End Order.

(** *** The layout of the vertex chunk *)

Lemma max_two_Ok_keys (dic r : weights) :
  max_two dic = Ok r ->
  exists k0 w0 k1 w1, r = [(k0, w0); (k1, w1)] /\
                      getitem dic k0 = Some w0 /\ getitem dic k1 = Some w1.
Proof.
  unfold max_two. intros Hm.
  apply rbind_Ok in Hm as (r0 & _ & Hm). apply rbind_Ok in Hm as (r1 & _ & Hm).
  apply rbind_Ok in Hm as ([k0 w0] & He0 & Hm). apply rbind_Ok in Hm as ([k1 w1] & He1 & Hm).
  injection Hm as <-. exists k0, w0, k1, w1.
  assert (Hopt : forall o k w, getitem_opt dic o = Ok (k, w) -> getitem dic k = Some w).
  { intros [k'|] k w; simpl; [|done]. destruct (getitem dic k') eqn:Hg; simpl; [|done].
    by intros [= <- <-]. }
  split_and!; [done| by eapply Hopt | by eapply Hopt].
Qed.

(** The loop over the keys writes one bone slot per key. *)
Lemma blend_loop_slots (vw : weights) (ks : list nat) : forall first w0 bw pw pw' bw',
  blend_loop vw ks first w0 bw pw = Ok (pw', bw') -> pw' = pw ++ (put_H' <$> ks).
Proof.
  induction ks as [|k ks IH]; intros first w0 bw pw pw' bw'; cbn [blend_loop].
  - intros [= <- _]. by rewrite app_nil_r.
  - intros Hb. apply rbind_Ok in Hb as (slot & Hslot & Hb).
    rewrite (pack_H_Ok _ (pack_H_inv _ _ Hslot)) in Hslot. injection Hslot as <-.
    apply rbind_Ok in Hb as (w & _ & Hb). destruct first.
    + apply IH in Hb as ->. by rewrite <- app_assoc.
    + apply rbind_Ok in Hb as (q & _ & Hb). apply IH in Hb as ->. by rewrite <- app_assoc.
Qed.

(** A record of the multi-influence path: two bone slots, both bones of the
    vertex, the four vectors, the blend factor and the UV. *)
Lemma vertex_record_shape (verts : list weights) (v : vtx) (r : list item) :
  vertex_record verts v = Ok r ->
  exists vw k0 k1 bw,
    verts !! vtx_index v = Some vw /\ k0 ∈ keys vw /\ k1 ∈ keys vw /\
    r = [put_H' k0; put_H' k1] ++ put_geometry v ++ [put_f bw] ++ put_ff (vtx_uv v).
Proof.
  unfold vertex_record. intros Hr.
  apply rbind_Ok in Hr as (vw & Hvw & Hr). apply of_option_Ok in Hvw.
  apply rbind_Ok in Hr as (vw' & Hvw' & Hr).
  apply rbind_Ok in Hr as ([slots bw] & Hs & Hr). injection Hr as <-.
  exists vw.
  assert (Hkeys : forall k, k ∈ keys vw' -> k ∈ keys vw).
  { destruct (2 <? length vw); [|by injection Hvw' as ->].
    apply max_two_Ok_keys in Hvw' as (k0 & w0 & k1 & w1 & -> & Hg0 & Hg1).
    intros k Hk. simpl in Hk.
    apply elem_of_cons in Hk as [->|Hk]; [by eapply getitem_in_keys|].
    apply elem_of_cons in Hk as [->|Hk]; [by eapply getitem_in_keys|].
    by apply elem_of_nil in Hk. }
  destruct (length vw' =? 2) eqn:H2.
  - apply Nat.eqb_eq in H2. apply blend_loop_slots in Hs as ->.
    destruct vw' as [|[k0 w0] [|[k1 w1] [|? ?]]]; simpl in H2; try lia.
    exists k0, k1, bw. split_and!; try done.
    + apply Hkeys. left.
    + apply Hkeys. right. left.
  - destruct (length vw' =? 1) eqn:H1; [|done]. apply Nat.eqb_eq in H1.
    apply rbind_Ok in Hs as (slots' & Hs' & Hs). injection Hs as <- <-.
    destruct vw' as [|[k0 w0] [|? ?]]; simpl in H1; try lia.
    cbn -[pack_H] in Hs'. apply rbind_Ok in Hs' as (slot & Hslot & Hs').
    rewrite (pack_H_Ok _ (pack_H_inv _ _ Hslot)) in Hslot. injection Hslot as <-.
    injection Hs' as <-.
    exists k0, k0, f_zero. split_and!; try done; apply Hkeys; left.
Qed.

Lemma length_concat_records (n : nat) (rs : list (list item)) :
  Forall (fun r => length r = n) rs -> length (concat rs) = n * length rs.
Proof.
  induction rs as [|r rs IH]; intros Hrs; simpl; [lia|].
  apply Forall_cons in Hrs as [Hr Hrs]. rewrite length_app, Hr, IH by done. lia.
Qed.

(** X8.  The vertex chunk of the multi-influence path (lines 114-145),
    whenever it is written, the group indices being such as fit the 16 bits
    of a bone slot: after the two header words, the second of which is
    the number of output vertices, it holds one record per output vertex, and
    every record has the same 17 items whatever the number of influences of
    its vertex: two bone slots, each naming a bone of that vertex, the four
    vectors, one blend factor and the UV. *)
Theorem vertex_chunk_fixed_records (verts : list weights) (vs : list vtx)
    (out : list item) :
  Forall (fun vw => Forall (fun k => (N.of_nat k < 65536)%N) (keys vw)) verts ->
  max_influences verts <> 1 ->
  (export_vertices verts vs).2 = Ok out ->
  length out = 2 + 17 * length vs /\
  exists rs,
    out = [put_I 0x240e3300%N; put_I' (length vs)] ++ concat rs /\
    Forall2 (fun v r =>
               length r = 17 /\
               exists vw k0 k1 bw,
                 verts !! vtx_index v = Some vw /\ k0 ∈ keys vw /\ k1 ∈ keys vw /\
                 r = [put_H' k0; put_H' k1] ++ put_geometry v ++ [put_f bw]
                       ++ put_ff (vtx_uv v)) vs rs.
Proof.
  intros _ Hmulti. unfold export_vertices.
  destruct (max_influences verts =? 1) eqn:Hone; [by apply Nat.eqb_eq in Hone|].
  simpl. intros Hout. apply records_spec in Hout as (rs & Hrs & ->).
  assert (Hshape : Forall2 (fun v r =>
            length r = 17 /\
            exists vw k0 k1 bw,
              verts !! vtx_index v = Some vw /\ k0 ∈ keys vw /\ k1 ∈ keys vw /\
              r = [put_H' k0; put_H' k1] ++ put_geometry v ++ [put_f bw]
                    ++ put_ff (vtx_uv v)) vs rs).
  { eapply Forall2_impl; [exact Hrs|]. intros v r Hr. simpl in Hr.
    apply vertex_record_shape in Hr as (vw & k0 & k1 & bw & Hvw & Hk0 & Hk1 & ->).
    split; [reflexivity|]. by exists vw, k0, k1, bw. }
  split; [|by exists rs].
  rewrite length_app. simpl. f_equal. f_equal.
  rewrite (length_concat_records 17).
  - by rewrite (Forall2_length _ _ _ Hrs).
  - clear -Hshape. induction Hshape as [|v r vs rs [Hlen _] _ IH]; by constructor.
Qed.

(** X9.  Lines 98-145: if an output vertex has no influence at all, no
    vertex chunk is written, whichever path is taken ([vw.keys()[0]] on one
    side, the [oops] exception on the other).  In particular a mesh none of
    whose vertices has an influence gets the [vwmx=0] warning and then fails
    on its first output vertex with the [oops] exception. *)
Theorem vertex_without_influence_fails (verts : list weights) :
  (forall vs v out,
     v ∈ vs -> verts !! vtx_index v = Some [] -> (export_vertices verts vs).2 <> Ok out) /\
  (forall v vs,
     max_influences verts = 0 -> vtx_index v < length verts ->
     export_vertices verts (v :: vs) = ([warning_vwmx 0], Raise (Failure "oops"))).
Proof.
  split.
  - intros vs v out Hv Hvw. unfold export_vertices.
    destruct (max_influences verts =? 1); simpl; intros Hout;
      apply records_spec in Hout as (rs & Hrs & _);
      apply list_elem_of_lookup in Hv as [i Hi];
      destruct (Forall2_lookup_l _ _ _ _ _ Hrs Hi) as (r & _ & Hr); cbv beta in Hr.
    + unfold vertex_record_1, weights in *. by rewrite Hvw in Hr.
    + unfold vertex_record, weights in *. by rewrite Hvw in Hr.
  - intros v vs Hmax Hv. unfold export_vertices. rewrite Hmax. simpl.
    apply lookup_lt_is_Some_2 in Hv as [vw Hvw].
    assert (length vw <= max_influences verts) as Hle.
    { apply max_influences_ge. by eapply list_elem_of_lookup_2. }
    destruct vw; [|simpl in Hle; lia].
    unfold vertex_record, weights in *. by rewrite Hvw.
Qed.

(** X15.  The vertex chunk of the single-influence path (lines 104-113),
    taken when the largest number of influences on a vertex is one, whenever
    it is written, the group indices being such as fit 32 bits: nothing is
    printed, the chunk has no header, and it holds one record of 15 items per
    output vertex: the four vectors, the UV, and the index of the one group
    that influences the vertex. *)
Theorem single_influence_records (verts : list weights) (vs : list vtx) (out : list item) :
  Forall (fun vw => Forall (fun k => (N.of_nat k < 2 ^ 32)%N) (keys vw)) verts ->
  max_influences verts = 1 ->
  (export_vertices verts vs).2 = Ok out ->
  (export_vertices verts vs).1 = [] /\
  length out = 15 * length vs /\
  exists rs,
    out = concat rs /\
    Forall2 (fun v r =>
               length r = 15 /\
               exists k w,
                 verts !! vtx_index v = Some [(k, w)] /\
                 r = put_geometry v ++ put_ff (vtx_uv v) ++ [put_I' k]) vs rs.
Proof.
  intros _ Hone. unfold export_vertices. rewrite Hone. simpl.
  intros Hout. apply records_spec in Hout as (rs & Hrs & ->). simpl.
  assert (Hshape : Forall2 (fun v r =>
            length r = 15 /\
            exists k w,
              verts !! vtx_index v = Some [(k, w)] /\
              r = put_geometry v ++ put_ff (vtx_uv v) ++ [put_I' k]) vs rs).
  { eapply Forall2_impl; [exact Hrs|]. intros v r Hr. cbv beta in Hr.
    unfold vertex_record_1 in Hr. apply rbind_Ok in Hr as (vw & Hvw & Hr).
    apply of_option_Ok in Hvw. apply rbind_Ok in Hr as (k & Hk & Hr).
    apply of_option_Ok in Hk. apply rbind_Ok in Hr as (bone & Hbone & Hr).
    apply pack_I_inv in Hbone as ->. injection Hr as <-.
    assert (length vw <= 1) as Hle.
    { rewrite <- Hone. apply max_influences_ge. by eapply list_elem_of_lookup_2. }
    destruct vw as [|[k' w] [|? ?]]; [done| |simpl in Hle; lia].
    injection Hk as ->. split; [reflexivity|]. exists k, w. split; [done|].
    unfold put_geometry. by rewrite <- !app_assoc. }
  split; [done|]. split; [|by exists rs].
  rewrite (length_concat_records 15).
  - by rewrite (Forall2_length _ _ _ Hrs).
  - clear -Hshape. induction Hshape as [|v r vs rs [Hlen _] _ IH]; by constructor.
Qed.

(** *** The index chunk (lines 146-150) *)

(** [pw.putf('HHH', *f)]: the format takes exactly three values. *)
Definition putf_HHH (f : list nat) : result (list item) :=
  match f with
  | [a; b; c] =>
      let* a := pack_H a in
      let* b := pack_H b in
      let* c := pack_H c in
      Ok [a; b; c]
  | _ => Raise StructError
  end.

(** [for f in indices: pw.putf('HHH', *f)]. *)
Fixpoint index_records (indices : list (list nat)) (pw : list item) : result (list item) :=
  match indices with
  | [] => Ok pw
  | f :: indices' => let* r := putf_HHH f in index_records indices' (pw ++ r)
  end.

(** The payload of chunk 0x4. *)
Definition export_indices (indices : list (list nat)) : result (list item) :=
  let* n := pack_I (3 * length indices) in
  index_records indices [n].

Lemma putf_HHH_Ok (f : list nat) :
  length f = 3 -> Forall fits_H f -> putf_HHH f = Ok (put_H' <$> f).
Proof.
  destruct f as [|a [|b [|c [|? ?]]]]; intros Hlen Hf; try discriminate Hlen.
  apply Forall_cons in Hf as [Ha Hf]. apply Forall_cons in Hf as [Hb Hf].
  apply Forall_cons in Hf as [Hc _]. unfold putf_HHH.
  by rewrite !pack_H_Ok by done.
Qed.

Lemma putf_HHH_inv (f : list nat) (r : list item) : putf_HHH f = Ok r -> Forall fits_H f.
Proof.
  destruct f as [|a [|b [|c [|? ?]]]]; try discriminate. unfold putf_HHH. intros Hr.
  apply rbind_Ok in Hr as (xa & Ha & Hr). apply rbind_Ok in Hr as (xb & Hb & Hr).
  apply rbind_Ok in Hr as (xc & Hc & _).
  repeat constructor; by eapply pack_H_inv.
Qed.

Lemma putf_HHH_raise (f : list nat) (e : error) : putf_HHH f = Raise e -> e = StructError.
Proof.
  destruct f as [|a [|b [|c [|? ?]]]]; try (by intros [= <-]). unfold putf_HHH.
  destruct (pack_H a) as [xa|ea] eqn:Ha; cbn [rbind];
    [|intros [= <-]; by eapply pack_H_raise].
  destruct (pack_H b) as [xb|eb] eqn:Hb; cbn [rbind];
    [|intros [= <-]; by eapply pack_H_raise].
  destruct (pack_H c) as [xc|ec] eqn:Hc; cbn [rbind]; [done|].
  intros [= <-]. by eapply pack_H_raise.
Qed.

Lemma index_records_Ok (indices : list (list nat)) : forall pw,
  Forall (fun f => length f = 3 /\ Forall fits_H f) indices ->
  index_records indices pw = Ok (pw ++ (put_H' <$> concat indices)).
Proof.
  induction indices as [|f indices IH]; intros pw Hall; cbn [index_records concat].
  - by rewrite app_nil_r.
  - apply Forall_cons in Hall as [[Hlen Hf] Hall]. rewrite putf_HHH_Ok by done.
    cbn [rbind]. rewrite IH by done. by rewrite fmap_app, app_assoc.
Qed.

Lemma index_records_inv (indices : list (list nat)) : forall pw out,
  index_records indices pw = Ok out -> Forall (Forall fits_H) indices.
Proof.
  induction indices as [|f indices IH]; intros pw out; cbn [index_records];
    [by constructor|].
  intros Hr. apply rbind_Ok in Hr as (r & Hf & Hr).
  constructor; [by eapply putf_HHH_inv | by eapply IH].
Qed.

Lemma index_records_raise (indices : list (list nat)) : forall pw e,
  index_records indices pw = Raise e -> e = StructError.
Proof.
  induction indices as [|f indices IH]; intros pw e; cbn [index_records]; [done|].
  destruct (putf_HHH f) as [r|e'] eqn:Hf; cbn [rbind]; [apply IH|].
  intros [= <-]. by eapply putf_HHH_raise.
Qed.

(** X10.  The index chunk of a triangulated mesh (lines 146-150, on the
    [indices] of lines 82-96): every triangle contributes its three output
    indices, all below the number of output vertices.  With at most 65536
    output vertices the chunk is the count [3 * faces] followed by these
    indices as 16-bit values, in face order; with more the export raises
    [struct.error], since some triangle then has an index that does not fit
    16 bits.  No other exception leaves the writing of this chunk. *)
Theorem index_chunk_of_triangles (loops : list MeshLoop) (fs : list BMFace) (d : dedup) :
  export_dedup loops fs = Ok d ->
  (forall f, f ∈ fs -> length (f_loops f) = 3) ->
  (N.of_nat (3 * length fs) < 2 ^ 32)%N ->
  length (concat (indices d)) = 3 * length fs /\
  Forall (fun j => j < length (vertices d)) (concat (indices d)) /\
  (forall e, export_indices (indices d) = Raise e -> e = StructError) /\
  ((N.of_nat (length (vertices d)) <= 65536)%N ->
   export_indices (indices d)
   = Ok (put_I' (3 * length fs) :: (put_H' <$> concat (indices d)))) /\
  ((65536 < N.of_nat (length (vertices d)))%N ->
   export_indices (indices d) = Raise StructError).
Proof.
  intros Hd Htri Hcount.
  apply export_faces_spec in Hd as ([Hnd Hvm] & _ & iis & Hind & Hlen & Hidx & Hmem);
    [|apply table_ok_empty].
  cbn [indices vertices dedup_empty app] in Hind, Hmem. subst iis.
  assert (Hface : forall ii, ii ∈ indices d ->
            length ii = 3 /\ Forall (fun j => j < length (vertices d)) ii).
  { intros ii Hii. apply list_elem_of_lookup in Hii as [fi Hfi].
    destruct (lookup_lt_is_Some_2 fs fi) as [f Hf].
    { rewrite <- Hlen. by eapply lookup_lt_Some. }
    destruct (Hidx fi f Hf) as (ii' & Hii' & Hl & Hc). rewrite Hfi in Hii'.
    injection Hii' as <-. split.
    - rewrite Hl. apply Htri. by eapply list_elem_of_lookup_2.
    - apply Forall_lookup. intros li j Hj.
      destruct (Hc li) as (k & j' & _ & Hj' & Hv).
      { rewrite <- Hl. by eapply lookup_lt_Some. }
      rewrite Hj in Hj'. injection Hj' as <-. by eapply lookup_lt_Some. }
  assert (Hraise : forall e, export_indices (indices d) = Raise e -> e = StructError).
  { unfold export_indices. intros e.
    destruct (pack_I (3 * length (indices d))) as [n|e'] eqn:Hn; cbn [rbind];
      [apply index_records_raise|].
    unfold pack_I in Hn. destruct (_ <? _)%N; [done|]. by intros [= <-]; injection Hn as <-. }
  split_and!; try done.
  - rewrite <- Hlen. clear -Hface. induction (indices d) as [|ii l IH]; [done|].
    cbn [concat length]. rewrite length_app, IH by (intros; apply Hface; by right).
    destruct (Hface ii) as [-> _]; [left|lia].
  - apply Forall_concat. apply Forall_forall. intros ii Hii. by apply Hface.
  - intros Hsmall. unfold export_indices, pack_I. rewrite Hlen.
    rewrite (proj2 (N.ltb_lt _ _) Hcount). cbn [rbind].
    rewrite index_records_Ok; [done|]. apply Forall_forall. intros ii Hii.
    destruct (Hface ii Hii) as [Hl Hlt]. split; [done|].
    eapply Forall_impl; [exact Hlt|]. intros j Hj. cbv beta in Hj. unfold fits_H. lia.
  - intros Hbig. destruct (export_indices (indices d)) as [out|e] eqn:Hout;
      [|by rewrite (Hraise e eq_refl)].
    exfalso. unfold export_indices in Hout.
    apply rbind_Ok in Hout as (n & _ & Hout). apply index_records_inv in Hout.
    destruct (lookup_lt_is_Some_2 (vertices d) (N.to_nat 65536)) as [k Hk]; [lia|].
    destruct (proj1 (Hmem k)) as [Hin|(fi & li & Hkey)];
      [by eapply list_elem_of_lookup_2 | by apply elem_of_nil in Hin |].
    unfold key_at in Hkey. destruct (fs !! fi) as [f|] eqn:Hf; [|done].
    cbn [mbind option_bind] in Hkey.
    destruct (Hidx fi f Hf) as (ii & Hii & Hl & Hc).
    destruct (Hc li) as (k' & j & Hk' & Hj & Hv).
    { unfold corner_key in Hkey. destruct (f_loops f !! li) eqn:Hli; [|done].
      by eapply lookup_lt_Some. }
    rewrite Hkey in Hk'. injection Hk' as <-.
    assert (j = N.to_nat 65536) as Hj0 by (by eapply NoDup_lookup).
    rewrite Forall_forall in Hout. specialize (Hout ii (list_elem_of_lookup_2 _ _ _ Hii)).
    rewrite Forall_forall in Hout. specialize (Hout j (list_elem_of_lookup_2 _ _ _ Hj)).
    unfold fits_H in Hout. lia.
Qed.

(** *** Bounding boxes: [calculate_bbox] (lines 10-24) *)

(** An object of the scene, as far as [calculate_bbox] looks at it: the
    corners of its [bound_box], each a sequence of coordinates, and its
    children. *)
#[local] Unset Elimination Schemes.
Inductive BObject : Type :=
  | bobject (bound_box : list (list F)) (children : list BObject).
#[local] Set Elimination Schemes.

(** Induction on an object, with the property at hand for its children. *)
Fixpoint BObject_ind (P : BObject -> Prop)
    (step : forall b cc, Forall P cc -> P (bobject b cc)) (o : BObject) : P o :=
  match o with
  | bobject b cc =>
      step b cc
        ((fix all (cc : list BObject) : Forall P cc :=
            match cc with
            | [] => Forall_nil_2 P
            | c :: cc' => Forall_cons_2 P c cc' (BObject_ind P step c) (all cc')
            end) cc)
  end.

Definition bound_box (o : BObject) : list (list F) :=
  match o with bobject bb _ => bb end.

Definition children (o : BObject) : list BObject :=
  match o with bobject _ cc => cc end.

(** [min(a, b)] and [max(a, b)] on two numbers: the first one, unless the
    second one is smaller (greater). *)
Definition fmin (a b : F) : F := if fgt a b then b else a.
Definition fmax (a b : F) : F := if fgt b a then b else a.

(** [l[i]]. *)
Definition getidx {A : Type} (l : list A) (i : nat) : result A :=
  of_option IndexError (l !! i).

(** Lines 19-20: the body of [for i in range(3)] for the box [b]; the state
    is the pair of the lists [mn] and [mx]. *)
Definition expand_axis (b : list (list F)) (st : list F * list F) (i : nat)
  : result (list F * list F) :=
  let '(mn, mx) := st in
  let* mn_i := getidx mn i in
  let* b0 := getidx b 0 in
  let* b0_i := getidx b0 i in
  let mn := <[i := fmin mn_i b0_i]> mn in
  let* mx_i := getidx mx i in
  let* b6 := getidx b 6 in
  let* b6_i := getidx b6 i in
  let mx := <[i := fmax mx_i b6_i]> mx in
  Ok (mn, mx).

(** Lines 16-21: the body of [for c in cc], with the recursive call on the
    children of [c] as the inner loop. *)
Fixpoint expand_child (c : BObject) (st : list F * list F) {struct c}
  : result (list F * list F) :=
  match c with
  | bobject b cc =>
      let* st := Obj.rfold (expand_axis b) st [0; 1; 2] in
      (fix expand_children_r (cc : list BObject) (st : list F * list F)
         : result (list F * list F) :=
         match cc with
         | [] => Ok st
         | c :: cc' => let* st := expand_child c st in expand_children_r cc' st
         end) cc st
  end.

(** [expand_children_r(cc)]. *)
Definition expand_children_r (cc : list BObject) (st : list F * list F)
  : result (list F * list F) :=
  Obj.rfold (fun st c => expand_child c st) st cc.

Definition calculate_bbox (bpy_obj : BObject) : result (list F * list F) :=
  let bb := bound_box bpy_obj in
  let* bb0 := getidx bb 0 in
  let* x0 := getidx bb0 0 in
  let* y0 := getidx bb0 1 in
  let* z0 := getidx bb0 2 in
  let* bb6 := getidx bb 6 in
  let* x6 := getidx bb6 0 in
  let* y6 := getidx bb6 1 in
  let* z6 := getidx bb6 2 in
  expand_children_r (children bpy_obj) ([x0; y0; z0], [x6; y6; z6]).

Lemma expand_child_eq (b : list (list F)) (cc : list BObject) (st : list F * list F) :
  expand_child (bobject b cc) st
  = let* st := Obj.rfold (expand_axis b) st [0; 1; 2] in expand_children_r cc st.
Proof.
  cbn [expand_child]. destruct (Obj.rfold (expand_axis b) st [0; 1; 2]) as [st1|e];
    cbn [rbind]; [|done].
  unfold expand_children_r. revert st1. induction cc as [|c cc IH]; intros st1; [done|].
  cbn [Obj.rfold]. destruct (expand_child c st1); cbn [rbind]; [apply IH|done].
Qed.

(** [d] is [o] or one of its descendants. *)
Inductive within : BObject -> BObject -> Prop :=
  | within_self o : within o o
  | within_child d c b cc : c ∈ cc -> within d c -> within d (bobject b cc).

(** A [bound_box] as the host makes it: corners 0 and 6 with three
    coordinates each. *)
Definition boxed (d : BObject) : Prop :=
  exists b0 b6, bound_box d !! 0 = Some b0 /\ bound_box d !! 6 = Some b6 /\
                3 <= length b0 /\ 3 <= length b6.

(** The same as a check on the object and all its descendants. *)
Definition has_corners (b : list (list F)) : bool :=
  match b !! 0, b !! 6 with
  | Some b0, Some b6 => (3 <=? length b0) && (3 <=? length b6)
  | _, _ => false
  end.

Fixpoint all_boxed (o : BObject) : bool :=
  match o with
  | bobject b cc => has_corners b && forallb all_boxed cc
  end.

Lemma all_boxed_within (o : BObject) :
  all_boxed o = true -> forall d, within d o -> boxed d.
Proof.
  induction o as [b cc IH] using BObject_ind. cbn [all_boxed].
  intros Hall d Hd. apply andb_true_iff in Hall as [Hb Hcc].
  inversion Hd as [|d' c b' cc' Hc Hdc]; subst.
  - unfold has_corners in Hb. unfold boxed. cbn [bound_box].
    destruct (b !! 0) as [b0|]; [|done]. destruct (b !! 6) as [b6|]; [|done].
    apply andb_true_iff in Hb as [H0' H6']. apply Nat.leb_le in H0', H6'.
    by exists b0, b6.
  - rewrite Forall_forall in IH. apply (IH c Hc); [|done].
    rewrite forallb_forall in Hcc. apply Hcc. by apply list_elem_of_In.
Qed.

Section Bounds.

(** Python's [>] on floats is a strict order. *)
Hypothesis fgt_irrefl : forall x, fgt x x = false.
Hypothesis fgt_trans : forall x y z, fgt x y = true -> fgt y z = true -> fgt x z = true.

Lemma fmin_cases (m x : F) : fmin m x = m \/ fmin m x = x.
Proof. unfold fmin. destruct (fgt m x); auto. Qed.

Lemma fmax_cases (m x : F) : fmax m x = m \/ fmax m x = x.
Proof. unfold fmax. destruct (fgt x m); auto. Qed.

Lemma fmin_below (m x z : F) :
  (z = x \/ fgt m z = false) -> fgt (fmin m x) z = false.
Proof.
  unfold fmin. destruct (fgt m x) eqn:Hmx; intros [->|Hz]; try done.
  destruct (fgt x z) eqn:Hxz; [|done]. by rewrite (fgt_trans _ _ _ Hmx Hxz) in Hz.
Qed.

Lemma fmax_above (m x z : F) :
  (z = x \/ fgt z m = false) -> fgt z (fmax m x) = false.
Proof.
  unfold fmax. destruct (fgt x m) eqn:Hxm; intros [->|Hz]; try done.
  destruct (fgt z x) eqn:Hzx; [|done]. by rewrite (fgt_trans _ _ _ Hzx Hxm) in Hz.
Qed.

(** The three passes of [expand_axis] on a box with its corners 0 and 6. *)
Lemma expand_box (b : list (list F)) (b0 b6 mn mx : list F) :
  b !! 0 = Some b0 -> b !! 6 = Some b6 -> 3 <= length b0 -> 3 <= length b6 ->
  length mn = 3 -> length mx = 3 ->
  exists mn' mx',
    Obj.rfold (expand_axis b) (mn, mx) [0; 1; 2] = Ok (mn', mx') /\
    length mn' = 3 /\ length mx' = 3 /\
    forall i, i < 3 ->
      exists m M x y, mn !! i = Some m /\ mx !! i = Some M /\
                      b0 !! i = Some x /\ b6 !! i = Some y /\
                      mn' !! i = Some (fmin m x) /\ mx' !! i = Some (fmax M y).
Proof.
  intros Hb0 Hb6 Hl0 Hl6 Hmn Hmx.
  destruct mn as [|m0 [|m1 [|m2 [|? ?]]]]; try discriminate Hmn.
  destruct mx as [|M0 [|M1 [|M2 [|? ?]]]]; try discriminate Hmx.
  destruct b0 as [|x0 [|x1 [|x2 b0]]]; cbn [length] in Hl0; try lia.
  destruct b6 as [|y0 [|y1 [|y2 b6]]]; cbn [length] in Hl6; try lia.
  exists [fmin m0 x0; fmin m1 x1; fmin m2 x2], [fmax M0 y0; fmax M1 y1; fmax M2 y2].
  split_and!; try done.
  - cbn [Obj.rfold]. unfold expand_axis, getidx. rewrite Hb0, Hb6. reflexivity.
  - intros [|[|[|i]]] Hi; try lia; eexists _, _, _, _; split_and!; reflexivity.
Qed.

(** How a state of the two lists relates to an earlier one: every bound is
    the old one or a coordinate of an object of [S], the lower bounds went
    down and the upper bounds went up. *)
Definition extends (S : BObject -> Prop) (st st' : list F * list F) : Prop :=
  length st'.1 = 3 /\ length st'.2 = 3 /\
  forall i m M, st.1 !! i = Some m -> st.2 !! i = Some M ->
    exists m' M',
      st'.1 !! i = Some m' /\ st'.2 !! i = Some M' /\
      (forall z, fgt m z = false -> fgt m' z = false) /\
      (forall z, fgt z M = false -> fgt z M' = false) /\
      (m' = m \/ exists d b0, S d /\ bound_box d !! 0 = Some b0 /\ b0 !! i = Some m') /\
      (M' = M \/ exists d b6, S d /\ bound_box d !! 6 = Some b6 /\ b6 !! i = Some M').

(** The state bounds the corners 0 and 6 of [d]. *)
Definition encloses (st : list F * list F) (d : BObject) : Prop :=
  forall b0 b6 i x y,
    bound_box d !! 0 = Some b0 -> bound_box d !! 6 = Some b6 -> i < 3 ->
    b0 !! i = Some x -> b6 !! i = Some y ->
    exists m M, st.1 !! i = Some m /\ st.2 !! i = Some M /\
                fgt m x = false /\ fgt y M = false.

Lemma extends_refl (S : BObject -> Prop) (st : list F * list F) :
  length st.1 = 3 -> length st.2 = 3 -> extends S st st.
Proof.
  intros H1 H2. split_and!; try done. intros i m M Hm HM.
  exists m, M. split_and!; auto.
Qed.

Lemma extends_trans (S S' : BObject -> Prop) (st1 st2 st3 : list F * list F) :
  (forall d, S d -> S' d) ->
  extends S st1 st2 -> extends S' st2 st3 -> extends S' st1 st3.
Proof.
  intros HS (_ & _ & H12) (Hl1 & Hl2 & H23). split_and!; try done.
  intros i m M Hm HM.
  destruct (H12 i m M Hm HM) as (m2 & M2 & Hm2 & HM2 & Hlo2 & Hhi2 & Ha2 & Hb2).
  destruct (H23 i m2 M2 Hm2 HM2) as (m3 & M3 & Hm3 & HM3 & Hlo3 & Hhi3 & Ha3 & Hb3).
  exists m3, M3. split_and!; try done.
  - auto.
  - auto.
  - destruct Ha3 as [->|?]; [|by right].
    destruct Ha2 as [->|(d & b0 & Hd & ?)]; [by left|right]. exists d, b0. auto.
  - destruct Hb3 as [->|?]; [|by right].
    destruct Hb2 as [->|(d & b6 & Hd & ?)]; [by left|right]. exists d, b6. auto.
Qed.

Lemma encloses_extends (S : BObject -> Prop) (st st' : list F * list F) (d : BObject) :
  encloses st d -> extends S st st' -> encloses st' d.
Proof.
  intros Henc (_ & _ & Hext) b0 b6 i x y Hb0 Hb6 Hi Hx Hy.
  destruct (Henc b0 b6 i x y Hb0 Hb6 Hi Hx Hy) as (m & M & Hm & HM & Hlo & Hhi).
  destruct (Hext i m M Hm HM) as (m' & M' & Hm' & HM' & Hlo' & Hhi' & _).
  exists m', M'. split_and!; auto.
Qed.

Lemma extends_mono (S S' : BObject -> Prop) (st st' : list F * list F) :
  (forall d, S d -> S' d) -> extends S st st' -> extends S' st st'.
Proof.
  intros HS (Hl1 & Hl2 & Hext). split_and!; try done. intros i m M Hm HM.
  destruct (Hext i m M Hm HM) as (m' & M' & Hm' & HM' & Hlo & Hhi & Ha & Hb).
  exists m', M'. split_and!; try done.
  - destruct Ha as [?|(d & b0 & Hd & ?)]; [by left|right]. exists d, b0. auto.
  - destruct Hb as [?|(d & b6 & Hd & ?)]; [by left|right]. exists d, b6. auto.
Qed.

(** One object: lines 17-20. *)
Lemma expand_box_spec (c : BObject) (st : list F * list F) :
  boxed c -> length st.1 = 3 -> length st.2 = 3 ->
  exists st', Obj.rfold (expand_axis (bound_box c)) st [0; 1; 2] = Ok st' /\
              extends (fun d => d = c) st st' /\ encloses st' c.
Proof.
  intros (b0 & b6 & Hb0 & Hb6 & Hl0 & Hl6) Hmn Hmx. destruct st as [mn mx].
  destruct (expand_box _ b0 b6 mn mx Hb0 Hb6 Hl0 Hl6 Hmn Hmx)
    as (mn' & mx' & Hrun & Hmn' & Hmx' & Hax).
  exists (mn', mx'). split_and!; try done.
  - split_and!; try done. intros i m M Hm HM. cbn [fst snd] in *.
    destruct (Hax i) as (m1 & M1 & x & y & Hm1 & HM1 & Hx & Hy & Hm' & HM').
    { apply lookup_lt_Some in Hm. lia. }
    rewrite Hm in Hm1. rewrite HM in HM1.
    injection Hm1 as <-. injection HM1 as <-.
    exists (fmin m x), (fmax M y). split_and!; try done.
    + intros z Hz. apply fmin_below. by right.
    + intros z Hz. apply fmax_above. by right.
    + destruct (fmin_cases m x) as [->| ->]; [by left|right]. by exists c, b0.
    + destruct (fmax_cases M y) as [->| ->]; [by left|right]. by exists c, b6.
  - intros b0' b6' i x y Hb0' Hb6' Hi Hx Hy.
    rewrite Hb0 in Hb0'. rewrite Hb6 in Hb6'. injection Hb0' as <-. injection Hb6' as <-.
    destruct (Hax i Hi) as (m1 & M1 & x1 & y1 & Hm1 & HM1 & Hx1 & Hy1 & Hm' & HM').
    rewrite Hx in Hx1. rewrite Hy in Hy1. injection Hx1 as <-. injection Hy1 as <-.
    exists (fmin m1 x), (fmax M1 y). split_and!; try done.
    + apply fmin_below. by left.
    + apply fmax_above. by left.
Qed.

(** What is shown of [expand_child] by induction on the object. *)
Definition expand_child_ok (c : BObject) : Prop :=
  forall st, (forall d, within d c -> boxed d) -> length st.1 = 3 -> length st.2 = 3 ->
    exists st', expand_child c st = Ok st' /\
                extends (fun d => within d c) st st' /\
                forall d, within d c -> encloses st' d.

Lemma expand_children_spec (cc : list BObject) :
  Forall expand_child_ok cc ->
  forall st, (forall c d, c ∈ cc -> within d c -> boxed d) ->
    length st.1 = 3 -> length st.2 = 3 ->
    exists st', expand_children_r cc st = Ok st' /\
                extends (fun d => exists c, c ∈ cc /\ within d c) st st' /\
                forall c d, c ∈ cc -> within d c -> encloses st' d.
Proof.
  unfold expand_children_r. induction 1 as [|c cc Hc _ IH]; intros st Hbox Hmn Hmx.
  - exists st. split_and!; [done|by apply extends_refl|].
    intros c d Hin. by apply elem_of_nil in Hin.
  - destruct (Hc st) as (st1 & Hrun1 & Hext1 & Henc1); try done.
    { intros d Hd. apply (Hbox c); [left|done]. }
    destruct (IH st1) as (st2 & Hrun2 & Hext2 & Henc2).
    { intros c' d Hc' Hd. apply (Hbox c'); [by right|done]. }
    { apply Hext1. }
    { apply Hext1. }
    exists st2. cbn [Obj.rfold]. rewrite Hrun1. cbn [rbind]. split_and!; try done.
    + eapply (extends_trans (fun d => within d c)); [|exact Hext1|].
      * intros d Hd. exists c. split; [left|done].
      * eapply extends_mono; [|exact Hext2]. intros d (c' & Hc' & Hd).
        exists c'. split; [by right|done].
    + intros c' d Hc' Hd. apply elem_of_cons in Hc' as [->|Hc'].
      * eapply encloses_extends; [by apply Henc1|exact Hext2].
      * by eapply Henc2.
Qed.

Lemma expand_child_spec (c : BObject) : expand_child_ok c.
Proof.
  induction c as [b cc IH] using BObject_ind. intros st Hbox Hmn Hmx.
  destruct (expand_box_spec (bobject b cc) st) as (st1 & Hrun1 & Hext1 & Henc1); try done.
  { apply Hbox. constructor. }
  destruct (expand_children_spec cc IH st1) as (st2 & Hrun2 & Hext2 & Henc2).
  { intros c d Hc Hd. apply Hbox. by eapply within_child. }
  { apply Hext1. }
  { apply Hext1. }
  exists st2. rewrite expand_child_eq. cbn [bound_box] in Hrun1. rewrite Hrun1.
  cbn [rbind]. split_and!; try done.
  - eapply (extends_trans (fun d => d = bobject b cc)); [|exact Hext1|].
    + intros d ->. constructor.
    + eapply extends_mono; [|exact Hext2]. intros d (c & Hc & Hd).
      by eapply within_child.
  - intros d Hd. inversion Hd as [|d' c b' cc' Hc Hdc]; subst.
    + eapply encloses_extends; [exact Henc1|exact Hext2].
    + by eapply Henc2.
Qed.

(** X11.  [calculate_bbox] (lines 10-24) on an object whose [bound_box],
    like that of each of its descendants, has the corners 0 and 6 with three
    coordinates each: it returns two lists of three numbers; along every
    axis the first is not greater than the coordinate of corner 0, and the
    second not less than the coordinate of corner 6, of the object and of
    every descendant, children of children included; and each of the six
    numbers is such a coordinate of the object or of one of its descendants. *)
Theorem bbox_encloses_descendants (bpy_obj : BObject) :
  (forall d, within d bpy_obj -> boxed d) ->
  exists mn mx,
    calculate_bbox bpy_obj = Ok (mn, mx) /\ length mn = 3 /\ length mx = 3 /\
    (forall d b0 b6 i x y,
       within d bpy_obj -> bound_box d !! 0 = Some b0 -> bound_box d !! 6 = Some b6 ->
       i < 3 -> b0 !! i = Some x -> b6 !! i = Some y ->
       exists m M, mn !! i = Some m /\ mx !! i = Some M /\
                   fgt m x = false /\ fgt y M = false) /\
    (forall i m M,
       mn !! i = Some m -> mx !! i = Some M ->
       (exists d b0, within d bpy_obj /\ bound_box d !! 0 = Some b0 /\ b0 !! i = Some m) /\
       (exists d b6, within d bpy_obj /\ bound_box d !! 6 = Some b6 /\ b6 !! i = Some M)).
Proof.
  intros Hbox. destruct bpy_obj as [bb cc].
  destruct (Hbox (bobject bb cc)) as (b0 & b6 & Hb0 & Hb6 & Hl0 & Hl6); [constructor|].
  cbn [bound_box] in Hb0, Hb6.
  destruct b0 as [|x0 [|y0 [|z0 b0]]]; cbn [length] in Hl0; try lia.
  destruct b6 as [|x6 [|y6 [|z6 b6]]]; cbn [length] in Hl6; try lia.
  set (st0 := ([x0; y0; z0], [x6; y6; z6])).
  destruct (expand_children_spec cc) with (st := st0) as (st' & Hrun & Hext & Henc); try done.
  { apply Forall_forall. intros c _. apply expand_child_spec. }
  { intros c d Hc Hd. apply Hbox. by eapply within_child. }
  assert (Henc0 : encloses st0 (bobject bb cc)).
  { intros b0' b6' i x y Hb0' Hb6' Hi Hx Hy. cbn [bound_box] in Hb0', Hb6'.
    rewrite Hb0 in Hb0'. rewrite Hb6 in Hb6'. injection Hb0' as <-. injection Hb6' as <-.
    exists x, y. destruct i as [|[|[|i]]]; try lia; cbn in Hx, Hy;
      injection Hx as <-; injection Hy as <-; split_and!; try done; apply fgt_irrefl. }
  destruct st' as [mn mx]. exists mn, mx. split_and!.
  - unfold calculate_bbox, getidx. cbn [bound_box children]. rewrite Hb0, Hb6. exact Hrun.
  - apply Hext.
  - apply Hext.
  - intros d b0' b6' i x y Hd.
    assert (encloses (mn, mx) d) as Hd'.
    { inversion Hd as [|d' c b' cc' Hc Hdc]; subst.
      - eapply encloses_extends; [exact Henc0|exact Hext].
      - by eapply Henc. }
    apply Hd'.
  - intros i m M Hm HM. destruct Hext as (Hl1 & Hl2 & Hext).
    assert (i < 3) as Hi by (apply lookup_lt_Some in Hm; cbn [fst] in Hl1; lia).
    destruct (lookup_lt_is_Some_2 st0.1 i) as [m0 Hm0]; [cbn; lia|].
    destruct (lookup_lt_is_Some_2 st0.2 i) as [M0 HM0]; [cbn; lia|].
    destruct (Hext i m0 M0 Hm0 HM0) as (m' & M' & Hm' & HM' & _ & _ & Ha & Hb).
    cbn [fst snd] in Hm', HM'. rewrite Hm in Hm'. rewrite HM in HM'.
    injection Hm' as <-. injection HM' as <-. split.
    + destruct Ha as [->|(d & b0' & (c & Hc & Hd) & Hb0' & Hx)].
      * exists (bobject bb cc), (x0 :: y0 :: z0 :: b0). split_and!; [constructor|done|].
        destruct i as [|[|[|i]]]; try lia; cbn in Hm0, HM0 |- *; congruence.
      * exists d, b0'. split_and!; try done. by eapply within_child.
    + destruct Hb as [->|(d & b6' & (c & Hc & Hd) & Hb6' & Hy)].
      * exists (bobject bb cc), (x6 :: y6 :: z6 :: b6). split_and!; [constructor|done|].
        destruct i as [|[|[|i]]]; try lia; cbn in Hm0, HM0 |- *; congruence.
      * exists d, b6'. split_and!; try done. by eapply within_child.
Qed.

End Bounds.

End Exporter.

(** *** Running the exporter on exact rationals *)

Lemma Qgtb_irrefl (x : Q) : Qgtb x x = false.
Proof. unfold Qgtb. by rewrite (proj1 (Qeq_alt x x) (Qeq_refl x)). Qed.

Lemma Qgtb_trans (x y z : Q) : Qgtb x y = true -> Qgtb y z = true -> Qgtb x z = true.
Proof.
  unfold Qgtb. intros Hxy Hyz.
  destruct (Qcompare x y) eqn:Exy; try discriminate.
  destruct (Qcompare y z) eqn:Eyz; try discriminate.
  apply Qgt_alt in Exy, Eyz.
  assert (Qlt z x) as Hzx by (eapply Qlt_trans; eassumption).
  apply Qgt_alt in Hzx. by rewrite Hzx.
Qed.

(** A square split into two triangles; source vertices 0 and 2 are shared by
    both, vertex 4 sits at the position of vertex 0. *)
Definition zvert (i : nat) (x y : Z) : @BMVert Z :=
  {| v_index := i; v_co := (x, y, 0%Z) |}.
Definition zloop (v : @BMVert Z) : @BMLoop Z := {| l_vert := v; l_uv := (0%Z, 0%Z) |}.
Definition zmeshloop : @MeshLoop Z :=
  {| normal := (0, 0, 1)%Z; tangent := (1, 0, 0)%Z; bitangent := (0, 1, 0)%Z |}.

Definition square_faces : list (@BMFace Z) :=
  [ {| f_index := 0; f_loops := [zloop (zvert 0 0 0); zloop (zvert 1 1 0); zloop (zvert 2 1 1)] |};
    {| f_index := 1; f_loops := [zloop (zvert 0 0 0); zloop (zvert 2 1 1); zloop (zvert 4 0 0)] |} ].

Definition square_loops : list (@MeshLoop Z) := replicate 6 zmeshloop.

Definition square_dedup : result (@dedup Z _ _) :=
  export_dedup (fun v => v) square_loops square_faces.

Example square_indices :
  (fun d => (length (vertices d), indices d)) <$>
    (match square_dedup with Ok d => Some d | Raise _ => None end)
  = Some (4, [[0; 1; 2]; [0; 2; 3]]).
Proof. vm_compute. reflexivity. Qed.

(** The first corner of the first face and the last corner of the second one
    are at the same position and differ in the source vertex, 0 and 4. *)
Lemma vertex_dedup_by_exact_key_witness :
  exists d i j,
    square_dedup = Ok d /\ length (indices d) = 2 /\
    index_at d 0 0 = Some i /\ index_at d 1 2 = Some j /\ i <> j /\
    vertices d !! j = Some (4, (0, 0, 0)%Z, (0, 0, 1)%Z, (1, 0, 0)%Z, (0, 1, 0)%Z, (0, 1)%Z).
Proof.
  destruct (vertex_dedup_by_exact_key (fun v => v) square_loops square_faces)
    as (d & Hd & Hlen & _ & _ & _ & _ & Hat & Hdiff & _).
  - intros f li Hf Hli. unfold square_faces in Hf.
    apply elem_of_cons in Hf as [->|Hf]; [simpl in *; lia|].
    apply elem_of_cons in Hf as [->|Hf]; [simpl in *; lia|].
    by apply elem_of_nil in Hf.
  - destruct (Hat 0 _ 0 (zloop (zvert 0 0 0)) zmeshloop eq_refl eq_refl eq_refl)
      as (i & Hi & _).
    destruct (Hat 1 _ 2 (zloop (zvert 4 0 0)) zmeshloop eq_refl eq_refl eq_refl)
      as (j & Hj & Hvj).
    exists d, i, j. split; [exact Hd|]. split; [exact Hlen|].
    split; [exact Hi|]. split; [exact Hj|]. split; [|exact Hvj].
    apply (proj2 (Hdiff 0 _ 0 (zloop (zvert 0 0 0)) zmeshloop
                    1 _ 2 (zloop (zvert 4 0 0)) zmeshloop i j
                    eq_refl eq_refl eq_refl eq_refl eq_refl eq_refl Hi Hj)).
    simpl. lia.
Defined.

(** Tenths, for the weights of the spec's examples. *)
Definition tenths (n : Z) : Q := Qmake n 10.

Definition origin_vtx (i : nat) : @vtx Q :=
  (i, (0, 0, 0), (0, 0, 0), (0, 0, 0), (0, 0, 0), (0, 0))%Q.

(** Three vertices: weights [{5: 0.3, 9: 0.7}], [{4: 1.0}] and
    [{1: 0.1, 2: 0.2, 3: 0.7}]. *)
Definition sample_weights : list (@weights Q) :=
  [ [(5, tenths 3); (9, tenths 7)];
    [(4, tenths 10)];
    [(1, tenths 1); (2, tenths 2); (3, tenths 7)] ].

Example sample_two_influences :
  vertex_record sample_weights (origin_vtx 0)
  = Ok ([put_H 5; put_H 9] ++ put_geometry (origin_vtx 0) ++ [put_f (tenths 7)]
          ++ put_ff (vtx_uv (origin_vtx 0))).
Proof. vm_compute. reflexivity. Qed.

Lemma multi_influence_blend_factor_witness :
  vertex_record sample_weights (origin_vtx 0)
  = Ok ([put_H' 5; put_H' 9] ++ put_geometry (origin_vtx 0)
          ++ [put_f (fsub f_one (tenths 3))] ++ put_ff (vtx_uv (origin_vtx 0)))
  /\ vertex_record sample_weights (origin_vtx 1)
  = Ok ([put_H' 4; put_H' 4] ++ put_geometry (origin_vtx 1) ++ [put_f f_zero]
          ++ put_ff (vtx_uv (origin_vtx 1))).
Proof.
  assert (max_influences sample_weights <> 1) as Hmulti by (vm_compute; lia).
  destruct (multi_influence_blend_factor sample_weights [origin_vtx 0; origin_vtx 1] Hmulti)
    as (_ & Htwo & Hone & _).
  split.
  - apply (Htwo (origin_vtx 0) 5 (tenths 3) 9 (tenths 7) (tenths 3)).
    + reflexivity.
    + lia.
    + reflexivity.
    + reflexivity.
    + vm_compute. reflexivity.
  - apply (Hone (origin_vtx 1) 4 (tenths 10)); reflexivity.
Defined.

(** C3.  A vertex with more than two influences (pairwise distinct bones,
    weights above -1, as deform weights are) keeps exactly two of them, of
    weights [w0] and [w1]: no discarded influence has a weight greater than
    [w0] or than [w1], the vertex record names only these two bones (their
    indices being below 65536, as a bone slot of 16 bits asks; the writer
    raises its [struct.error] otherwise), and the console gets the [vwmx]
    warning of the mesh.  On the weights [{1: 0.1, 2: 0.2, 3: 0.7}] the bones
    kept are 3 and 2. *)
Theorem keeps_two_largest_weights :
  (forall (F : Type) (FL : Float F),
     (forall x : F, fgt x x = false) ->
     (forall x y z : F, fgt x y = true -> fgt y z = true -> fgt x z = true) ->
     forall (verts : list weights) (vs : list vtx) (v : vtx) (vw : weights),
       verts !! vtx_index v = Some vw -> 2 < length vw -> NoDup (keys vw) ->
       (forall k w, (k, w) ∈ vw -> fgt w f_minus_one = true) ->
       exists k0 w0 k1 w1,
         max_two vw = Ok [(k0, w0); (k1, w1)] /\
         (k0, w0) ∈ vw /\ (k1, w1) ∈ vw /\ k0 <> k1 /\
         (forall k w, (k, w) ∈ vw -> k <> k0 -> k <> k1 ->
            fgt w w0 = false /\ fgt w w1 = false) /\
         (forall q, (N.of_nat k0 < 65536)%N -> (N.of_nat k1 < 65536)%N ->
            fdiv w0 (fadd w0 w1) = Some q ->
            vertex_record verts v
            = Ok ([put_H' k0; put_H' k1] ++ put_geometry v
                    ++ [put_f (fsub f_one q)] ++ put_ff (vtx_uv v))) /\
         ((65536 <= N.of_nat k0)%N \/ (65536 <= N.of_nat k1)%N ->
          vertex_record verts v = Raise StructError) /\
         (export_vertices verts vs).1 = [warning_vwmx (max_influences verts)]) /\
  max_two [(1, tenths 1); (2, tenths 2); (3, tenths 7)]
  = Ok [(3, tenths 7); (2, tenths 2)].
Proof.
  split.
  - intros F FL Hirr Htr verts vs v vw. by apply max_two_retained.
  - vm_compute. reflexivity.
Qed.

Lemma keeps_two_largest_weights_witness :
  exists k0 w0 k1 w1,
    max_two [(1, tenths 1); (2, tenths 2); (3, tenths 7)] = Ok [(k0, w0); (k1, w1)]
    /\ k0 <> k1
    /\ (export_vertices sample_weights [origin_vtx 2]).1 = [warning_vwmx 3].
Proof.
  destruct (proj1 keeps_two_largest_weights Q Q_float Qgtb_irrefl Qgtb_trans
              sample_weights [origin_vtx 2] (origin_vtx 2)
              [(1, tenths 1); (2, tenths 2); (3, tenths 7)])
    as (k0 & w0 & k1 & w1 & Hm & _ & _ & Hne & _ & _ & _ & Hwarn).
  - reflexivity.
  - simpl. lia.
  - apply (bool_decide_unpack _). vm_compute. exact I.
  - intros k w Hin. repeat (apply elem_of_cons in Hin as [Heq|Hin]; [injection Heq as -> ->; reflexivity|]).
    by apply elem_of_nil in Hin.
  - exists k0, w0, k1, w1. split; [exact Hm|]. split; [exact Hne|exact Hwarn].
Defined.

(** *** The weight packing and the index chunk on the samples *)


Lemma max_two_raises_KeyError_witness : max_two [(4, tenths 10)] = Raise KeyError.
Proof.
  apply (proj2 (proj2 (@max_two_raises_KeyError Q Q_float Qgtb_irrefl Qgtb_trans
                          [(4, tenths 10)]))).
  simpl. lia.
Defined.

Lemma vertex_chunk_fixed_records_witness :
  exists out,
    (export_vertices sample_weights [origin_vtx 0; origin_vtx 1; origin_vtx 2]).2 = Ok out /\
    length out = 53.
Proof.
  assert (exists out,
            (export_vertices sample_weights [origin_vtx 0; origin_vtx 1; origin_vtx 2]).2
            = Ok out) as [out Hout].
  { vm_compute. eexists. reflexivity. }
  exists out. split; [exact Hout|].
  destruct (vertex_chunk_fixed_records sample_weights
              [origin_vtx 0; origin_vtx 1; origin_vtx 2] out) as [Hlen _].
  - repeat constructor.
  - vm_compute. lia.
  - exact Hout.
  - exact Hlen.
Defined.

(** A mesh of two vertices, each of them in one group. *)
Lemma single_influence_records_witness :
  exists out,
    (export_vertices [[(4, tenths 10)]; [(7, tenths 5)]] [origin_vtx 1; origin_vtx 0]).2
    = Ok out /\
    length out = 30.
Proof.
  assert (exists out,
            (export_vertices [[(4, tenths 10)]; [(7, tenths 5)]]
               [origin_vtx 1; origin_vtx 0]).2 = Ok out) as [out Hout].
  { vm_compute. eexists. reflexivity. }
  exists out. split; [exact Hout|].
  destruct (single_influence_records [[(4, tenths 10)]; [(7, tenths 5)]]
              [origin_vtx 1; origin_vtx 0] out) as (_ & Hlen & _).
  - repeat constructor.
  - reflexivity.
  - exact Hout.
  - exact Hlen.
Defined.

(** A mesh without vertex groups: one vertex, no influence. *)
Lemma vertex_without_influence_fails_witness :
  export_vertices [[]] [origin_vtx 0] = ([warning_vwmx 0], Raise (Failure "oops")).
Proof.
  apply (proj2 (vertex_without_influence_fails (F:=Q) [[]])).
  - reflexivity.
  - vm_compute. lia.
Defined.

Lemma index_chunk_of_triangles_witness :
  exists d, square_dedup = Ok d /\
            export_indices (F:=Z) (indices d)
            = Ok (put_I' 6 :: (put_H' <$> [0; 1; 2; 0; 2; 3])).
Proof.
  pose proof square_indices as Hex.
  destruct square_dedup as [d|e] eqn:Hd; [|discriminate Hex].
  injection Hex as Hv Hi. exists d. split; [reflexivity|].
  destruct (index_chunk_of_triangles (fun v => v) square_loops square_faces d)
    as (_ & _ & _ & Hsmall & _).
  - exact Hd.
  - intros f Hf. unfold square_faces in Hf.
    apply elem_of_cons in Hf as [->|Hf]; [reflexivity|].
    apply elem_of_cons in Hf as [->|Hf]; [reflexivity|].
    by apply elem_of_nil in Hf.
  - vm_compute. reflexivity.
  - rewrite Hi in Hsmall |- *. apply Hsmall. rewrite Hv. vm_compute. discriminate.
Defined.

(** *** A bounding box over integers *)

Lemma Zgtb_irrefl (x : Z) : Z.gtb x x = false.
Proof. rewrite Z.gtb_ltb. apply Z.ltb_irrefl. Qed.

Lemma Zgtb_trans (x y z : Z) : Z.gtb x y = true -> Z.gtb y z = true -> Z.gtb x z = true.
Proof. rewrite !Z.gtb_ltb, !Z.ltb_lt. lia. Qed.

(** The eight corners of a box in the order of [bound_box]: corner 0 is the
    least one and corner 6 the greatest one. *)
Definition zbox (lo hi : Z * Z * Z) : list (list Z) :=
  let '(x0, y0, z0) := lo in
  let '(x1, y1, z1) := hi in
  [[x0; y0; z0]; [x0; y0; z1]; [x0; y1; z1]; [x0; y1; z0];
   [x1; y0; z0]; [x1; y0; z1]; [x1; y1; z1]; [x1; y1; z0]].

(** An object with two children, the second of which has a child. *)
Definition nested_boxes : @BObject Z :=
  bobject (zbox (0, 0, 0) (1, 1, 1))%Z
    [ bobject (zbox (-3, 0, 0) (0, 4, 1))%Z [];
      bobject (zbox (0, 1, 0) (2, 2, 2))%Z
        [ bobject (zbox (1, 1, -1) (5, 2, 0))%Z [] ] ].

Example nested_boxes_bbox :
  calculate_bbox nested_boxes = Ok ([-3; 0; -1]%Z, [5; 4; 2]%Z).
Proof. vm_compute. reflexivity. Qed.

Lemma bbox_encloses_descendants_witness :
  exists mn mx, calculate_bbox nested_boxes = Ok (mn, mx) /\ length mn = 3.
Proof.
  destruct (@bbox_encloses_descendants Z Z_float Zgtb_irrefl Zgtb_trans nested_boxes)
    as (mn & mx & Hrun & Hlen & _).
  - apply all_boxed_within. vm_compute. reflexivity.
  - exists mn, mx. split; [exact Hrun | exact Hlen].
Defined.

End Ogf.
